(** * Product Importer: the browser-side upload tracker and the delete-all guard

    A shallow embedding of [app/static/js/upload.js] (the current version of
    the file: [handleFileUpload], [connectWebSocket], [pollUploadStatus],
    [updateProgress], [displayErrors], [handleUploadComplete]) and of the
    typed-confirmation delete of the products script ([onDeleteAllInput],
    [performDeleteAll]).

    The scripts are event handlers over module-level variables and the DOM.
    Each handler is a function on an explicit state record; what the host
    delivers (a response, a frame, a close event, an interval that fires,
    the answer of a fetch) is an event carrying its payload, and [step]
    dispatches it the way the browser does.  Numbers are doubles, printed as
    the scripts print them.  The listing, the selection and the webhook form
    of the other scripts follow in modules of their own. *)

From Stdlib Require Import Floats.PrimFloat Floats.SpecFloat Floats.FloatOps.
From Stdlib Require Import ZArith Lia Ascii String List Bool.
From stdpp Require Import base list strings pretty.

Open Scope string_scope.
Open Scope list_scope.

(** ** JavaScript values *)

Module Js.

(** *** Numbers

    A Number is an IEEE 754 binary64 value, here a primitive [float];
    [Prim2SF] gives its sign, its mantissa [m] and its exponent [e], the
    value being [m * 2^e].  The scripts only ever print their numbers, with
    a template literal (Number::toString) or with [toFixed]. *)

(** [c * 10^p] and [a * 2^g] over a common denominator. *)
Definition scaled (c p a g : Z) : Z * Z :=
  (c * 10 ^ Z.max p 0 * 2 ^ Z.max (- g) 0,
   a * 2 ^ Z.max g 0 * 10 ^ Z.max (- p) 0)%Z.

(** The [n] with [10^(n-1) <= m * 2^e < 10^n], found from an estimate that
    is at most three below it. *)
Definition magnitude (m e : Z) : Z :=
  let n0 := ((Z.log2 m + e) * 1233 / 4096)%Z in
  let below n := let '(l, r) := scaled 1 n m e in (r <? l)%Z in
  if below n0 then n0
  else if below (n0 + 1)%Z then (n0 + 1)%Z
  else if below (n0 + 2)%Z then (n0 + 2)%Z
  else (n0 + 3)%Z.

(** Whether the decimal [c * 10^p] reads back as the double [m * 2^e]: it
    lies between the midpoints to the two neighbouring doubles, the
    midpoints included when [m] is even.  The lower neighbour is half as far
    at a power of two. *)
Definition reads_back (m e c p : Z) : bool :=
  let d := if (m =? 2 ^ 52)%Z && (-1074 <? e)%Z then 1%Z else 2%Z in
  let '(l1, r1) := scaled c p (4 * m - d) (e - 2) in
  let '(l2, r2) := scaled c p (4 * m + 2) (e - 2) in
  if Z.even m then (r1 <=? l1)%Z && (l2 <=? r2)%Z
  else (r1 <? l1)%Z && (l2 <? r2)%Z.

(** The shortest decimal that reads back as [m * 2^e], as its digits [c] and
    the place [p] of the last one: from one digit on, the two decimals next
    to the value are tried, and of two that read back the closer is taken
    (the even one if they are equally close). *)
Fixpoint shortest (fuel : nat) (m e p : Z) : Z * Z :=
  let c := (m * 2 ^ Z.max e 0 * 10 ^ Z.max (- p) 0
            / (10 ^ Z.max p 0 * 2 ^ Z.max (- e) 0))%Z in
  match fuel with
  | O => (c, p)
  | S fuel' =>
      match reads_back m e c p, reads_back m e (c + 1) p with
      | true, true =>
          let '(l, r) := scaled (2 * c + 1) p (2 * m) e in
          if (l <? r)%Z then (c + 1, p)%Z
          else if (r <? l)%Z then (c, p)
          else if Z.even c then (c, p) else (c + 1, p)%Z
      | true, false => (c, p)
      | false, true => (c + 1, p)%Z
      | false, false => shortest fuel' m e (p - 1)%Z
      end
  end.

Definition zeros (n : Z) : string :=
  string_of_list_ascii (repeat "0"%char (Z.to_nat n)).

(** Number::toString of the positive finite [m * 2^e]: with [k] digits [ds]
    and the decimal point after the [n]-th of them, plain notation for
    [-6 < n <= 21] and exponent notation otherwise.  Seventeen digits always
    read back, so the fuel is not used up. *)
Definition finite_to_string (m e : Z) : string :=
  let '(c, p) := shortest 20 m e (magnitude m e - 1) in
  let ds0 := pretty c in
  (* rounding up to [10^k] leaves the one digit 1, one place higher *)
  let carried := (c =? 10 ^ Z.of_nat (String.length ds0 - 1))%Z
                 && (1 <? String.length ds0)%nat in
  let ds := if carried then "1" else ds0 in
  let k := Z.of_nat (String.length ds) in
  let n := (p + Z.of_nat (String.length ds0))%Z in
  if (k <=? n)%Z && (n <=? 21)%Z then ds +:+ zeros (n - k)
  else if (0 <? n)%Z && (n <=? 21)%Z then
    substring 0 (Z.to_nat n) ds +:+ "."
    +:+ substring (Z.to_nat n) (Z.to_nat (k - n)) ds
  else if (-6 <? n)%Z && (n <=? 0)%Z then "0." +:+ zeros (- n) +:+ ds
  else
    let x := (n - 1)%Z in
    let mantissa :=
      if (k =? 1)%Z then ds
      else substring 0 1 ds +:+ "." +:+ substring 1 (Z.to_nat (k - 1)) ds in
    mantissa +:+ "e" +:+ (if (x <? 0)%Z then "-" else "+") +:+ pretty (Z.abs x).

(** Number::toString with radix 10, which a template literal applies. *)
Definition number_to_string (x : float) : string :=
  match Prim2SF x with
  | S754_nan => "NaN"
  | S754_zero _ => "0"
  | S754_infinity s => if s then "-Infinity" else "Infinity"
  | S754_finite s m e =>
      (if s then "-" else EmptyString) +:+ finite_to_string (Zpos m) e
  end.

(** [x.toFixed(f)]: below [10^21] the integer nearest to [x * 10^f], the
    larger one of two, written with [f] digits after the point. *)
Definition toFixed (f : nat) (x : float) : string :=
  match Prim2SF x with
  | S754_nan => "NaN"
  | S754_infinity s => if s then "-Infinity" else "Infinity"
  | S754_zero _ =>
      "0" +:+ (if (0 <? f)%nat then "." +:+ zeros (Z.of_nat f) else EmptyString)
  | S754_finite s m e =>
      let sign := if s then "-" else EmptyString in
      let '(l, r) := scaled 1 21 (Zpos m) e in
      if (l <=? r)%Z then sign +:+ finite_to_string (Zpos m) e
      else
        let n := ((2 * Zpos m * 2 ^ Z.max e 0 * 10 ^ Z.of_nat f
                   + 2 ^ Z.max (- e) 0)
                  / (2 * 2 ^ Z.max (- e) 0))%Z in
        let ds := pretty n in
        let ds := if (String.length ds <=? f)%nat
                  then zeros (Z.of_nat (f + 1 - String.length ds)) +:+ ds
                  else ds in
        let k := String.length ds in
        sign +:+ (if (0 <? f)%nat
                  then substring 0 (k - f) ds +:+ "." +:+ substring (k - f) f ds
                  else ds)
  end.

#[global] Arguments number_to_string : simpl never.
#[global] Arguments toFixed : simpl never.

(** *** Values *)

(** JSON-shaped values, plus [undefined] for an absent property. *)
#[warnings="-register-all"]
Inductive JsVal : Type :=
| JUndefined
| JNull
| JBool (b : bool)
| JNum (n : float)
| JStr (s : string)
| JArr (elems : list JsVal)
| JObj (fields : list (string * JsVal)).

(** The character U+0022, which delimits attribute values in the markup. *)
Definition quot : string := String "034"%char EmptyString.

(** ToBoolean; of the numbers, the two zeros and NaN are falsy. *)
Definition truthy (v : JsVal) : bool :=
  match v with
  | JUndefined | JNull => false
  | JBool b => b
  | JNum n => negb (PrimFloat.eqb n 0) && PrimFloat.eqb n n
  | JStr s => negb (String.eqb s EmptyString)
  | JArr _ | JObj _ => true
  end.

(** [v || d]. *)
Definition or_else (v d : JsVal) : JsVal := if truthy v then v else d.

(** ToString, as a template literal applies it. *)
Fixpoint to_string (v : JsVal) : string :=
  match v with
  | JUndefined => "undefined"
  | JNull => "null"
  | JBool true => "true"
  | JBool false => "false"
  | JNum n => number_to_string n
  | JStr s => s
  | JArr l =>
      String.concat ","
        (map (fun e => match e with
                       | JUndefined | JNull => EmptyString
                       | _ => to_string e
                       end) l)
  | JObj _ => "[object Object]"
  end.

(** Own property of an object literal; the last binding of a key wins, as in
    [JSON.parse]. *)
Definition field (key : string) (fs : list (string * JsVal)) : JsVal :=
  fold_left (fun acc kv => if String.eqb (fst kv) key then snd kv else acc)
            fs JUndefined.

(** [v.key] for the keys the scripts read off an error record
    ([batch_error], [error], [row]; none is a built-in of a primitive or of
    an array).  [None] is the TypeError of reading a property of [null] or
    [undefined]. *)
Definition get (v : JsVal) (key : string) : option JsVal :=
  match v with
  | JUndefined | JNull => None
  | JObj fs => Some (field key fs)
  | JBool _ | JNum _ | JStr _ | JArr _ => Some JUndefined
  end.

(** [v !== undefined]. *)
Definition defined (v : JsVal) : bool :=
  match v with JUndefined => false | _ => true end.

(** [v.length > 0] for a truthy [v]: an array or a string has its length,
    a number or a boolean has none, and an object has whatever its [length]
    field holds, compared here when it is a number.  Only the array case
    bears on the page: [displayErrors] writes nothing for any other value,
    whether the test lets it be called or not. *)
Definition length_positive (v : JsVal) : bool :=
  match v with
  | JArr l => (0 <? length l)%nat
  | JStr s => (0 <? String.length s)%nat
  | JObj fs => match field "length" fs with
               | JNum n => PrimFloat.ltb 0 n
               | _ => false
               end
  | _ => false
  end.

(** [s.startsWith(p)]. *)
Definition startsWith (p s : string) : bool := String.prefix p s.

(** A text without the space character. *)
Fixpoint no_space (s : string) : bool :=
  match s with
  | EmptyString => true
  | String c r => negb (Ascii.eqb c " ") && no_space r
  end.

(** *** [String.prototype.trim]

    Strings are held as their UTF-8 bytes.  [strip_ws] removes one leading
    WhiteSpace or LineTerminator code point: TAB, LF, VT, FF, CR, SP, U+00A0,
    U+1680, U+2000..U+200A, U+2028, U+2029, U+202F, U+205F, U+3000, U+FEFF. *)
Definition ws1 (a : nat) : bool :=
  ((9 <=? a) && (a <=? 13))%nat || (a =? 32)%nat.

Definition ws2 (a b : nat) : bool := (a =? 194)%nat && (b =? 160)%nat.

Definition ws3 (a b c : nat) : bool :=
  ((a =? 225) && (b =? 154) && (c =? 128))%nat
  || ((a =? 226) && (b =? 128) &&
      (((128 <=? c) && (c <=? 138)) || (c =? 168) || (c =? 169) || (c =? 175)))%nat
  || ((a =? 226) && (b =? 129) && (c =? 159))%nat
  || ((a =? 227) && (b =? 128) && (c =? 128))%nat
  || ((a =? 239) && (b =? 187) && (c =? 191))%nat.

Definition strip_ws (s : list nat) : option (list nat) :=
  match s with
  | a :: r1 =>
      if ws1 a then Some r1 else
      match r1 with
      | b :: r2 =>
          if ws2 a b then Some r2 else
          match r2 with
          | c :: r3 => if ws3 a b c then Some r3 else None
          | [] => None
          end
      | [] => None
      end
  | [] => None
  end.

(** The same from the end of the string ([s] reversed). *)
Definition strip_ws_rev (s : list nat) : option (list nat) :=
  match s with
  | c :: r1 =>
      if ws1 c then Some r1 else
      match r1 with
      | b :: r2 =>
          if ws2 b c then Some r2 else
          match r2 with
          | a :: r3 => if ws3 a b c then Some r3 else None
          | [] => None
          end
      | [] => None
      end
  | [] => None
  end.

Fixpoint strip_all (strip : list nat -> option (list nat)) (fuel : nat)
    (s : list nat) : list nat :=
  match fuel with
  | O => s
  | S fuel' =>
      match strip s with
      | Some r => strip_all strip fuel' r
      | None => s
      end
  end.

Definition bytes (s : string) : list nat :=
  map nat_of_ascii (list_ascii_of_string s).

Definition of_bytes (l : list nat) : string :=
  string_of_list_ascii (map ascii_of_nat l).

Definition trim (s : string) : string :=
  let front := strip_all strip_ws (String.length s) (bytes s) in
  let back := strip_all strip_ws_rev (length front) (rev front) in
  of_bytes (rev back).

End Js.

(** ** upload.js *)

Module Upload.
Import Js.

(** *** The page

    [WebSocket] objects live in a heap ([sockets], in creation order);
    [uploadWebSocket] refers to one of them by position.  Each
    [setInterval] of [pollUploadStatus] is an entry of [intervals], and its
    position is the handle [clearInterval] takes. *)

Inductive ReadyState : Type := CONNECTING | OPEN | CLOSING | CLOSED.

(** The arguments of the [close] call that started a socket's closing
    handshake. *)
Inductive CloseCall : Type :=
| close_no_code
| close_with (code : Z) (reason : string).

Record WebSocket : Type := mkWebSocket {
  ws_task : string;              (* the [taskId] its handlers close over *)
  readyState : ReadyState;
  closing : option CloseCall
}.

Record Interval : Type := mkInterval {
  iv_task : string;              (* the [taskId] the callback closes over *)
  iv_active : bool               (* false once cleared *)
}.

(** What an element's [innerHTML] was given.  [Html source] stands for the
    content after [el.innerHTML = source].  [Reread before more] stands for
    the content after [el.innerHTML += more] on an element that held
    [before]: the getter returns the serialisation of the parsed content,
    which is the source again only for markup that the parser reads back
    unchanged, so the two parts are kept apart. *)
Inductive Markup : Type :=
| Html (source : string)
| Reread (before : Markup) (more : string).

Coercion Html : string >-> Markup.

(** [uploadResult.innerHTML], one constructor per template of the script. *)
Inductive Detail : Type :=
| DetailText (text : string)           (* [System: ..] or [Row n: ..] *)
| DetailUnknown (err : JsVal).         (* [Unknown error: ${JSON.stringify(err)}] *)

Inductive ResultPanel : Type :=
| PanelEmpty
| PanelUploadFailed (message : string) (* [Upload failed: ${error.message}] *)
| PanelSuccess (message : string)
| PanelError (errorMessage : string)
| PanelErrorList (count : nat) (details : list Detail) (more : option nat).

(** The products tab button, when the page has one. *)
Record Tab : Type := mkTab {
  tab_active : bool;
  tab_has_updates : bool;
  tab_title : string
}.

(** What a handler does to the world outside the record, in order.
    [Completed] marks an entry into [handleUploadComplete]. *)
Inductive Effect : Type :=
| Toast (message type : string)
| Fetch (method url : string)
| LoadProducts
| Completed (success : bool) (message : JsVal).

Record State : Type := mkState {
  currentUploadTaskId : option string;
  uploadWebSocket : option nat;
  sockets : list WebSocket;
  intervals : list Interval;
  pending : list nat;            (* one entry per status fetch in flight: its interval *)
  progress_display : string;     (* #upload-progress style.display *)
  progress_fill_width : string;  (* #progress-fill style.width, as last accepted *)
  progress_text : string;        (* #progress-text textContent *)
  progress_details : string;     (* #progress-details textContent *)
  upload_errors : Markup;        (* #upload-errors innerHTML *)
  upload_result : ResultPanel;   (* #upload-result innerHTML *)
  products_tab : option Tab;
  recentUpload : bool;           (* window.appState.recentUpload *)
  log : list Effect
}.

Definition init : State :=
  mkState None None [] [] [] EmptyString EmptyString EmptyString EmptyString
          EmptyString PanelEmpty (Some (mkTab false false EmptyString)) false [].

Definition API_BASE : string := "http://localhost:8000/api".

(** Field updates. *)
Definition set_task (v : option string) (s : State) : State :=
  mkState v (uploadWebSocket s) (sockets s) (intervals s) (pending s)
    (progress_display s)
    (progress_fill_width s) (progress_text s) (progress_details s)
    (upload_errors s) (upload_result s) (products_tab s) (recentUpload s) (log s).

Definition set_socket_ref (v : option nat) (s : State) : State :=
  mkState (currentUploadTaskId s) v (sockets s) (intervals s) (pending s)
    (progress_display s)
    (progress_fill_width s) (progress_text s) (progress_details s)
    (upload_errors s) (upload_result s) (products_tab s) (recentUpload s) (log s).

Definition set_sockets (v : list WebSocket) (s : State) : State :=
  mkState (currentUploadTaskId s) (uploadWebSocket s) v (intervals s)
    (pending s) (progress_display s) (progress_fill_width s) (progress_text s)
    (progress_details s) (upload_errors s) (upload_result s) (products_tab s)
    (recentUpload s) (log s).

Definition set_intervals (v : list Interval) (s : State) : State :=
  mkState (currentUploadTaskId s) (uploadWebSocket s) (sockets s) v
    (pending s) (progress_display s) (progress_fill_width s) (progress_text s)
    (progress_details s) (upload_errors s) (upload_result s) (products_tab s)
    (recentUpload s) (log s).

Definition set_pending (v : list nat) (s : State) : State :=
  mkState (currentUploadTaskId s) (uploadWebSocket s) (sockets s) (intervals s)
    v (progress_display s) (progress_fill_width s) (progress_text s)
    (progress_details s) (upload_errors s) (upload_result s) (products_tab s)
    (recentUpload s) (log s).

Definition set_display (v : string) (s : State) : State :=
  mkState (currentUploadTaskId s) (uploadWebSocket s) (sockets s) (intervals s)
    (pending s) v (progress_fill_width s) (progress_text s) (progress_details s)
    (upload_errors s) (upload_result s) (products_tab s) (recentUpload s) (log s).

Definition set_progress (width text details : string) (s : State) : State :=
  mkState (currentUploadTaskId s) (uploadWebSocket s) (sockets s) (intervals s)
    (pending s) (progress_display s) width text details
    (upload_errors s) (upload_result s) (products_tab s) (recentUpload s) (log s).

Definition set_errors (v : Markup) (s : State) : State :=
  mkState (currentUploadTaskId s) (uploadWebSocket s) (sockets s) (intervals s)
    (pending s) (progress_display s) (progress_fill_width s) (progress_text s)
    (progress_details s) v (upload_result s) (products_tab s) (recentUpload s)
    (log s).

Definition set_result (v : ResultPanel) (s : State) : State :=
  mkState (currentUploadTaskId s) (uploadWebSocket s) (sockets s) (intervals s)
    (pending s) (progress_display s) (progress_fill_width s) (progress_text s)
    (progress_details s) (upload_errors s) v (products_tab s) (recentUpload s)
    (log s).

Definition set_tab (v : option Tab) (s : State) : State :=
  mkState (currentUploadTaskId s) (uploadWebSocket s) (sockets s) (intervals s)
    (pending s) (progress_display s) (progress_fill_width s) (progress_text s)
    (progress_details s) (upload_errors s) (upload_result s) v (recentUpload s)
    (log s).

Definition set_recent (v : bool) (s : State) : State :=
  mkState (currentUploadTaskId s) (uploadWebSocket s) (sockets s) (intervals s)
    (pending s) (progress_display s) (progress_fill_width s) (progress_text s)
    (progress_details s) (upload_errors s) (upload_result s) (products_tab s) v
    (log s).

Definition emit (e : Effect) (s : State) : State :=
  mkState (currentUploadTaskId s) (uploadWebSocket s) (sockets s) (intervals s)
    (pending s) (progress_display s) (progress_fill_width s) (progress_text s)
    (progress_details s) (upload_errors s) (upload_result s) (products_tab s)
    (recentUpload s) (log s ++ [e]).

(** [showToast(message, type)] of the main script. *)
Definition showToast (message type : string) (s : State) : State :=
  emit (Toast message type) s.

(** *** updateProgress

    [style.width] keeps a value only if it is a width: the setter drops a
    negative percentage, [NaN%] and [Infinity%], and the declaration stays
    as it was.  (A percentage in exponent notation is a CSS number too.) *)
Definition width_accepted (progress : float) : bool :=
  PrimFloat.leb 0 progress && PrimFloat.ltb progress infinity.

Definition updateProgress (progress processed total : float) (s : State)
    : State :=
  set_progress (if width_accepted progress
                then number_to_string progress +:+ "%"
                else progress_fill_width s)
               (toFixed 1 progress +:+ "%")
               (number_to_string processed +:+ " / " +:+ number_to_string total
                +:+ " rows processed")
               s.

(** *** displayErrors *)

Definition error_div (text : string) : string :=
  "<div class=" +:+ quot +:+ "error-item" +:+ quot +:+ ">" +:+ text +:+ "</div>".

(** [Row ${err.row}] when the record has a row, [Processing] otherwise. *)
Definition row_text (row : JsVal) : string :=
  if defined row then "Row " +:+ to_string row else "Processing".

(** The callback of [errors.slice(0, 10).map]; [None] when reading
    [err.batch_error] throws. *)
Definition error_item (err : JsVal) : option string :=
  match get err "batch_error", get err "error", get err "row" with
  | Some batch_error, Some error, Some row =>
      if truthy batch_error then
        Some (error_div ("System: " +:+ to_string batch_error))
      else if truthy error then
        Some (error_div (row_text row +:+ ": " +:+ to_string error))
      else match err with
           | JStr text => Some (error_div ("Error: " +:+ text))
           | _ => Some (error_div "Unknown error occurred")
           end
  | _, _, _ => None
  end.

(** [arr.map(f)], which throws as soon as one call of [f] does. *)
Fixpoint map_throwing {A B : Type} (f : A -> option B) (l : list A)
    : option (list B) :=
  match l with
  | [] => Some []
  | x :: r =>
      match f x with
      | Some y =>
          match map_throwing f r with
          | Some ys => Some (y :: ys)
          | None => None
          end
      | None => None
      end
  end.

Definition more_errors (n : nat) : string :=
  error_div ("... and " +:+ pretty n +:+ " more errors").

(** ToBoolean of [currentUploadTaskId]: [null] and the empty string are
    falsy. *)
Definition task_in_flight (s : State) : bool :=
  match currentUploadTaskId s with
  | Some id => negb (String.eqb id EmptyString)
  | None => false
  end.

(** [displayErrors(errors)].  An exception raised inside it (an element that
    is [null], or a truthy non-array whose [slice(..).map] is not a function)
    is raised before [innerHTML] is assigned, and both callers do nothing
    more with it: [onmessage] ends there and [pollUploadStatus] catches it.
    Such a call therefore returns the state as it was, like a call whose
    guard fails. *)
Definition displayErrors (errors : JsVal) (s : State) : State :=
  match errors with
  | JArr l =>
      if task_in_flight s && (0 <? length l)%nat then
        match map_throwing error_item (firstn 10 l) with
        | Some items =>
            let s := set_errors (Html (String.concat EmptyString items)) s in
            if (10 <? length l)%nat
            then set_errors (Reread (upload_errors s)
                               (more_errors (length l - 10))) s
            else s
        | None => s
        end
      else s
  | _ => s
  end.

(** *** WebSocket.close

    The first call on a socket that is not yet closing starts the closing
    handshake with its arguments; a call on a closing or closed socket does
    nothing. *)
Definition close_socket (call : CloseCall) (ws : WebSocket) : WebSocket :=
  match readyState ws with
  | CLOSING | CLOSED => ws
  | CONNECTING | OPEN => mkWebSocket (ws_task ws) CLOSING (Some call)
  end.

Definition ws_close (k : nat) (call : CloseCall) (s : State) : State :=
  match sockets s !! k with
  | Some ws => set_sockets (<[k := close_socket call ws]> (sockets s)) s
  | None => s
  end.

(** *** handleUploadComplete *)

(** One entry of the [errors.slice(0, 5).map] of the failure branch. *)
Definition error_detail (err : JsVal) : option Detail :=
  match get err "batch_error", get err "error", get err "row" with
  | Some batch_error, Some error, Some row =>
      if truthy batch_error then
        Some (DetailText ("System: " +:+ to_string batch_error))
      else if truthy error then
        Some (DetailText (row_text row +:+ ": " +:+ to_string error))
      else Some (DetailUnknown err)
  | _, _, _ => None
  end.

(** The failure branch: the panel and the final [errorMessage].
    [message_json] is what [JSON.parse(message)] evaluates to, [None] when it
    throws; the [catch] shows whatever [errorMessage] holds by then. *)
Definition failure_panel (message : JsVal) (message_json : option JsVal)
    : ResultPanel * string :=
  let errorMessage := to_string (or_else message (JStr "Upload failed")) in
  match message with
  | JStr text =>
      if startsWith "[{" text then
        match message_json with
        | Some (JArr (first :: rest)) =>
            match get first "error" with
            | Some e =>
                let errorMessage' :=
                  "Failed: " +:+ to_string (or_else e (JStr "Unknown error")) in
                match map_throwing error_detail (firstn 5 (first :: rest)) with
                | Some details =>
                    let n := length (first :: rest) in
                    (PanelErrorList n details
                       (if (5 <? n)%nat then Some (n - 5)%nat else None),
                     errorMessage')
                | None => (PanelError errorMessage', errorMessage')
                end
            | None => (PanelError errorMessage, errorMessage)
            end
        | Some _ => (PanelError errorMessage, errorMessage)
        | None => (PanelError errorMessage, errorMessage)
        end
      else (PanelError errorMessage, errorMessage)
  | _ => (PanelError errorMessage, errorMessage)
  end.

(** [handleUploadComplete(success, message)].  The timer that hides the
    progress bar two seconds later and [appState.lastUploadTime] are left
    out. *)
Definition handleUploadComplete (success : bool) (message : JsVal)
    (message_json : option JsVal) (s : State) : State :=
  let s := emit (Completed success message) s in
  let s := match uploadWebSocket s with
           | Some k =>
               set_socket_ref None
                 (ws_close k (close_with 1000 "Upload completed") s)
           | None => s
           end in
  let s := set_errors EmptyString s in
  let s :=
    if success then
      let s := set_result (PanelSuccess (to_string message)) s in
      let s := showToast "Upload completed successfully!" "success" s in
      let s := set_recent true s in
      let s := match products_tab s with
               | Some tab =>
                   if tab_active tab then s
                   else set_tab (Some (mkTab (tab_active tab) true
                          "New products available - click to view")) s
               | None => s
               end in
      emit LoadProducts s
    else
      let '(panel, errorMessage) := failure_panel message message_json in
      let s := set_result panel s in
      showToast ("Upload failed: " +:+ errorMessage) "error" s in
  set_task None s.

(** *** pollUploadStatus *)

(** The body of [response.json()] of the task status endpoint, its three
    counters being numbers.  [errors_json] is what [JSON.parse(task.errors)]
    evaluates to, [None] when it throws. *)
Record TaskStatus : Type := mkTaskStatus {
  status : string;
  progress : float;
  processed_rows : float;
  total_rows : float;
  errors : JsVal;
  errors_json : option JsVal
}.

Inductive PollResponse : Type :=
| PollThrew                      (* [fetch] or [response.json()] rejects *)
| PollNotOk                      (* [!response.ok] *)
| PollOk (task : TaskStatus).

Definition terminal (task : TaskStatus) : bool :=
  String.eqb (status task) "completed" || String.eqb (status task) "failed".

(** [pollUploadStatus(taskId)]: one more interval. *)
Definition pollUploadStatus (taskId : string) (s : State) : State :=
  set_intervals (intervals s ++ [mkInterval taskId true]) s.

Definition clear (iv : Interval) : Interval := mkInterval (iv_task iv) false.

Definition clearInterval (i : nat) (s : State) : State :=
  match intervals s !! i with
  | Some iv => set_intervals (<[i := clear iv]> (intervals s)) s
  | None => s
  end.

(** The callback of the interval is an async function.  Up to its
    [await fetch(..)] it only sends the request. *)
Definition poll_request (taskId : string) (s : State) : State :=
  emit (Fetch "GET" (API_BASE +:+ "/upload/task/" +:+ taskId)) s.

(** The rest of the callback of interval [i], which runs when the fetch
    settles.  Nothing in it asks whether the interval is still set, so the
    answer of a fetch that was in flight when the interval was cleared is
    handled like any other. *)
Definition poll_answer (i : nat) (resp : PollResponse) (s : State) : State :=
  match resp with
  | PollThrew => s
  | PollNotOk => s
  | PollOk task =>
      let s := updateProgress (progress task) (processed_rows task)
                 (total_rows task) s in
      let s := if truthy (errors task) then
                 match errors_json task with
                 | Some decoded => displayErrors decoded s
                 | None => s    (* Ignore parse errors *)
                 end
               else s in
      if terminal task then
        let s := clearInterval i s in
        let s := match uploadWebSocket s with
                 | Some k => ws_close k close_no_code s
                 | None => s
                 end in
        if String.eqb (status task) "completed" then
          handleUploadComplete true
            (JStr ("Successfully processed "
                   +:+ number_to_string (processed_rows task) +:+ " products"))
            None s
        else if truthy (errors task) then
          handleUploadComplete false (errors task) (errors_json task) s
        else
          handleUploadComplete false (JStr "Upload failed") None s
      else s
  end.

(** The callback of interval [i] from its first line to its last, for a
    fetch that settles before anything else happens on the page. *)
Definition poll_tick (i : nat) (taskId : string) (resp : PollResponse)
    (s : State) : State :=
  poll_answer i resp (poll_request taskId s).

(** *** connectWebSocket *)

(** [event.data] as [JSON.parse] decodes it, the three counters of a
    progress frame being numbers. *)
Inductive Frame : Type :=
| Malformed                      (* [JSON.parse(event.data)] throws *)
| FConnected (task_id : JsVal)
| FProgress (progress processed total : float) (errors : JsVal)
| FComplete (success : bool) (message : JsVal) (message_json : option JsVal)
| FPong
| FOther.                        (* any other [type] *)

Definition onmessage (data : Frame) (s : State) : State :=
  match data with
  | FProgress progress processed total errors =>
      let s := updateProgress progress processed total s in
      if truthy errors && length_positive errors
      then displayErrors errors s
      else s
  | FComplete success message message_json =>
      handleUploadComplete success message message_json s
  | Malformed | FConnected _ | FPong | FOther => s
  end.

Definition onerror (taskId : string) (s : State) : State :=
  pollUploadStatus taskId
    (showToast "Connection error - falling back to polling" "warning" s).

Definition onclose (taskId : string) (code : Z) (s : State) : State :=
  if negb (code =? 1000)%Z then pollUploadStatus taskId s else s.

(** [connectWebSocket(taskId)].  The keepalive timer, which only sends
    [ping] on the open socket, is left out. *)
Definition connectWebSocket (taskId : string) (s : State) : State :=
  set_socket_ref (Some (length (sockets s)))
    (set_sockets (sockets s ++ [mkWebSocket taskId CONNECTING None]) s).

(** *** handleFileUpload *)

Inductive UploadResponse : Type :=
| UploadThrew (message : string)   (* [fetch] or [response.json()] rejects *)
| UploadRejected (detail : JsVal)  (* [!response.ok], with [error.detail] *)
| UploadAccepted (task_id : string).

Definition upload_failed (message : string) (s : State) : State :=
  let s := showToast ("Upload failed: " +:+ message) "error" s in
  let s := set_display "none" s in
  set_result (PanelUploadFailed message) s.

Definition handleFileUpload (resp : UploadResponse) (s : State) : State :=
  let s := set_display "block" s in
  let s := set_result PanelEmpty s in
  let s := set_errors EmptyString s in
  let s := updateProgress 0 0 0 s in
  let s := emit (Fetch "POST" (API_BASE +:+ "/upload")) s in
  match resp with
  | UploadThrew message => upload_failed message s
  | UploadRejected detail =>
      upload_failed (to_string (or_else detail (JStr "Upload failed"))) s
  | UploadAccepted task_id =>
      connectWebSocket task_id (set_task (Some task_id) s)
  end.

(** *** The host

    What the browser delivers.  A socket's closing is one task of the event
    loop: the ready state becomes CLOSED, then [error] fires if the
    connection failed, then [close] fires.  A message is delivered only to an
    OPEN socket, and a cleared interval does not fire.

    An interval that fires sends its request ([PollFire]); the fetch settles
    in a later task ([PollAnswer]), and any number of fetches of one interval
    can be in flight by then.  [PollTick] is the two in one: the interval
    fires and its fetch settles before the next event. *)
Inductive Event : Type :=
| Upload (resp : UploadResponse)
| WsOpen (k : nat)
| WsMessage (k : nat) (data : Frame)
| WsClosed (k : nat) (failed : bool) (code : Z)
| PollTick (i : nat) (resp : PollResponse)
| PollFire (i : nat)
| PollAnswer (i : nat) (resp : PollResponse).

Definition set_ready (r : ReadyState) (ws : WebSocket) : WebSocket :=
  mkWebSocket (ws_task ws) r (closing ws).

(** A fetch of interval [i] is in flight. *)
Definition awaited (i : nat) (s : State) : bool :=
  match intervals s !! i with
  | Some _ => existsb (Nat.eqb i) (pending s)
  | None => false
  end.

(** One fetch of interval [i] less in flight. *)
Fixpoint settle (i : nat) (l : list nat) : list nat :=
  match l with
  | [] => []
  | j :: rest => if (i =? j)%nat then rest else j :: settle i rest
  end.

Definition step (s : State) (e : Event) : State :=
  match e with
  | Upload resp => handleFileUpload resp s
  | WsOpen k =>
      match sockets s !! k with
      | Some ws =>
          match readyState ws with
          | CONNECTING => set_sockets (<[k := set_ready OPEN ws]> (sockets s)) s
          | _ => s
          end
      | None => s
      end
  | WsMessage k data =>
      match sockets s !! k with
      | Some ws =>
          match readyState ws with
          | OPEN => onmessage data s
          | _ => s
          end
      | None => s
      end
  | WsClosed k failed code =>
      match sockets s !! k with
      | Some ws =>
          match readyState ws with
          | CLOSED => s
          | _ =>
              let s := set_sockets (<[k := set_ready CLOSED ws]> (sockets s)) s in
              let s := if failed then onerror (ws_task ws) s else s in
              onclose (ws_task ws) code s
          end
      | None => s
      end
  | PollTick i resp =>
      match intervals s !! i with
      | Some iv => if iv_active iv then poll_tick i (iv_task iv) resp s else s
      | None => s
      end
  | PollFire i =>
      match intervals s !! i with
      | Some iv =>
          if iv_active iv
          then set_pending (i :: pending s) (poll_request (iv_task iv) s)
          else s
      | None => s
      end
  | PollAnswer i resp =>
      if awaited i s
      then poll_answer i resp (set_pending (settle i (pending s)) s)
      else s
  end.

Definition run (s : State) (es : list Event) : State := fold_left step es s.

(** Entries into [handleUploadComplete] so far. *)
Definition is_completed (e : Effect) : bool :=
  match e with Completed _ _ => true | _ => false end.

Definition completions (s : State) : nat :=
  length (List.filter is_completed (log s)).

(** *** Vocabulary of the properties *)

(** The three progress fields of the page, and what [updateProgress] writes
    for given values over a bar of a given width. *)
Definition displayed (s : State) : string * string * string :=
  (progress_fill_width s, progress_text s, progress_details s).

Definition rendered (width : string) (v : float * float * float)
    : string * string * string :=
  let '(progress, processed, total) := v in
  (if width_accepted progress then number_to_string progress +:+ "%" else width,
   toFixed 1 progress +:+ "%",
   number_to_string processed +:+ " / " +:+ number_to_string total
   +:+ " rows processed").

(** The values of a progress event that reaches its handler in [s]: a
    [progress] frame on an OPEN socket, a status fetched by a live interval,
    or the status that a fetch in flight brings. *)
Definition progress_carried (s : State) (e : Event)
    : option (float * float * float) :=
  match e with
  | WsMessage k (FProgress progress processed total _) =>
      match sockets s !! k with
      | Some ws =>
          match readyState ws with
          | OPEN => Some (progress, processed, total)
          | _ => None
          end
      | None => None
      end
  | PollTick i (PollOk task) =>
      match intervals s !! i with
      | Some iv =>
          if iv_active iv
          then Some (progress task, processed_rows task, total_rows task)
          else None
      | None => None
      end
  | PollAnswer i (PollOk task) =>
      if awaited i s
      then Some (progress task, processed_rows task, total_rows task)
      else None
  | _ => None
  end.

(** A terminal event that reaches its handler in [s], which then calls
    [handleUploadComplete]: a [complete] frame on an OPEN socket, a terminal
    status fetched by a live interval, or the terminal status that a fetch
    in flight brings. *)
Definition completes (s : State) (e : Event) : bool :=
  match e with
  | WsMessage k (FComplete _ _ _) =>
      match sockets s !! k with
      | Some ws =>
          match readyState ws with
          | OPEN => true
          | _ => false
          end
      | None => false
      end
  | PollTick i (PollOk task) =>
      match intervals s !! i with
      | Some iv => iv_active iv && terminal task
      | None => false
      end
  | PollAnswer i (PollOk task) => awaited i s && terminal task
  | _ => false
  end.

(** The answer of a fetch of interval [i], in one step with the request or
    after it. *)
Definition answers (i : nat) (e : Event) : bool :=
  match e with
  | PollTick j _ | PollAnswer j _ => (i =? j)%nat
  | _ => false
  end.

(** The fetches of interval [i] in flight. *)
Definition in_flight (i : nat) (s : State) : nat :=
  length (List.filter (Nat.eqb i) (pending s)).

(** Along the run [es] from [s], the answers of fetches of interval [i] that
    call [handleUploadComplete]. *)
Fixpoint entries (i : nat) (s : State) (es : list Event) : nat :=
  match es with
  | [] => 0
  | e :: rest =>
      ((if answers i e && completes s e then 1 else 0)
       + entries i (step s e) rest)%nat
  end.

(** A socket that is closing or closed receives no more messages. *)
Definition shut (ws : WebSocket) : bool :=
  match readyState ws with
  | CLOSING | CLOSED => true
  | CONNECTING | OPEN => false
  end.

Definition cleared (iv : Interval) : bool := negb (iv_active iv).

(** [l'] is [l] grown at the end, with every entry that was [stuck] still
    so. *)
Definition grows {A : Type} (stuck : A -> bool) (l l' : list A) : Prop :=
  forall i x, l !! i = Some x ->
    exists x', l' !! i = Some x' /\ (stuck x = true -> stuck x' = true).

(** The state in which the callback reaches the test of the status, for a
    fetch that brought [task]: progress written, errors shown if they
    decode. *)
Definition answer_seen (task : TaskStatus) (s : State) : State :=
  let s := updateProgress (progress task) (processed_rows task)
             (total_rows task) s in
  if truthy (errors task) then
    match errors_json task with
    | Some decoded => displayErrors decoded s
    | None => s
    end
  else s.

(** The same for a tick that sends the request and gets [task] at once. *)
Definition poll_seen (taskId : string) (task : TaskStatus) (s : State) : State :=
  answer_seen task (poll_request taskId s).

(** The state in which a terminal answer for interval [i] calls
    [handleUploadComplete]: interval cleared, [close()] called on the socket
    held in [uploadWebSocket]. *)
Definition poll_stopped (i : nat) (s : State) : State :=
  let s := clearInterval i s in
  match uploadWebSocket s with
  | Some k => ws_close k close_no_code s
  | None => s
  end.

(** Live intervals polling [taskId]. *)
Definition polls (taskId : string) (iv : Interval) : bool :=
  iv_active iv && String.eqb (iv_task iv) taskId.

Definition polling (taskId : string) (s : State) : nat :=
  length (List.filter (polls taskId) (intervals s)).

(** Some socket opened for [taskId] is closed. *)
Definition closed_socket (taskId : string) (s : State) : Prop :=
  exists k ws, sockets s !! k = Some ws /\ ws_task ws = taskId /\
               readyState ws = CLOSED.

(** A closed socket is never written again: [l'] holds every closed socket
    of [l] as it is. *)
Definition keeps_closed (l l' : list WebSocket) : Prop :=
  forall k ws, l !! k = Some ws -> readyState ws = CLOSED -> l' !! k = Some ws.

(** Every interval was started for the task of a socket that is closed. *)
Definition polled_after_close (s : State) : Prop :=
  forall i iv, intervals s !! i = Some iv -> closed_socket (iv_task iv) s.

(** The error message of a submission that yields no task identifier. *)
Definition rejected (resp : UploadResponse) : option string :=
  match resp with
  | UploadThrew message => Some message
  | UploadRejected detail => Some (to_string (or_else detail (JStr "Upload failed")))
  | UploadAccepted _ => None
  end.

(** An error record whose properties can be read: anything but [null] and
    [undefined]. *)
Definition is_record (err : JsVal) : bool :=
  match err with
  | JUndefined | JNull => false
  | _ => true
  end.

(** *** What the error display holds

    The markup of a list of error records as the claims describe it, written
    out independently of [displayErrors]: one line per record for the first
    ten, in the order of the list, and one more line that counts the records
    beyond the tenth. *)
Definition line (text : string) : string :=
  "<div class=" +:+ quot +:+ "error-item" +:+ quot +:+ ">" +:+ text +:+ "</div>".




(** *** Sample runs *)

(** An upload accepted as task [T1] whose socket opens and delivers one
    progress frame. *)
Definition progress_trace : list Event :=
  [Upload (UploadAccepted "T1"); WsOpen 0;
   WsMessage 0 (FProgress 40 200 500 JUndefined)].

(** An upload accepted as task [T1] whose socket closes abnormally without a
    transport error, so that one interval polls the task. *)
Definition polling_trace : list Event :=
  [Upload (UploadAccepted "T1"); WsOpen 0; WsClosed 0 false 1011].

Definition processing (progress processed total : float) : TaskStatus :=
  mkTaskStatus "processing" progress processed total JUndefined None.

Definition completed (rows : float) : TaskStatus :=
  mkTaskStatus "completed" 100 rows rows JUndefined None.

(** An upload accepted as task [T1] whose connection fails: the socket
    closes with [error] and then [close] with code 1006. *)
Definition failed_socket_trace : list Event :=
  [Upload (UploadAccepted "T1"); WsClosed 0 true 1006].

(** The same, after which each of the two intervals fetches the completed
    status of [T1]. *)
Definition double_completion_trace : list Event :=
  failed_socket_trace
  ++ [PollTick 0 (PollOk (completed 500)); PollTick 1 (PollOk (completed 500))].

(** The one interval of [polling_trace] fires twice before the first of its
    two fetches is answered. *)
Definition overlapping_trace : list Event :=
  polling_trace ++ [PollFire 0; PollFire 0].

(** A status still processing whose errors field is a string that is not
    JSON. *)
Definition undecodable : TaskStatus :=
  mkTaskStatus "processing" 40 200 500 (JStr "disk full") None.

(** The same string in a status that is completed, and in one that failed. *)
Definition undecodable_completed : TaskStatus :=
  mkTaskStatus "completed" 100 500 500 (JStr "disk full") None.

Definition undecodable_failed : TaskStatus :=
  mkTaskStatus "failed" 40 200 500 (JStr "disk full") None.

Definition row_error (row : float) (message : string) : JsVal :=
  JObj [("row", JNum row); ("error", JStr message)].

(** Twelve row-level records, for rows 1 to 12. *)
Definition twelve_errors : list JsVal :=
  map (fun row => row_error row "bad sku")
    [1; 2; 3; 4; 5; 6; 7; 8; 9; 10; 11; 12]%float.

End Upload.

(** ** The delete-all confirmation of the products script *)

Module Products.
Import Js.

Inductive Effect : Type :=
| Toast (message type : string)
| Request (method url : string)
| LoadProducts.

Record State : Type := mkState {
  confirm_input : string;        (* deleteAllConfirmInput.value *)
  confirm_disabled : bool;       (* confirmDeleteAllBtn.disabled *)
  confirm_label : string;        (* confirmDeleteAllBtn.textContent *)
  modal_shown : bool;            (* deleteAllModal carries the class [show] *)
  select_all : bool;             (* #select-all checked *)
  currentPage : Z;
  log : list Effect
}.

Definition API_BASE : string := "http://localhost:8000/api".

Definition emit (e : Effect) (s : State) : State :=
  mkState (confirm_input s) (confirm_disabled s) (confirm_label s)
    (modal_shown s) (select_all s) (currentPage s) (log s ++ [e]).

Definition showToast (message type : string) (s : State) : State :=
  emit (Toast message type) s.

Definition set_input (v : string) (s : State) : State :=
  mkState v (confirm_disabled s) (confirm_label s) (modal_shown s)
    (select_all s) (currentPage s) (log s).

Definition set_button (disabled : bool) (label : string) (s : State) : State :=
  mkState (confirm_input s) disabled label (modal_shown s) (select_all s)
    (currentPage s) (log s).

Definition set_modal (shown : bool) (s : State) : State :=
  mkState (confirm_input s) (confirm_disabled s) (confirm_label s) shown
    (select_all s) (currentPage s) (log s).

Definition openDeleteAllModal (s : State) : State :=
  set_modal true (set_button true (confirm_label s) (set_input EmptyString s)).

Definition closeDeleteAllModal (s : State) : State := set_modal false s.

(** [onDeleteAllInput(e)], with [e.target] the confirmation input. *)
Definition onDeleteAllInput (s : State) : State :=
  let v := trim (confirm_input s) in
  set_button (negb (String.eqb v "DELETE")) (confirm_label s) s.

Inductive DeleteResponse : Type :=
| DeleteThrew (message : string)   (* [fetch] or the [json()] of an ok response rejects *)
| DeleteNotOk (detail : JsVal)     (* [!response.ok]; [undefined] without a JSON body *)
| DeleteOk (deleted_count : JsVal).

Definition delete_failed (message : string) (s : State) : State :=
  showToast ("Delete all failed: " +:+ message) "error" s.

(** [performDeleteAll()], run as one step. *)
Definition performDeleteAll (resp : DeleteResponse) (s : State) : State :=
  if negb (String.eqb (trim (confirm_input s)) "DELETE") then s else
  let s := set_button true "Deleting..." s in
  let s := emit (Request "DELETE" (API_BASE +:+ "/products/delete-all")) s in
  let s :=
    match resp with
    | DeleteThrew message => delete_failed message s
    | DeleteNotOk detail =>
        delete_failed (to_string (or_else detail (JStr "Delete all failed"))) s
    | DeleteOk deleted_count =>
        let s := showToast ("Deleted " +:+ to_string deleted_count
                            +:+ " products.") "success" s in
        let s := mkState (confirm_input s) (confirm_disabled s)
                   (confirm_label s) (modal_shown s) false 1 (log s) in
        closeDeleteAllModal (emit LoadProducts s)
    end in
  set_button false "Delete All" s.

(** What the user does: opening and closing the modal, typing (the [input]
    event fires with the new value), and clicking the confirm button, which
    the browser ignores while the button is disabled. *)
Inductive Event : Type :=
| OpenModal
| CloseModal
| Typed (value : string)
| Confirm (resp : DeleteResponse).

Definition step (s : State) (e : Event) : State :=
  match e with
  | OpenModal => openDeleteAllModal s
  | CloseModal => closeDeleteAllModal s
  | Typed value => onDeleteAllInput (set_input value s)
  | Confirm resp => if confirm_disabled s then s else performDeleteAll resp s
  end.

Definition run (s : State) (es : list Event) : State := fold_left step es s.

Definition is_delete_all (e : Effect) : bool :=
  match e with
  | Request method url =>
      String.eqb method "DELETE"
      && String.eqb url (API_BASE +:+ "/products/delete-all")
  | _ => false
  end.

(** Delete-all requests sent so far. *)
Definition delete_requests (s : State) : nat :=
  length (List.filter is_delete_all (log s)).

End Products.

(** ** The rest of the upload page

    The drop zone and the file chooser in front of [handleFileUpload], the
    keepalive timer of [connectWebSocket], and the tab buttons of the main
    script as far as they touch what the upload script writes. *)

Module Page.
Import Js Upload.

(** [s.endsWith(suffix)]: some tail of [s] is [suffix]. *)
Fixpoint endsWith (suffix s : string) : bool :=
  String.eqb s suffix
  || match s with
     | String _ rest => endsWith suffix rest
     | EmptyString => false
     end.

(** The [drop] listener, with [file] the name of [e.dataTransfer.files[0]]
    if there is one.  The [dragover] class of the drop zone is left out. *)
Definition onDrop (file : option string) (resp : UploadResponse) (s : State)
    : State :=
  match file with
  | Some name =>
      if endsWith ".csv" name
      then handleFileUpload resp (set_result PanelEmpty s)
      else showToast "Please upload a CSV file" "error" s
  | None => showToast "Please upload a CSV file" "error" s
  end.

(** The [change] listener of the file input. *)
Definition onChange (file : option string) (resp : UploadResponse) (s : State)
    : State :=
  match file with
  | Some _ => handleFileUpload resp (set_result PanelEmpty s)
  | None => s
  end.

(** The click listener of a tab button, on the part of the page the upload
    script shares with it: the products button, [appState.recentUpload] and
    the calls of [loadProducts].  Every button loses [active], the clicked
    one gains it; opening the products tab reloads the products and takes
    the update mark away.  Without a products button no click changes any
    of this. *)
Definition clickTab (targetTab : string) (s : State) : State :=
  match products_tab s with
  | Some tab =>
      if String.eqb targetTab "products" then
        let s := emit LoadProducts s in
        let s := set_recent false s in
        set_tab (Some (mkTab true false EmptyString)) s
      else
        set_tab (Some (mkTab false (tab_has_updates tab) (tab_title tab))) s
  | None => s
  end.

Definition is_load (e : Effect) : bool :=
  match e with LoadProducts => true | _ => false end.

(** Calls of [loadProducts] so far. *)
Definition loads (s : State) : nat := length (List.filter is_load (log s)).

Definition is_post (e : Effect) : bool :=
  match e with
  | Fetch method url =>
      String.eqb method "POST" && String.eqb url (API_BASE +:+ "/upload")
  | _ => false
  end.

(** Upload requests sent so far. *)
Definition posts (s : State) : nat := length (List.filter is_post (log s)).

(** An event that is not the acceptance of a new upload. *)
Definition starts_no_upload (e : Event) : bool :=
  match e with
  | Upload (UploadAccepted _) => false
  | _ => true
  end.

(** Nothing is in flight: no current task, no socket held, no error on
    display. *)
Definition idle (s : State) : Prop :=
  currentUploadTaskId s = None /\
  uploadWebSocket s = None /\
  upload_errors s = EmptyString.

(** *** Keepalive

    Each call of [connectWebSocket] ends by starting a timer.  Its callback
    reads the variable [uploadWebSocket], not the socket the call created:
    it sends [ping] on the socket held there if that one is OPEN, and clears
    itself otherwise. *)
Record Browser : Type := mkBrowser {
  page : State;
  pings : list bool;             (* the timers in creation order; false once cleared *)
  sent : list nat                (* the sockets that were sent [ping], in order *)
}.

Definition start : Browser := mkBrowser init [] [].

Inductive Tick : Type :=
| PageEvent (e : Event)
| PingTick (j : nat).

(** The socket a ping would go to. *)
Definition open_socket (s : State) : option nat :=
  match uploadWebSocket s with
  | Some k =>
      match sockets s !! k with
      | Some ws =>
          match readyState ws with
          | OPEN => Some k
          | _ => None
          end
      | None => None
      end
  | None => None
  end.

Definition ping_tick (j : nat) (b : Browser) : Browser :=
  match open_socket (page b) with
  | Some k => mkBrowser (page b) (pings b) (sent b ++ [k])
  | None => mkBrowser (page b) (<[j := false]> (pings b)) (sent b)
  end.

Definition tick (b : Browser) (t : Tick) : Browser :=
  match t with
  | PageEvent e =>
      mkBrowser (step (page b) e)
        (match e with
         | Upload (UploadAccepted _) => pings b ++ [true]
         | _ => pings b
         end)
        (sent b)
  | PingTick j =>
      match pings b !! j with
      | Some true => ping_tick j b
      | _ => b
      end
  end.

Definition play (b : Browser) (ts : list Tick) : Browser := fold_left tick ts b.

Definition starts_no_upload_tick (t : Tick) : bool :=
  match t with
  | PageEvent e => starts_no_upload e
  | PingTick _ => true
  end.

(** A fetch of the status that brings no status: it rejects, or the
    response is not ok. *)
Definition brings_no_status (resp : PollResponse) : bool :=
  match resp with
  | PollOk _ => false
  | PollThrew | PollNotOk => true
  end.

(** A frame other than [complete]. *)
Definition not_complete (data : Frame) : bool :=
  match data with
  | FComplete _ _ _ => false
  | _ => true
  end.

(** An event that reports on a task without ending it: a frame other than
    [complete], a request for the status, or an answer that brings no
    terminal status. *)
Definition interim (e : Event) : bool :=
  match e with
  | WsMessage _ data => not_complete data
  | PollTick _ (PollOk task) | PollAnswer _ (PollOk task) => negb (terminal task)
  | PollTick _ _ | PollAnswer _ _ | PollFire _ => true
  | _ => false
  end.

(** An interim event of the polling of interval [i]. *)
Definition interim_poll (i : nat) (e : Event) : bool :=
  interim e
  && match e with
     | PollTick j _ | PollAnswer j _ | PollFire j => (i =? j)%nat
     | _ => false
     end.

(** One upload from the submission to the close of its socket, with the
    frames the socket delivers in between. *)
Definition streamed (taskId : string) (frames : list Frame) (failed : bool)
    (code : Z) : list Event :=
  [Upload (UploadAccepted taskId); WsOpen 0]
  ++ map (WsMessage 0) frames
  ++ [WsClosed 0 failed code].

(** *** Sample inputs *)

(** A status still processing that carries one row error, as a JSON text
    and decoded. *)
Definition with_row_error : TaskStatus :=
  mkTaskStatus "processing" 60 300 500
    (JStr "[{..}]") (Some (JArr [row_error 7 "bad sku"])).


(** An upload accepted as [T1] whose socket opens: one live timer. *)
Definition connected : Browser :=
  play start [PageEvent (Upload (UploadAccepted "T1")); PageEvent (WsOpen 0)].

End Page.

(** ** The products script: listing, paging, filters, selection *)

Module Catalog.
Import Js.

Record Product : Type := mkProduct {
  id : Z;
  sku : string;
  name : string;
  description : JsVal;
  active : bool
}.

(** A row of [#products-tbody]: the product it was rendered from and the
    state of its checkbox. *)
Record Row : Type := mkRow {
  product : Product;
  checked : bool
}.

(** The object [filters]; a key that is absent is [None]. *)
Record Filters : Type := mkFilters {
  f_sku : option string;
  f_name : option string;
  f_description : option string;
  f_active : option bool
}.

Definition no_filters : Filters := mkFilters None None None None.

Inductive Effect : Type :=
| Toast (message type : string)
| Get (url : string) (query : list (string * string))
| PostBulkDelete (product_ids : list Z)
| Delete (url : string)
| LogError.                      (* [console.error] *)

Record State : Type := mkState {
  currentPage : Z;
  pageSize : Z;
  totalPages : Z;
  filters : Filters;
  filter_sku : string;           (* #filter-sku value *)
  filter_name : string;
  filter_description : string;
  filter_active : string;        (* #filter-active value *)
  rows : list Row;
  select_all : bool;             (* #select-all checked *)
  bulk_display : string;         (* #bulk-actions style.display *)
  selected_count : string;       (* #selected-count textContent *)
  page_info : string;            (* #page-info textContent *)
  prev_disabled : bool;
  next_disabled : bool;
  log : list Effect
}.

Definition init : State :=
  mkState 1 20 1 no_filters EmptyString EmptyString EmptyString EmptyString
          [] false EmptyString EmptyString EmptyString false false [].

Definition API_BASE : string := "http://localhost:8000/api".

Definition emit (e : Effect) (s : State) : State :=
  mkState (currentPage s) (pageSize s) (totalPages s) (filters s)
    (filter_sku s) (filter_name s) (filter_description s) (filter_active s)
    (rows s) (select_all s) (bulk_display s) (selected_count s) (page_info s)
    (prev_disabled s) (next_disabled s) (log s ++ [e]).

Definition showToast (message type : string) (s : State) : State :=
  emit (Toast message type) s.

Definition set_paging (page size total : Z) (s : State) : State :=
  mkState page size total (filters s)
    (filter_sku s) (filter_name s) (filter_description s) (filter_active s)
    (rows s) (select_all s) (bulk_display s) (selected_count s) (page_info s)
    (prev_disabled s) (next_disabled s) (log s).

Definition set_filters (f : Filters) (s : State) : State :=
  mkState (currentPage s) (pageSize s) (totalPages s) f
    (filter_sku s) (filter_name s) (filter_description s) (filter_active s)
    (rows s) (select_all s) (bulk_display s) (selected_count s) (page_info s)
    (prev_disabled s) (next_disabled s) (log s).

Definition set_inputs (i_sku i_name i_description i_active : string)
    (s : State) : State :=
  mkState (currentPage s) (pageSize s) (totalPages s) (filters s)
    i_sku i_name i_description i_active
    (rows s) (select_all s) (bulk_display s) (selected_count s) (page_info s)
    (prev_disabled s) (next_disabled s) (log s).

Definition set_rows (r : list Row) (s : State) : State :=
  mkState (currentPage s) (pageSize s) (totalPages s) (filters s)
    (filter_sku s) (filter_name s) (filter_description s) (filter_active s)
    r (select_all s) (bulk_display s) (selected_count s) (page_info s)
    (prev_disabled s) (next_disabled s) (log s).

Definition set_select_all (b : bool) (s : State) : State :=
  mkState (currentPage s) (pageSize s) (totalPages s) (filters s)
    (filter_sku s) (filter_name s) (filter_description s) (filter_active s)
    (rows s) b (bulk_display s) (selected_count s) (page_info s)
    (prev_disabled s) (next_disabled s) (log s).

Definition set_bulk (display count : string) (s : State) : State :=
  mkState (currentPage s) (pageSize s) (totalPages s) (filters s)
    (filter_sku s) (filter_name s) (filter_description s) (filter_active s)
    (rows s) (select_all s) display count (page_info s)
    (prev_disabled s) (next_disabled s) (log s).

Definition set_pagination (info : string) (prev next : bool) (s : State)
    : State :=
  mkState (currentPage s) (pageSize s) (totalPages s) (filters s)
    (filter_sku s) (filter_name s) (filter_description s) (filter_active s)
    (rows s) (select_all s) (bulk_display s) (selected_count s) info
    prev next (log s).

(** *** loadProducts *)

Definition entry (key : string) (value : option string)
    : list (string * string) :=
  match value with
  | Some v => [(key, v)]
  | None => []
  end.

(** The entries of [{page: currentPage, page_size: pageSize, ...filters}] as
    [URLSearchParams] holds them, before encoding. *)
Definition query (s : State) : list (string * string) :=
  [("page", pretty (currentPage s)); ("page_size", pretty (pageSize s))]
  ++ entry "sku" (f_sku (filters s))
  ++ entry "name" (f_name (filters s))
  ++ entry "description" (f_description (filters s))
  ++ entry "active"
       (match f_active (filters s) with
        | Some true => Some "true"
        | Some false => Some "false"
        | None => None
        end).

(** [loadProducts()] up to its [fetch]; the answer arrives as a separate
    event. *)
Definition loadProducts (s : State) : State :=
  emit (Get (API_BASE +:+ "/products") (query s)) s.

(** [updateBulkActions()].  With nothing selected the bar is hidden and the
    count keeps its text. *)
Definition updateBulkActions (s : State) : State :=
  let n := length (List.filter checked (rows s)) in
  if (0 <? n)%nat
  then set_bulk "flex" (pretty n +:+ " selected") s
  else set_bulk "none" (selected_count s) s.

(** [displayProducts(products)]: fresh rows, none checked. *)
Definition displayProducts (products : list Product) (s : State) : State :=
  updateBulkActions (set_rows (map (fun p => mkRow p false) products) s).

Definition updatePagination (page total_pages total : Z) (s : State) : State :=
  set_pagination
    ("Page " +:+ pretty page +:+ " of " +:+ pretty total_pages
     +:+ " (" +:+ pretty total +:+ " total)")
    (page <=? 1)%Z (total_pages <=? page)%Z s.

Record Listing : Type := mkListing {
  items : list Product;
  page : Z;
  total_pages : Z;
  total : Z
}.

Inductive LoadResponse : Type :=
| LoadThrew (message : string)   (* [fetch] or [response.json()] rejects *)
| LoadNotOk
| LoadOk (data : Listing).

(** The rest of [loadProducts()], once the answer is there. *)
Definition onProductsLoaded (resp : LoadResponse) (s : State) : State :=
  match resp with
  | LoadThrew message =>
      showToast ("Failed to load products: " +:+ message) "error" s
  | LoadNotOk =>
      showToast "Failed to load products: Failed to load products" "error" s
  | LoadOk data =>
      let s := set_paging (currentPage s) (pageSize s) (total_pages data) s in
      let s := displayProducts (items data) s in
      updatePagination (page data) (total_pages data) (total data) s
  end.

(** *** Paging and filters *)

Definition changePage (delta : Z) (s : State) : State :=
  let newPage := (currentPage s + delta)%Z in
  if (1 <=? newPage)%Z && (newPage <=? totalPages s)%Z
  then loadProducts (set_paging newPage (pageSize s) (totalPages s) s)
  else s.

(** The [change] listener of [#page-size], with the chosen size. *)
Definition onPageSize (size : Z) (s : State) : State :=
  loadProducts (set_paging 1 size (totalPages s) s).

(** [if (v) filters.key = v], for a trimmed text. *)
Definition text_filter (v : string) : option string :=
  if String.eqb v EmptyString then None else Some v.

Definition applyFilters (s : State) : State :=
  let f :=
    mkFilters (text_filter (trim (filter_sku s)))
              (text_filter (trim (filter_name s)))
              (text_filter (trim (filter_description s)))
              (if String.eqb (filter_active s) EmptyString then None
               else Some (String.eqb (filter_active s) "true")) in
  loadProducts
    (set_paging 1 (pageSize s) (totalPages s) (set_filters f s)).

Definition clearFilters (s : State) : State :=
  let s := set_inputs EmptyString EmptyString EmptyString EmptyString s in
  loadProducts
    (set_paging 1 (pageSize s) (totalPages s) (set_filters no_filters s)).

(** *** Selection and deletion *)

Definition check_all (b : bool) (r : list Row) : list Row :=
  map (fun row => mkRow (product row) b) r.

(** [toggleSelectAll(e)], with [e.target.checked] the new state of
    [#select-all]. *)
Definition toggleSelectAll (b : bool) (s : State) : State :=
  updateBulkActions (set_rows (check_all b (rows s)) (set_select_all b s)).

(** The user ticks or unticks the checkbox of row [i]; its [change]
    listener is [updateBulkActions]. *)
Definition toggleRow (i : nat) (s : State) : State :=
  match rows s !! i with
  | Some row =>
      updateBulkActions
        (set_rows (<[i := mkRow (product row) (negb (checked row))]> (rows s)) s)
  | None => s
  end.

(** The checked ids, as [handleBulkDelete] collects them. *)
Definition selected (s : State) : list Z :=
  map (fun row => id (product row)) (List.filter checked (rows s)).

Record BulkResult : Type := mkBulkResult {
  success_count : Z;
  failure_count : Z;
  errors : list JsVal
}.

Inductive BulkResponse : Type :=
| BulkThrew (message : string)
| BulkNotOk (detail : JsVal)
| BulkOk (result : BulkResult).

(** [handleBulkDelete()], run as one step; [confirmed] is what [confirm]
    returns. *)
Definition handleBulkDelete (confirmed : bool) (resp : BulkResponse)
    (s : State) : State :=
  match selected s with
  | [] => s
  | _ :: _ =>
      if negb confirmed then s else
      let s := emit (PostBulkDelete (selected s)) s in
      match resp with
      | BulkThrew message =>
          showToast ("Bulk delete failed: " +:+ message) "error" s
      | BulkNotOk detail =>
          showToast ("Bulk delete failed: "
                     +:+ to_string (or_else detail (JStr "Bulk delete failed")))
            "error" s
      | BulkOk result =>
          let message := "Successfully deleted "
                         +:+ pretty (success_count result) +:+ " products" in
          let failed := (0 <? failure_count result)%Z in
          let message :=
            if failed
            then message +:+ ". " +:+ pretty (failure_count result) +:+ " failed."
            else message in
          let s := if failed && (0 <? length (errors result))%nat
                   then emit LogError s else s in
          let s := showToast message (if failed then "error" else "success") s in
          loadProducts (set_select_all false s)
      end
  end.

Inductive DeleteResponse : Type :=
| DeleteThrew (message : string)
| DeleteNotOk
| DeleteOk.

(** [deleteProduct(id)], run as one step. *)
Definition deleteProduct (product_id : Z) (confirmed : bool)
    (resp : DeleteResponse) (s : State) : State :=
  if negb confirmed then s else
  let s := emit (Delete (API_BASE +:+ "/products/" +:+ pretty product_id)) s in
  match resp with
  | DeleteThrew message => showToast ("Failed to delete: " +:+ message) "error" s
  | DeleteNotOk =>
      showToast "Failed to delete: Failed to delete product" "error" s
  | DeleteOk =>
      showToast "Product deleted successfully!" "success" (loadProducts s)
  end.

(** *** What the user and the server do *)

Inductive Event : Type :=
| Loaded (resp : LoadResponse)
| ChangePage (delta : Z)
| PageSize (size : Z)
| TypeFilters (i_sku i_name i_description i_active : string)
| ApplyFilters
| ClearFilters
| ToggleAll (b : bool)
| ToggleRow (i : nat)
| BulkDelete (confirmed : bool) (resp : BulkResponse)
| DeleteProduct (product_id : Z) (confirmed : bool) (resp : DeleteResponse).

Definition step (s : State) (e : Event) : State :=
  match e with
  | Loaded resp => onProductsLoaded resp s
  | ChangePage delta => changePage delta s
  | PageSize size => onPageSize size s
  | TypeFilters a b c d => set_inputs a b c d s
  | ApplyFilters => applyFilters s
  | ClearFilters => clearFilters s
  | ToggleAll b => toggleSelectAll b s
  | ToggleRow i => toggleRow i s
  | BulkDelete confirmed resp => handleBulkDelete confirmed resp s
  | DeleteProduct product_id confirmed resp =>
      deleteProduct product_id confirmed resp s
  end.

Definition run (s : State) (es : list Event) : State := fold_left step es s.

(** A listing request asks for a page from 1 up. *)
Definition asks_from_one (e : Effect) : Prop :=
  match e with
  | Get _ q => exists p, (1 <= p)%Z /\ q !! 0%nat = Some ("page", pretty p)
  | _ => True
  end.

Definition is_bulk_delete (e : Effect) : bool :=
  match e with PostBulkDelete _ => true | _ => false end.

(** *** Sample inputs *)

Definition widget (n : Z) : Product :=
  mkProduct n ("SKU-" +:+ pretty n) "Widget" JNull true.

(** A page of three products, the second one ticked. *)
Definition three_rows : State :=
  toggleRow 1
    (onProductsLoaded (LoadOk (mkListing [widget 11; widget 12; widget 13] 1 4 70))
       init).

End Catalog.

(** ** The webhooks script: the edit form *)

Module Webhooks.
Import Js.

Record Webhook : Type := mkWebhook {
  id : float;
  url : string;
  event_types : list string;
  enabled : bool
}.

(** The body of a create or update request, before [JSON.stringify]. *)
Record WebhookData : Type := mkWebhookData {
  d_url : string;
  d_event_types : list string;
  d_enabled : bool
}.

Inductive Effect : Type :=
| Toast (message type : string)
| Send (method url : string) (body : WebhookData)
| LoadWebhooks.

(** A checkbox named [event-type]: its [value] attribute, if the markup
    gives it one, and whether it is checked. *)
Record Box : Type := mkBox {
  box_value : option string;
  box_checked : bool
}.

(** The form of [#webhook-modal].  The markup is not part of the sources;
    [event_boxes] are the checkboxes named [event-type] that it holds, in
    document order, and the two value fields are taken to be controls that
    hold the text assigned to them as it is (an input of type [url] would
    strip line breaks and the white space at both ends). *)
Record Form : Type := mkForm {
  webhook_id : string;           (* #webhook-id value *)
  webhook_url : string;          (* #webhook-url value *)
  webhook_enabled : bool;        (* #webhook-enabled checked *)
  event_boxes : list Box;
  modal_title : string;
  modal_shown : bool;
  log : list Effect
}.

Definition API_BASE : string := "http://localhost:8000/api".

Definition emit (e : Effect) (f : Form) : Form :=
  mkForm (webhook_id f) (webhook_url f) (webhook_enabled f) (event_boxes f)
    (modal_title f) (modal_shown f) (log f ++ [e]).

Definition showToast (message type : string) (f : Form) : Form :=
  emit (Toast message type) f.

(** [cb.value]: the attribute, and [on] for a checkbox without one. *)
Definition value_of (box : Box) : string :=
  match box_value box with
  | Some value => value
  | None => "on"
  end.

(** The selector [input[name="event-type"][value="${type}"]] is the test
    for the attribute value [type] as long as [type] holds none of the
    characters that end or escape a CSS string or that the CSS input stream
    replaces: U+0022, the backslash, LF, FF, CR and NUL. *)
Definition plain_char (c : ascii) : bool :=
  let n := nat_of_ascii c in
  negb ((n =? 34) || (n =? 92) || (n =? 10) || (n =? 12) || (n =? 13)
        || (n =? 0))%nat.

Fixpoint plain (type : string) : bool :=
  match type with
  | EmptyString => true
  | String c rest => plain_char c && plain rest
  end.

(** The attribute selector for [type], which compares the [value] attribute
    as it is written. *)
Definition has_value (type : string) (box : Box) : bool :=
  match box_value box with
  | Some value => String.eqb value type
  | None => false
  end.

(** [document.querySelector] for the checkbox of a plain type: the first
    one whose attribute has that value is checked, if there is one. *)
Fixpoint check_first (type : string) (boxes : list Box) : list Box :=
  match boxes with
  | [] => []
  | box :: rest =>
      if has_value type box then mkBox (box_value box) true :: rest
      else box :: check_first type rest
  end.

Definition uncheck_all (boxes : list Box) : list Box :=
  map (fun box => mkBox (box_value box) false) boxes.

(** [openWebhookModal(webhook)] for a webhook to edit, whose [id] is a
    number.  Every field that [form.reset()] restores is written again
    afterwards, so the call does not depend on what the markup gives as
    defaults; the call without a webhook leaves the fields to those defaults
    and is not modelled.

    The result is [None] when an event type is not plain.  The text of the
    selector is then no longer the test for that value, and what
    [querySelector] makes of it (a SyntaxError, which ends the call before
    the modal is shown, or a match of something else) depends on the
    selector grammar, which is not modelled. *)
Definition openWebhookModal (webhook : Webhook) (f : Form) : option Form :=
  if forallb plain (event_types webhook) then
    Some (mkForm (number_to_string (id webhook)) (url webhook) (enabled webhook)
            (fold_left (fun boxes type => check_first type boxes)
               (event_types webhook) (uncheck_all (event_boxes f)))
            "Edit Webhook" true (log f))
  else None.

Definition closeWebhookModal (f : Form) : Form :=
  mkForm (webhook_id f) (webhook_url f) (webhook_enabled f) (event_boxes f)
    (modal_title f) false (log f).

(** The values of the checked boxes, in document order. *)
Definition eventTypes (f : Form) : list string :=
  map value_of (List.filter box_checked (event_boxes f)).

Inductive SubmitResponse : Type :=
| SubmitThrew (message : string)
| SubmitNotOk (detail : JsVal)
| SubmitOk.

(** [handleWebhookSubmit(e)], run as one step. *)
Definition handleWebhookSubmit (resp : SubmitResponse) (f : Form) : Form :=
  match eventTypes f with
  | [] => showToast "Please select at least one event type" "error" f
  | _ :: _ =>
      let editing := negb (String.eqb (webhook_id f) EmptyString) in
      let target := if editing
                    then API_BASE +:+ "/webhooks/" +:+ webhook_id f
                    else API_BASE +:+ "/webhooks" in
      let f := emit (Send (if editing then "PUT" else "POST") target
                       (mkWebhookData (webhook_url f) (eventTypes f)
                          (webhook_enabled f))) f in
      match resp with
      | SubmitThrew message => showToast ("Failed: " +:+ message) "error" f
      | SubmitNotOk detail =>
          showToast ("Failed: "
                     +:+ to_string (or_else detail (JStr "Operation failed")))
            "error" f
      | SubmitOk =>
          let f := emit LoadWebhooks (closeWebhookModal f) in
          showToast ("Webhook " +:+ (if editing then "updated" else "created")
                     +:+ " successfully!") "success" f
      end
  end.

(** The requests sent so far. *)
Definition is_send (e : Effect) : bool :=
  match e with Send _ _ _ => true | _ => false end.

Definition sends (f : Form) : list Effect := List.filter is_send (log f).

(** Membership in a list of strings. *)
Definition among (types : list string) (value : string) : bool :=
  existsb (String.eqb value) types.

(** The [value] attributes of the checkboxes, in document order. *)
Definition attributes (f : Form) : list string :=
  omap box_value (event_boxes f).

(** *** Sample inputs *)

(** A form with three event types, left over from an earlier edit. *)
Definition sample_form : Form :=
  mkForm "3" "https://old.example/hook" false
    [mkBox (Some "product.created") false; mkBox (Some "product.updated") true;
     mkBox (Some "product.deleted") false]
    "Edit Webhook" false [].

(** A webhook with an event type the form has no checkbox for. *)
Definition sample_webhook : Webhook :=
  mkWebhook 7 "https://example.test/hook"
    ["product.deleted"; "import.completed"; "product.created"] true.

End Webhooks.

(** ** Vocabulary for runs of the delete-all modal *)

Module Confirmation.
Import Js Products.

(** The user types a text whose trimmed form is the word [DELETE]. *)
Definition types_delete (e : Event) : bool :=
  match e with
  | Typed value => String.eqb (trim value) "DELETE"
  | _ => false
  end.

Definition never_types_delete (es : list Event) : bool :=
  forallb (fun e => negb (types_delete e)) es.

End Confirmation.

(** ** Properties of upload.js *)

Module UploadFacts.
Import Js Upload.

(** *** What each operation leaves alone *)

Ltac fields :=
  cbn [currentUploadTaskId uploadWebSocket sockets intervals pending
       progress_display progress_fill_width progress_text progress_details
       upload_errors upload_result products_tab recentUpload log displayed
       showToast emit set_task set_socket_ref set_sockets set_intervals
       set_pending set_display set_progress set_errors set_result set_tab
       set_recent updateProgress pollUploadStatus connectWebSocket
       upload_failed poll_request] in *.

(** Case analysis on whatever the goal branches on. *)
Ltac branches :=
  repeat match goal with
         | |- context [match ?x with _ => _ end] => destruct x eqn:?; fields
         end.

Ltac frame :=
  intros;
  unfold handleUploadComplete, ws_close, clearInterval, displayErrors;
  fields; branches; repeat split; reflexivity.

Lemma displayErrors_frame errors s :
  currentUploadTaskId (displayErrors errors s) = currentUploadTaskId s /\
  uploadWebSocket (displayErrors errors s) = uploadWebSocket s /\
  sockets (displayErrors errors s) = sockets s /\
  intervals (displayErrors errors s) = intervals s /\
  displayed (displayErrors errors s) = displayed s /\
  log (displayErrors errors s) = log s.
Proof. frame. Qed.

Lemma ws_close_frame k call s :
  currentUploadTaskId (ws_close k call s) = currentUploadTaskId s /\
  uploadWebSocket (ws_close k call s) = uploadWebSocket s /\
  intervals (ws_close k call s) = intervals s /\
  displayed (ws_close k call s) = displayed s /\
  upload_errors (ws_close k call s) = upload_errors s /\
  log (ws_close k call s) = log s.
Proof. frame. Qed.

Lemma log_ws_close k call s : log (ws_close k call s) = log s.
Proof. apply ws_close_frame. Qed.

Lemma clearInterval_frame i s :
  currentUploadTaskId (clearInterval i s) = currentUploadTaskId s /\
  uploadWebSocket (clearInterval i s) = uploadWebSocket s /\
  sockets (clearInterval i s) = sockets s /\
  displayed (clearInterval i s) = displayed s /\
  upload_errors (clearInterval i s) = upload_errors s /\
  log (clearInterval i s) = log s.
Proof. frame. Qed.

Lemma handleUploadComplete_frame success message message_json s :
  intervals (handleUploadComplete success message message_json s) = intervals s /\
  displayed (handleUploadComplete success message message_json s) = displayed s /\
  upload_errors (handleUploadComplete success message message_json s) = EmptyString /\
  currentUploadTaskId (handleUploadComplete success message message_json s) = None.
Proof. frame. Qed.

(** *** Progress display *)

Lemma displayed_updateProgress progress processed total s :
  displayed (updateProgress progress processed total s)
  = rendered (progress_fill_width s) (progress, processed, total).
Proof. reflexivity. Qed.

Lemma displayed_onmessage_progress progress processed total errors s :
  displayed (onmessage (FProgress progress processed total errors) s)
  = rendered (progress_fill_width s) (progress, processed, total).
Proof.
  unfold onmessage.
  destruct (truthy errors && length_positive errors).
  - destruct (displayErrors_frame errors
                (updateProgress progress processed total s))
      as (_ & _ & _ & _ & -> & _).
    apply displayed_updateProgress.
  - apply displayed_updateProgress.
Qed.

Lemma displayed_answer_seen task s :
  displayed (answer_seen task s)
  = rendered (progress_fill_width s)
      (progress task, processed_rows task, total_rows task).
Proof.
  unfold answer_seen.
  destruct (truthy (errors task)); [destruct (errors_json task) as [j|]|];
    try apply displayed_updateProgress.
  match goal with |- context [displayErrors j ?x] =>
    destruct (displayErrors_frame j x) as (_ & _ & _ & _ & -> & _) end.
  apply displayed_updateProgress.
Qed.

Lemma poll_answer_continues i task s :
  terminal task = false ->
  poll_answer i (PollOk task) s = answer_seen task s.
Proof. intros Ht. unfold poll_answer, answer_seen. rewrite Ht. reflexivity. Qed.

Lemma poll_answer_terminal i task s :
  terminal task = true ->
  exists success message message_json,
    poll_answer i (PollOk task) s
    = handleUploadComplete success message message_json
        (poll_stopped i (answer_seen task s)).
Proof.
  intros Ht. unfold poll_answer, poll_stopped, answer_seen. rewrite Ht.
  repeat case_match; eexists _, _, _; reflexivity.
Qed.

Lemma displayed_poll_stopped i s : displayed (poll_stopped i s) = displayed s.
Proof.
  unfold poll_stopped.
  destruct (clearInterval_frame i s) as (_ & _ & _ & Hd & _).
  destruct (uploadWebSocket (clearInterval i s)) as [k|]; [|exact Hd].
  destruct (ws_close_frame k close_no_code (clearInterval i s))
    as (_ & _ & _ & -> & _).
  exact Hd.
Qed.

Lemma displayed_poll_answer i task s :
  displayed (poll_answer i (PollOk task) s)
  = rendered (progress_fill_width s)
      (progress task, processed_rows task, total_rows task).
Proof.
  destruct (terminal task) eqn:Ht.
  - destruct (poll_answer_terminal i task s Ht) as (b & m & j & ->).
    destruct (handleUploadComplete_frame b m j
                (poll_stopped i (answer_seen task s))) as (_ & -> & _).
    rewrite displayed_poll_stopped. apply displayed_answer_seen.
  - rewrite (poll_answer_continues i task s Ht). apply displayed_answer_seen.
Qed.

Lemma displayed_poll_tick i taskId task s :
  displayed (poll_tick i taskId (PollOk task) s)
  = rendered (progress_fill_width s)
      (progress task, processed_rows task, total_rows task).
Proof. unfold poll_tick. rewrite displayed_poll_answer. reflexivity. Qed.

Lemma displayed_step s e v :
  progress_carried s e = Some v ->
  displayed (step s e) = rendered (progress_fill_width s) v.
Proof.
  intros H.
  destruct e as [resp|k|k data|k failed code|i resp|i|i resp];
    try discriminate H.
  - destruct data; try discriminate H. simpl in H |- *.
    destruct (sockets s !! k) as [ws|]; [|discriminate H].
    destruct (readyState ws); try discriminate H.
    injection H as <-. apply displayed_onmessage_progress.
  - destruct resp as [| |task]; try discriminate H. simpl in H |- *.
    destruct (intervals s !! i) as [iv|]; [|discriminate H].
    destruct (iv_active iv); [|discriminate H].
    injection H as <-. apply displayed_poll_tick.
  - destruct resp as [| |task]; try discriminate H. cbn [progress_carried step] in H |- *.
    destruct (awaited i s); [|discriminate H].
    injection H as <-. rewrite displayed_poll_answer. reflexivity.
Qed.

(** String append. *)
Lemma length_append (a b : string) :
  String.length (a +:+ b) = (String.length a + String.length b)%nat.
Proof. induction a as [|c a IH]; simpl; [reflexivity | now rewrite IH]. Qed.

Lemma append_nil_r (a : string) : a +:+ EmptyString = a.
Proof.
  induction a as [|c a IH]; [reflexivity|].
  change (String c (a +:+ EmptyString) = String c a). now rewrite IH.
Qed.

Lemma append_cons (c : ascii) (a b : string) :
  String c a +:+ b = String c (a +:+ b).
Proof. reflexivity. Qed.


(** C4.  Whatever events came before, on either channel, a progress event
    that reaches its handler leaves the percentage text and the row counts
    of the page holding the values that event carries, printed as
    [toFixed(1)] and the template literals print them, and nothing of an
    earlier event.  The same goes for the width of the bar whenever the
    value is one the bar can take, which every percentage from 0 up is; a
    negative value, which is no percentage, is dropped by the style setter
    and alone leaves the bar where the earlier events put it. *)
Theorem progress_last_write_wins (s : State) (es : list Event) (e : Event)
    (p r t : float) :
  progress_carried (run s es) e = Some (p, r, t) ->
  let s' := step (run s es) e in
  progress_text s' = toFixed 1 p +:+ "%" /\
  progress_details s'
  = number_to_string r +:+ " / " +:+ number_to_string t +:+ " rows processed" /\
  (width_accepted p = true ->
     progress_fill_width s' = number_to_string p +:+ "%") /\
  (width_accepted p = false ->
     progress_fill_width s' = progress_fill_width (run s es)).
Proof.
  intros H s'. apply displayed_step in H. fold s' in H.
  unfold displayed, rendered in H. injection H as Hw Ht Hd.
  split; [exact Ht|]. split; [exact Hd|].
  split; intros Hp; rewrite Hp in Hw; exact Hw.
Qed.

Lemma progress_last_write_wins_witness :
  let s' := step (run init progress_trace)
              (WsMessage 0 (FProgress 55.5 275 500 JUndefined)) in
  progress_text s' = "55.5%" /\
  progress_details s' = "275 / 500 rows processed" /\
  progress_fill_width s' = "55.5%".
Proof.
  destruct (progress_last_write_wins init progress_trace
              (WsMessage 0 (FProgress 55.5 275 500 JUndefined)) 55.5 275 500
              eq_refl) as (Ht & Hd & Hw & _).
  split; [exact Ht|]. split; [exact Hd|]. exact (Hw eq_refl).
Defined.

(** C3, as the code has it.  A progress event that reaches its handler after
    another one writes its own values over those on display, also when its
    percentage is the lower one: bar, text and row counts then show the lower
    value (the bar for a value it can take, that is, one not negative), and
    no update is held back as stale. *)
Theorem lower_progress_overwrites (s : State) (e1 e2 : Event)
    (p1 r1 t1 p2 r2 t2 : float) :
  progress_carried s e1 = Some (p1, r1, t1) ->
  progress_carried (step s e1) e2 = Some (p2, r2, t2) ->
  PrimFloat.ltb p2 p1 = true ->
  width_accepted p1 = true ->
  width_accepted p2 = true ->
  displayed (step s e1)
  = (number_to_string p1 +:+ "%", toFixed 1 p1 +:+ "%",
     number_to_string r1 +:+ " / " +:+ number_to_string t1 +:+ " rows processed") /\
  displayed (step (step s e1) e2)
  = (number_to_string p2 +:+ "%", toFixed 1 p2 +:+ "%",
     number_to_string r2 +:+ " / " +:+ number_to_string t2 +:+ " rows processed").
Proof.
  intros H1 H2 _ Hp1 Hp2.
  apply displayed_step in H1. apply displayed_step in H2.
  unfold rendered in H1, H2. rewrite Hp1 in H1. rewrite Hp2 in H2.
  split; assumption.
Qed.

Lemma lower_progress_overwrites_witness :
  let s := run init polling_trace in
  let e1 := PollTick 0 (PollOk (processing 40 200 500)) in
  let e2 := PollTick 0 (PollOk (processing 20 100 500)) in
  displayed (step s e1) = ("40%", "40.0%", "200 / 500 rows processed") /\
  displayed (step (step s e1) e2) = ("20%", "20.0%", "100 / 500 rows processed").
Proof.
  apply (lower_progress_overwrites (run init polling_trace)
           (PollTick 0 (PollOk (processing 40 200 500)))
           (PollTick 0 (PollOk (processing 20 100 500)))
           40 200 500 20 100 500); reflexivity.
Defined.

(** C3 as stated fails: while the task is processing, a status with progress
    20 fetched after one with progress 40 moves the bar back from 40% to
    20%. *)
Lemma progress_decreases :
  let s := run init polling_trace in
  let s1 := step s (PollTick 0 (PollOk (processing 40 200 500))) in
  let s2 := step s1 (PollTick 0 (PollOk (processing 20 100 500))) in
  displayed s1 = ("40%", "40.0%", "200 / 500 rows processed") /\
  displayed s2 = ("20%", "20.0%", "100 / 500 rows processed").
Proof. split; reflexivity. Qed.

(** *** Fallback to polling *)

(** C2.  When a socket closes, the intervals started for its task are: one
    if the connection failed (the [error] handler), and one more unless the
    closure code is 1000 (the [close] handler).  A close with code 1000
    therefore starts no polling, and a close with any other code, or a
    transport error, starts it, whether or not a terminal event was handled
    before. *)
Theorem fallback_only_on_abnormal_close (s : State) (k : nat) (ws : WebSocket)
    (failed : bool) (code : Z) :
  sockets s !! k = Some ws ->
  readyState ws <> CLOSED ->
  intervals (step s (WsClosed k failed code))
  = intervals s
    ++ (if failed then [mkInterval (ws_task ws) true] else [])
    ++ (if (code =? 1000)%Z then [] else [mkInterval (ws_task ws) true]).
Proof.
  intros Hk Hopen. unfold step. rewrite Hk.
  unfold onclose, onerror.
  destruct (readyState ws); try congruence;
    destruct failed; destruct (code =? 1000)%Z; cbn [negb]; fields;
    rewrite <- ?app_assoc, ?app_nil_r; reflexivity.
Qed.

Lemma fallback_only_on_abnormal_close_witness :
  intervals (step (run init progress_trace) (WsClosed 0 false 1000)) = [] /\
  intervals (step (run init progress_trace) (WsClosed 0 false 1006))
  = [mkInterval "T1" true] /\
  intervals (step (run init progress_trace) (WsClosed 0 true 1006))
  = [mkInterval "T1" true; mkInterval "T1" true].
Proof.
  split; [|split].
  - apply (fallback_only_on_abnormal_close (run init progress_trace) 0
             (mkWebSocket "T1" OPEN None) false 1000);
      [reflexivity | discriminate].
  - apply (fallback_only_on_abnormal_close (run init progress_trace) 0
             (mkWebSocket "T1" OPEN None) false 1006);
      [reflexivity | discriminate].
  - apply (fallback_only_on_abnormal_close (run init progress_trace) 0
             (mkWebSocket "T1" OPEN None) true 1006);
      [reflexivity | discriminate].
Defined.

(** *** Rejected submissions *)

(** C9.  A submission that is rejected (a response that is not ok, or a
    thrown error) is reported in the same handler run, by a toast and in the
    result panel, with the progress bar hidden; no socket is opened, no
    interval is started and no task becomes current. *)
Theorem rejected_upload_starts_no_tracking (s : State) (resp : UploadResponse)
    (message : string) :
  rejected resp = Some message ->
  let s' := step s (Upload resp) in
  sockets s' = sockets s /\
  intervals s' = intervals s /\
  uploadWebSocket s' = uploadWebSocket s /\
  currentUploadTaskId s' = currentUploadTaskId s /\
  upload_result s' = PanelUploadFailed message /\
  progress_display s' = "none" /\
  log s' = log s ++ [Fetch "POST" (API_BASE +:+ "/upload");
                     Toast ("Upload failed: " +:+ message) "error"].
Proof.
  intros H. destruct resp; simpl in H; try discriminate H;
    injection H as <-; simpl; unfold handleFileUpload; fields;
    rewrite <- app_assoc; repeat split; reflexivity.
Qed.

Lemma rejected_upload_starts_no_tracking_witness :
  let s' := step init (Upload (UploadRejected (JStr "Only CSV files are allowed"))) in
  sockets s' = [] /\
  intervals s' = [] /\
  uploadWebSocket s' = None /\
  currentUploadTaskId s' = None /\
  upload_result s' = PanelUploadFailed "Only CSV files are allowed" /\
  progress_display s' = "none" /\
  log s' = [Fetch "POST" "http://localhost:8000/api/upload";
            Toast "Upload failed: Only CSV files are allowed" "error"].
Proof.
  apply (rejected_upload_starts_no_tracking init
           (UploadRejected (JStr "Only CSV files are allowed"))
           "Only CSV files are allowed").
  reflexivity.
Defined.

(** *** Error display *)



Lemma error_item_record err : is_record err = true -> is_Some (error_item err).
Proof.
  unfold error_item. destruct err; simpl; try discriminate; intros _;
    repeat case_match; eexists; reflexivity.
Qed.










(** *** Channels only ever shut

    Along any run the heap of sockets and the table of intervals grow at the
    end, a shut socket stays shut and a cleared interval stays cleared. *)

Section Growth.
Context {A : Type} (stuck : A -> bool).

Lemma grows_refl l : grows stuck l l.
Proof. intros i x H. exists x. auto. Qed.

Lemma grows_trans l1 l2 l3 :
  grows stuck l1 l2 -> grows stuck l2 l3 -> grows stuck l1 l3.
Proof.
  intros H12 H23 i x H. destruct (H12 i x H) as (y & Hy & Hxy).
  destruct (H23 i y Hy) as (z & Hz & Hyz). exists z. auto.
Qed.

Lemma grows_app l k : grows stuck l (l ++ k).
Proof.
  intros i x H. exists x. split; [|auto].
  rewrite lookup_app_l; [exact H|]. eapply lookup_lt_Some, H.
Qed.

Lemma grows_insert l j y y' :
  l !! j = Some y -> (stuck y = true -> stuck y' = true) ->
  grows stuck l (<[j := y']> l).
Proof.
  intros Hj Hy i x H. destruct (decide (j = i)) as [->|Hne].
  - exists y'. rewrite list_lookup_insert_eq by (eapply lookup_lt_Some, H).
    split; [reflexivity|]. rewrite Hj in H. injection H as <-. exact Hy.
  - exists x. rewrite list_lookup_insert_ne by exact Hne. auto.
Qed.
End Growth.

Lemma sockets_ws_close k call s :
  grows shut (sockets s) (sockets (ws_close k call s)).
Proof.
  unfold ws_close. destruct (sockets s !! k) as [ws|] eqn:Hk;
    [|apply grows_refl].
  fields. eapply grows_insert; [exact Hk|].
  unfold close_socket, shut.
  destruct (readyState ws) eqn:Hr; cbn; rewrite ?Hr; intros H;
    solve [reflexivity | discriminate H].
Qed.

Lemma sockets_handleUploadComplete success message message_json s :
  grows shut (sockets s)
    (sockets (handleUploadComplete success message message_json s)).
Proof.
  unfold handleUploadComplete.
  destruct (uploadWebSocket (emit (Completed success message) s)) as [k|].
  - eapply grows_trans;
      [apply (sockets_ws_close k (close_with 1000 "Upload completed")
                (emit (Completed success message) s))|].
    match goal with |- grows _ ?a ?b => replace b with a; [apply grows_refl|] end.
    frame.
  - match goal with |- grows _ ?a ?b => replace b with a; [apply grows_refl|] end.
    frame.
Qed.

Lemma intervals_clearInterval i s :
  grows (fun iv => negb (iv_active iv)) (intervals s)
    (intervals (clearInterval i s)).
Proof.
  unfold clearInterval. destruct (intervals s !! i) as [iv|] eqn:Hi;
    [|apply grows_refl].
  fields. eapply grows_insert; [exact Hi|]. reflexivity.
Qed.

Lemma answer_seen_frame task s :
  sockets (answer_seen task s) = sockets s /\
  intervals (answer_seen task s) = intervals s /\
  uploadWebSocket (answer_seen task s) = uploadWebSocket s /\
  currentUploadTaskId (answer_seen task s) = currentUploadTaskId s /\
  log (answer_seen task s) = log s.
Proof.
  unfold answer_seen.
  destruct (truthy (errors task)); [destruct (errors_json task) as [j|]|];
    try (repeat split; reflexivity).
  match goal with |- context [displayErrors j ?x] =>
    destruct (displayErrors_frame j x) as (-> & -> & -> & -> & _ & ->) end.
  repeat split; reflexivity.
Qed.

Lemma poll_seen_frame taskId task s :
  sockets (poll_seen taskId task s) = sockets s /\
  intervals (poll_seen taskId task s) = intervals s /\
  uploadWebSocket (poll_seen taskId task s) = uploadWebSocket s /\
  log (poll_seen taskId task s)
  = log s ++ [Fetch "GET" (API_BASE +:+ "/upload/task/" +:+ taskId)].
Proof.
  unfold poll_seen.
  destruct (answer_seen_frame task (poll_request taskId s))
    as (-> & -> & -> & _ & ->).
  repeat split; reflexivity.
Qed.

Lemma poll_tick_continues i taskId task s :
  terminal task = false ->
  poll_tick i taskId (PollOk task) s = poll_seen taskId task s.
Proof. intros Ht. apply poll_answer_continues, Ht. Qed.

Lemma poll_tick_terminal i taskId task s :
  terminal task = true ->
  exists success message message_json,
    poll_tick i taskId (PollOk task) s
    = handleUploadComplete success message message_json
        (poll_stopped i (poll_seen taskId task s)).
Proof. intros Ht. apply poll_answer_terminal, Ht. Qed.

Lemma poll_stopped_frame i s :
  log (poll_stopped i s) = log s /\
  grows shut (sockets s) (sockets (poll_stopped i s)) /\
  intervals (poll_stopped i s) = intervals (clearInterval i s).
Proof.
  unfold poll_stopped.
  destruct (clearInterval_frame i s) as (_ & _ & Hs & _ & _ & Hl).
  destruct (uploadWebSocket (clearInterval i s)) as [k|].
  - destruct (ws_close_frame k close_no_code (clearInterval i s))
      as (_ & _ & -> & _ & _ & ->).
    split; [exact Hl|]. split; [|reflexivity].
    rewrite <- Hs. apply sockets_ws_close.
  - split; [exact Hl|]. split; [|reflexivity].
    rewrite Hs. apply grows_refl.
Qed.

(** *** Fetches in flight

    Only the interval that fires and the fetch that settles change what is
    in flight. *)

Lemma pending_displayErrors errors s :
  pending (displayErrors errors s) = pending s.
Proof. frame. Qed.

Lemma pending_handleUploadComplete success message message_json s :
  pending (handleUploadComplete success message message_json s) = pending s.
Proof. frame. Qed.

Lemma pending_poll_stopped i s : pending (poll_stopped i s) = pending s.
Proof. unfold poll_stopped. frame. Qed.

Lemma pending_answer_seen task s : pending (answer_seen task s) = pending s.
Proof.
  unfold answer_seen.
  destruct (truthy (errors task)); [destruct (errors_json task)|];
    rewrite ?pending_displayErrors; reflexivity.
Qed.

Lemma pending_poll_answer i resp s : pending (poll_answer i resp s) = pending s.
Proof.
  destruct resp as [| |task]; try reflexivity.
  destruct (terminal task) eqn:Ht.
  - destruct (poll_answer_terminal i task s Ht) as (b & m & j & ->).
    rewrite pending_handleUploadComplete, pending_poll_stopped.
    apply pending_answer_seen.
  - rewrite (poll_answer_continues i task s Ht). apply pending_answer_seen.
Qed.

Lemma pending_onmessage data s : pending (onmessage data s) = pending s.
Proof.
  destruct data as [|id|p r t errs|b m j| |]; cbn [onmessage]; try reflexivity.
  - destruct (truthy errs && length_positive errs);
      rewrite ?pending_displayErrors; reflexivity.
  - apply pending_handleUploadComplete.
Qed.

Lemma pending_step s e :
  pending (step s e)
  = match e with
    | PollFire i =>
        match intervals s !! i with
        | Some iv => if iv_active iv then i :: pending s else pending s
        | None => pending s
        end
    | PollAnswer i _ =>
        if awaited i s then settle i (pending s) else pending s
    | _ => pending s
    end.
Proof.
  destruct e as [resp|k|k data|k failed code|i resp|i|i resp]; cbn [step].
  - destruct resp; reflexivity.
  - destruct (sockets s !! k) as [ws|]; [|reflexivity].
    destruct (readyState ws); reflexivity.
  - destruct (sockets s !! k) as [ws|]; [|reflexivity].
    destruct (readyState ws); try reflexivity. apply pending_onmessage.
  - destruct (sockets s !! k) as [ws|]; [|reflexivity].
    unfold onclose, onerror.
    destruct (readyState ws); try reflexivity;
      destruct failed; destruct (negb (code =? 1000)%Z); reflexivity.
  - destruct (intervals s !! i) as [iv|]; [|reflexivity].
    destruct (iv_active iv); [|reflexivity].
    unfold poll_tick. rewrite pending_poll_answer. reflexivity.
  - destruct (intervals s !! i) as [iv|]; [|reflexivity].
    destruct (iv_active iv); reflexivity.
  - destruct (awaited i s); [|reflexivity].
    rewrite pending_poll_answer. reflexivity.
Qed.

(** For a live interval, the tick that fires and settles at once is the two
    events in a row. *)
Lemma tick_is_fire_then_answer s i iv resp :
  intervals s !! i = Some iv -> iv_active iv = true ->
  step s (PollTick i resp) = step (step s (PollFire i)) (PollAnswer i resp).
Proof.
  intros Hi Ha. cbn [step]. rewrite Hi, Ha.
  unfold awaited, poll_request. fields. rewrite Hi.
  cbn [existsb settle]. rewrite Nat.eqb_refl.
  cbn [orb]. unfold poll_tick, poll_request.
  first [reflexivity | f_equal; destruct s; reflexivity].
Qed.

(** *** Counting completions *)

Lemma completions_log s s' tail :
  log s' = log s ++ tail ->
  completions s' = (completions s + length (List.filter is_completed tail))%nat.
Proof.
  intros H. unfold completions. rewrite H, List.filter_app, length_app.
  reflexivity.
Qed.

Lemma log_handleUploadComplete success message message_json s :
  exists tail,
    log (handleUploadComplete success message message_json s)
    = log s ++ Completed success message :: tail /\
    List.filter is_completed tail = [].
Proof.
  unfold handleUploadComplete. fields.
  destruct success; [|destruct (failure_panel message message_json)];
    branches; rewrite ?log_ws_close; fields; rewrite <- ?app_assoc; simpl;
    eexists; (split; [reflexivity|]); reflexivity.
Qed.

Lemma completions_handleUploadComplete success message message_json s :
  completions (handleUploadComplete success message message_json s)
  = S (completions s).
Proof.
  destruct (log_handleUploadComplete success message message_json s)
    as (tail & Hl & Hf).
  rewrite (completions_log _ _ _ Hl). simpl. rewrite Hf. simpl. lia.
Qed.

Lemma completions_same_log s s' : log s' = log s -> completions s' = completions s.
Proof. unfold completions. intros ->. reflexivity. Qed.

Lemma completions_poll_seen taskId task s :
  completions (poll_seen taskId task s) = completions s.
Proof.
  destruct (poll_seen_frame taskId task s) as (_ & _ & _ & Hl).
  rewrite (completions_log _ _ _ Hl). simpl. lia.
Qed.

Lemma completions_poll_answer i resp s :
  completions (poll_answer i resp s)
  = match resp with
    | PollOk task => if terminal task then S (completions s) else completions s
    | _ => completions s
    end.
Proof.
  destruct resp as [| |task]; try reflexivity.
  destruct (terminal task) eqn:Ht.
  - destruct (poll_answer_terminal i task s Ht) as (b & m & j & ->).
    rewrite completions_handleUploadComplete. f_equal.
    rewrite (completions_same_log (answer_seen task s));
      [|apply poll_stopped_frame].
    apply completions_same_log, answer_seen_frame.
  - rewrite (poll_answer_continues i task s Ht).
    apply completions_same_log, answer_seen_frame.
Qed.

Lemma completions_emit e s :
  completions (emit e s)
  = (completions s + if is_completed e then 1 else 0)%nat.
Proof.
  unfold completions. fields. rewrite List.filter_app, length_app.
  cbn [List.filter]. destruct (is_completed e); reflexivity.
Qed.

Lemma completions_onmessage data s :
  completions (onmessage data s)
  = match data with
    | FComplete _ _ _ => S (completions s)
    | _ => completions s
    end.
Proof.
  destruct data as [|id|p r t errs|b m j| |]; cbn [onmessage]; try reflexivity.
  - destruct (truthy errs && length_positive errs); [|reflexivity].
    apply completions_same_log.
    destruct (displayErrors_frame errs (updateProgress p r t s))
      as (_ & _ & _ & _ & _ & ->).
    reflexivity.
  - apply completions_handleUploadComplete.
Qed.

(** [handleUploadComplete] is entered by the terminal events that reach
    their handler, once by each, and by nothing else. *)
Lemma completions_step s e :
  completions (step s e)
  = if completes s e then S (completions s) else completions s.
Proof.
  destruct e as [resp|k|k data|k failed code|i resp|i|i resp];
    cbn [step completes].
  - destruct resp; unfold handleFileUpload, completions; fields;
      rewrite ?List.filter_app, ?length_app; cbn; lia.
  - destruct (sockets s !! k) as [ws|]; [|reflexivity].
    destruct (readyState ws); reflexivity.
  - destruct (sockets s !! k) as [ws|];
      [|destruct data; reflexivity].
    destruct (readyState ws); try (destruct data; reflexivity).
    rewrite completions_onmessage. destruct data; reflexivity.
  - destruct (sockets s !! k) as [ws|]; [|reflexivity].
    unfold onclose, onerror, completions.
    destruct (readyState ws); try reflexivity;
      destruct failed; destruct (negb (code =? 1000)%Z); fields;
      rewrite ?List.filter_app, ?length_app; cbn; lia.
  - destruct (intervals s !! i) as [iv|];
      [|destruct resp; reflexivity].
    destruct (iv_active iv); [|destruct resp; reflexivity].
    unfold poll_tick, poll_request.
    rewrite completions_poll_answer, completions_emit. cbn [is_completed].
    rewrite Nat.add_0_r. destruct resp as [| |task]; reflexivity.
  - destruct (intervals s !! i) as [iv|]; [|reflexivity].
    destruct (iv_active iv); [|reflexivity].
    unfold completions. fields. rewrite List.filter_app, length_app.
    cbn. lia.
  - destruct (awaited i s);
      [|destruct resp; reflexivity].
    rewrite completions_poll_answer. destruct resp as [| |task]; reflexivity.
Qed.

(** *** Undecodable error payloads *)

Lemma failure_panel_raw (raw : JsVal) :
  truthy raw = true ->
  failure_panel raw None = (PanelError (to_string raw), to_string raw).
Proof.
  intros Htr. unfold failure_panel, or_else. rewrite Htr.
  destruct raw as [| |b|n|text|l|fs]; try reflexivity.
  destruct (startsWith "[{" text); reflexivity.
Qed.

(** C8, as the code has it.  When [JSON.parse] throws on the errors field of
    a fetched status, the exception is swallowed and the callback goes on:
    the raw value is never turned into an error record.  For a status that
    is not terminal nothing but the progress fields changes, so error
    display, result panel and interval stay as they were.  A status
    [completed] ends in the success result, where the raw value does not
    appear; a status [failed] alone brings it out, as the message of the
    failure result in panel and toast.  Both terminal results empty the
    error display. *)
Theorem undecodable_errors_ignored (s : State) (i : nat) (task : TaskStatus) :
  truthy (errors task) = true ->
  errors_json task = None ->
  let s' := poll_answer i (PollOk task) s in
  let raw := to_string (errors task) in
  let done := "Successfully processed "
              +:+ number_to_string (processed_rows task) +:+ " products" in
  (terminal task = false ->
     s' = updateProgress (progress task) (processed_rows task)
            (total_rows task) s /\
     upload_errors s' = upload_errors s /\
     upload_result s' = upload_result s /\
     intervals s' = intervals s /\
     log s' = log s) /\
  (status task = "completed" ->
     upload_errors s' = EmptyString /\
     upload_result s' = PanelSuccess done /\
     log s' = log s ++ [Completed true (JStr done);
                        Toast "Upload completed successfully!" "success";
                        LoadProducts]) /\
  (status task = "failed" ->
     upload_errors s' = EmptyString /\
     upload_result s' = PanelError raw /\
     log s' = log s ++ [Completed false (errors task);
                        Toast ("Upload failed: " +:+ raw) "error"]).
Proof.
  intros Htr Hj s' raw done. subst s'. split; [|split].
  - intros Ht. unfold poll_answer. rewrite Ht, Htr, Hj.
    repeat split; reflexivity.
  - intros Hst.
    assert (Ht : terminal task = true).
    { unfold terminal. rewrite Hst. reflexivity. }
    unfold poll_answer. rewrite Ht, Htr, Hj, Hst.
    change (String.eqb "completed" "completed") with true. cbv iota.
    fold done.
    set (s1 := match uploadWebSocket _ with Some k => _ | None => _ end).
    assert (Hl : log s1 = log s).
    { unfold s1.
      match goal with |- context [clearInterval i ?x] =>
        destruct (clearInterval_frame i x) as (_ & _ & _ & _ & _ & Hc);
        destruct (uploadWebSocket (clearInterval i x)) end;
        rewrite ?log_ws_close, Hc; reflexivity. }
    clearbody s1.
    split; [apply handleUploadComplete_frame|].
    unfold handleUploadComplete, ws_close. fields.
    split; branches; rewrite ?Hl, <- ?app_assoc; reflexivity.
  - intros Hst.
    assert (Ht : terminal task = true).
    { unfold terminal. rewrite Hst. apply orb_true_r. }
    unfold poll_answer. rewrite Ht, Htr, Hj, Hst.
    change (String.eqb "failed" "completed") with false. cbv iota.
    set (s1 := match uploadWebSocket _ with Some k => _ | None => _ end).
    assert (Hl : log s1 = log s).
    { unfold s1.
      match goal with |- context [clearInterval i ?x] =>
        destruct (clearInterval_frame i x) as (_ & _ & _ & _ & _ & Hc);
        destruct (uploadWebSocket (clearInterval i x)) end;
        rewrite ?log_ws_close, Hc; reflexivity. }
    clearbody s1.
    split; [apply handleUploadComplete_frame|].
    unfold handleUploadComplete, ws_close.
    rewrite (failure_panel_raw _ Htr). fold raw. fields.
    split; branches; rewrite ?Hl, <- ?app_assoc; reflexivity.
Qed.

Lemma undecodable_errors_ignored_witness :
  let s := run init overlapping_trace in
  (poll_answer 0 (PollOk undecodable) s = updateProgress 40 200 500 s /\
   upload_errors (poll_answer 0 (PollOk undecodable) s) = upload_errors s /\
   upload_result (poll_answer 0 (PollOk undecodable) s) = upload_result s /\
   intervals (poll_answer 0 (PollOk undecodable) s) = intervals s /\
   log (poll_answer 0 (PollOk undecodable) s) = log s) /\
  upload_result (poll_answer 0 (PollOk undecodable_completed) s)
  = PanelSuccess "Successfully processed 500 products" /\
  upload_result (poll_answer 0 (PollOk undecodable_failed) s)
  = PanelError "disk full".
Proof.
  split; [|split].
  - apply (proj1 (undecodable_errors_ignored (run init overlapping_trace) 0
                    undecodable eq_refl eq_refl)).
    reflexivity.
  - apply (proj1 (proj2 (undecodable_errors_ignored (run init overlapping_trace)
                           0 undecodable_completed eq_refl eq_refl))).
    reflexivity.
  - apply (proj2 (proj2 (undecodable_errors_ignored (run init overlapping_trace)
                           0 undecodable_failed eq_refl eq_refl))).
    reflexivity.
Defined.

(** C8 as stated fails: with task T1 in flight and polled, a status still
    processing whose errors field is the string [disk full] shows no error
    record, batch-level or other; the tick leaves nothing behind but its
    fetch and the progress values. *)
Lemma undecodable_errors_not_surfaced :
  let s := run init polling_trace in
  let s' := step s (PollTick 0 (PollOk undecodable)) in
  task_in_flight s = true /\
  upload_errors s' = EmptyString /\
  upload_errors s' <> line "System: disk full" /\
  upload_result s' = PanelEmpty /\
  log s' = log s ++ [Fetch "GET" "http://localhost:8000/api/upload/task/T1"].
Proof.
  vm_compute. split; [reflexivity|]. split; [reflexivity|].
  split; [discriminate|]. split; reflexivity.
Qed.

(** *** Growth along a run *)

Lemma grows_eq {A : Type} (stuck : A -> bool) l l' : l = l' -> grows stuck l l'.
Proof. intros ->. apply grows_refl. Qed.

Lemma sockets_poll_answer i resp s :
  grows shut (sockets s) (sockets (poll_answer i resp s)).
Proof.
  destruct resp as [| |task]; try apply grows_refl.
  destruct (answer_seen_frame task s) as (Hs & _).
  destruct (terminal task) eqn:Ht.
  - destruct (poll_answer_terminal i task s Ht) as (b & m & j & ->).
    eapply grows_trans; [|apply sockets_handleUploadComplete].
    rewrite <- Hs. apply poll_stopped_frame.
  - rewrite (poll_answer_continues i task s Ht), Hs. apply grows_refl.
Qed.

Lemma intervals_poll_answer i resp s :
  grows cleared (intervals s) (intervals (poll_answer i resp s)).
Proof.
  destruct resp as [| |task]; try apply grows_refl.
  destruct (answer_seen_frame task s) as (_ & Hi & _).
  destruct (terminal task) eqn:Ht.
  - destruct (poll_answer_terminal i task s Ht) as (b & m & j & ->).
    destruct (handleUploadComplete_frame b m j
                (poll_stopped i (answer_seen task s))) as (-> & _).
    destruct (poll_stopped_frame i (answer_seen task s)) as (_ & _ & ->).
    rewrite <- Hi. apply intervals_clearInterval.
  - rewrite (poll_answer_continues i task s Ht), Hi. apply grows_refl.
Qed.

Lemma sockets_poll_tick i taskId resp s :
  grows shut (sockets s) (sockets (poll_tick i taskId resp s)).
Proof. apply (sockets_poll_answer i resp (poll_request taskId s)). Qed.

Lemma intervals_poll_tick i taskId resp s :
  grows cleared (intervals s) (intervals (poll_tick i taskId resp s)).
Proof. apply (intervals_poll_answer i resp (poll_request taskId s)). Qed.

Lemma onmessage_frame data s :
  intervals (onmessage data s) = intervals s /\
  grows shut (sockets s) (sockets (onmessage data s)).
Proof.
  destruct data as [|id|p r t errs|b m j| |]; cbn [onmessage];
    try (split; [reflexivity | apply grows_refl]).
  - destruct (truthy errs && length_positive errs);
      [|split; [reflexivity | apply grows_refl]].
    destruct (displayErrors_frame errs (updateProgress p r t s))
      as (_ & _ & -> & -> & _). split; [reflexivity | apply grows_refl].
  - split; [apply handleUploadComplete_frame
           | apply sockets_handleUploadComplete].
Qed.

Lemma step_grows s e :
  grows shut (sockets s) (sockets (step s e)) /\
  grows cleared (intervals s) (intervals (step s e)).
Proof.
  destruct e as [resp|k|k data|k failed code|i resp|i|i resp]; simpl.
  - destruct resp; unfold handleFileUpload; fields;
      split; try apply grows_refl. apply grows_app.
  - destruct (sockets s !! k) as [ws|] eqn:Hk;
      [|split; apply grows_refl].
    destruct (readyState ws) eqn:Hr; split; try apply grows_refl.
    fields. eapply grows_insert; [exact Hk|].
    unfold shut. rewrite Hr. discriminate.
  - destruct (sockets s !! k) as [ws|]; [|split; apply grows_refl].
    destruct (readyState ws); try (split; apply grows_refl).
    destruct (onmessage_frame data s) as (-> & H).
    split; [exact H | apply grows_refl].
  - destruct (sockets s !! k) as [ws|] eqn:Hk; [|split; apply grows_refl].
    assert (Hins : grows shut (sockets s)
                     (<[k := set_ready CLOSED ws]> (sockets s))).
    { eapply grows_insert; [exact Hk | reflexivity]. }
    unfold onclose, onerror.
    destruct (readyState ws); try (split; apply grows_refl);
      destruct failed; destruct (negb (code =? 1000)%Z); fields;
      (split; [exact Hins|]);
      try apply grows_refl; try apply grows_app;
      (eapply grows_trans; apply grows_app).
  - destruct (intervals s !! i) as [iv|]; [|split; apply grows_refl].
    destruct (iv_active iv); [|split; apply grows_refl].
    split; [apply sockets_poll_tick | apply intervals_poll_tick].
  - destruct (intervals s !! i) as [iv|]; [|split; apply grows_refl].
    destruct (iv_active iv); split; apply grows_refl.
  - destruct (awaited i s); [|split; apply grows_refl].
    split;
      [apply (sockets_poll_answer i resp (set_pending (settle i (pending s)) s))
      |apply (intervals_poll_answer i resp (set_pending (settle i (pending s)) s))].
Qed.

Lemma run_grows s es :
  grows shut (sockets s) (sockets (run s es)) /\
  grows cleared (intervals s) (intervals (run s es)).
Proof.
  revert s. induction es as [|e es IH]; intros s.
  - split; apply grows_refl.
  - simpl. destruct (step_grows s e) as [Hs Hi].
    destruct (IH (step s e)) as [Hs' Hi'].
    split; eapply grows_trans; eassumption.
Qed.

(** *** Completion *)

Lemma step_dead_interval s i iv resp :
  intervals s !! i = Some iv -> cleared iv = true ->
  step s (PollTick i resp) = s.
Proof.
  intros Hi Hc. simpl. rewrite Hi.
  unfold cleared in Hc. destruct (iv_active iv); [discriminate Hc | reflexivity].
Qed.

Lemma step_dead_fire s i iv :
  intervals s !! i = Some iv -> cleared iv = true ->
  step s (PollFire i) = s.
Proof.
  intros Hi Hc. simpl. rewrite Hi.
  unfold cleared in Hc. destruct (iv_active iv); [discriminate Hc | reflexivity].
Qed.

Lemma step_shut_socket s k ws data :
  sockets s !! k = Some ws -> shut ws = true ->
  step s (WsMessage k data) = s.
Proof.
  intros Hk Hs. simpl. rewrite Hk.
  unfold shut in Hs. destruct (readyState ws); try discriminate Hs; reflexivity.
Qed.

Lemma intervals_poll_answer_terminal i task iv s :
  intervals s !! i = Some iv -> terminal task = true ->
  intervals (poll_answer i (PollOk task) s) = <[i := clear iv]> (intervals s).
Proof.
  intros Hi Ht.
  destruct (poll_answer_terminal i task s Ht) as (b & m & j & ->).
  destruct (handleUploadComplete_frame b m j
              (poll_stopped i (answer_seen task s))) as (-> & _).
  destruct (poll_stopped_frame i (answer_seen task s)) as (_ & _ & ->).
  destruct (answer_seen_frame task s) as (_ & Hiv & _).
  unfold clearInterval. rewrite Hiv, Hi. fields. rewrite ?Hiv. reflexivity.
Qed.

Lemma poll_tick_clears i taskId task iv s :
  intervals s !! i = Some iv -> terminal task = true ->
  exists iv', intervals (poll_tick i taskId (PollOk task) s) !! i = Some iv'
              /\ cleared iv' = true.
Proof.
  intros Hi Ht. unfold poll_tick.
  rewrite (intervals_poll_answer_terminal i task iv); [|exact Hi|exact Ht].
  exists (clear iv). split; [|reflexivity].
  apply list_lookup_insert_eq. eapply lookup_lt_Some, Hi.
Qed.

Lemma handleUploadComplete_shuts k ws success message message_json s :
  uploadWebSocket s = Some k -> sockets s !! k = Some ws ->
  exists ws',
    sockets (handleUploadComplete success message message_json s) !! k = Some ws'
    /\ shut ws' = true.
Proof.
  intros Hu Hk. exists (close_socket (close_with 1000 "Upload completed") ws).
  split.
  - assert (Hs : sockets (ws_close k (close_with 1000 "Upload completed")
                            (emit (Completed success message) s)) !! k
                 = Some (close_socket (close_with 1000 "Upload completed") ws)).
    { unfold ws_close. fields. rewrite Hk. fields.
      apply list_lookup_insert_eq. eapply lookup_lt_Some, Hk. }
    unfold handleUploadComplete. fields. rewrite Hu.
    destruct success; [|destruct (failure_panel message message_json)];
      branches; fields; exact Hs.
  - unfold close_socket, shut. destruct (readyState ws) eqn:Hr; simpl;
      rewrite ?Hr; reflexivity.
Qed.

(** Settling takes one fetch of its interval out of flight and leaves the
    others. *)
Lemma settle_same i l :
  existsb (Nat.eqb i) l = true ->
  S (length (List.filter (Nat.eqb i) (settle i l)))
  = length (List.filter (Nat.eqb i) l).
Proof.
  induction l as [|j l IH]; [discriminate|].
  cbn [existsb settle List.filter]. destruct (i =? j)%nat eqn:Hij.
  - reflexivity.
  - cbn [orb List.filter]. rewrite Hij. exact IH.
Qed.

Lemma settle_other i j l :
  i <> j -> List.filter (Nat.eqb i) (settle j l) = List.filter (Nat.eqb i) l.
Proof.
  intros Hne. induction l as [|x l IH]; [reflexivity|].
  cbn [settle List.filter]. destruct (j =? x)%nat eqn:Hjx.
  - apply Nat.eqb_eq in Hjx. subst x.
    destruct (i =? j)%nat eqn:Hij; [apply Nat.eqb_eq in Hij; contradiction|].
    reflexivity.
  - cbn [List.filter]. rewrite IH. reflexivity.
Qed.

(** Once its interval is cleared, each answer of a fetch of interval [i]
    that calls [handleUploadComplete] uses up one fetch in flight, and none
    is added. *)
Lemma entry_uses_fetch s i iv e :
  intervals s !! i = Some iv -> cleared iv = true ->
  ((if answers i e && completes s e then 1 else 0) + in_flight i (step s e)
   <= in_flight i s)%nat.
Proof.
  intros Hi Hc. unfold in_flight. rewrite pending_step.
  destruct e as [resp|k|k data|k failed code|j resp|j|j resp];
    cbn [answers completes andb]; try lia.
  - destruct (i =? j)%nat eqn:Hij; [|cbn [andb]; lia].
    apply Nat.eqb_eq in Hij. subst j. rewrite Hi.
    unfold cleared in Hc. destruct (iv_active iv); [discriminate Hc|].
    destruct resp; cbn; lia.
  - destruct (decide (i = j)) as [->|Hne].
    + rewrite Hi. unfold cleared in Hc.
      destruct (iv_active iv); [discriminate Hc | lia].
    + destruct (intervals s !! j) as [iv'|]; [|lia].
      destruct (iv_active iv'); [|lia].
      cbn [List.filter]. apply Nat.eqb_neq in Hne. rewrite Hne. lia.
  - destruct (i =? j)%nat eqn:Hij.
    + apply Nat.eqb_eq in Hij. subst j. unfold awaited. rewrite Hi.
      destruct (existsb (Nat.eqb i) (pending s)) eqn:Hw.
      * rewrite <- (settle_same i _ Hw).
        destruct resp as [| |task]; cbn [andb]; try lia.
        destruct (terminal task); lia.
      * destruct resp; cbn [andb]; lia.
    + apply Nat.eqb_neq in Hij. cbn [andb].
      destruct (awaited j s); [rewrite (settle_other i j _ Hij)|]; lia.
Qed.

Lemma entries_bounded i es : forall s iv,
  intervals s !! i = Some iv -> cleared iv = true ->
  (entries i s es <= in_flight i s)%nat.
Proof.
  induction es as [|e es IH]; intros s iv Hi Hc; cbn [entries]; [lia|].
  destruct (proj2 (step_grows s e) i iv Hi) as (iv' & Hi' & Hc').
  specialize (IH (step s e) iv' Hi' (Hc' Hc)).
  pose proof (entry_uses_fetch s i iv e Hi Hc). lia.
Qed.

(** C1, as the code has it.  The script keeps no record of the tasks it has
    completed: [handleUploadComplete] is entered once by every terminal
    event that reaches its handler, and by nothing else.  What the call
    stops is further work of the channel it came through.  After the
    terminal answer of a fetch, the interval of that fetch is cleared: it
    sends no request any more, and its answers enter
    [handleUploadComplete] again at most once for each of its fetches still
    in flight.  After a [complete] frame on the socket held in
    [uploadWebSocket], that socket is closed and no later frame on it is
    handled. *)
Theorem completes_once_per_terminal_event (s : State) (e : Event) :
  completions (step s e)
  = (if completes s e then S (completions s) else completions s) /\
  (forall i, answers i e = true -> completes s e = true ->
     forall es,
       let t := run (step s e) es in
       step t (PollFire i) = t /\
       (forall resp, step t (PollTick i resp) = t) /\
       (entries i (step s e) es <= in_flight i (step s e))%nat) /\
  (forall k data, e = WsMessage k data -> completes s e = true ->
     uploadWebSocket s = Some k ->
     forall es data',
       step (run (step s e) es) (WsMessage k data') = run (step s e) es).
Proof.
  split; [apply completions_step|]. split.
  - intros i Ha Hc es t.
    assert (Hcl : exists iv, intervals (step s e) !! i = Some iv
                             /\ cleared iv = true).
    { destruct e as [resp|k|k data|k failed code|j resp|j|j resp];
        try discriminate Ha; cbn [answers] in Ha;
        apply Nat.eqb_eq in Ha; subst j;
        destruct resp as [| |task]; try discriminate Hc;
        cbn [completes] in Hc.
      - destruct (intervals s !! i) as [iv|] eqn:Hi; [|discriminate Hc].
        apply andb_true_iff in Hc as [Hact Ht].
        cbn [step]. rewrite Hi, Hact.
        eapply poll_tick_clears; eassumption.
      - apply andb_true_iff in Hc as [Hw Ht].
        cbn [step]. rewrite Hw. unfold awaited in Hw.
        destruct (intervals s !! i) as [iv|] eqn:Hi; [|discriminate Hw].
        rewrite (intervals_poll_answer_terminal i task iv); [|exact Hi|exact Ht].
        exists (clear iv). split; [|reflexivity].
        apply list_lookup_insert_eq. eapply lookup_lt_Some, Hi. }
    destruct Hcl as (iv & Hi & Hcl).
    destruct (proj2 (run_grows (step s e) es) i iv Hi) as (iv' & Hi' & Hc').
    split; [eapply step_dead_fire; eauto|].
    split; [intros resp; eapply step_dead_interval; eauto|].
    eapply entries_bounded; eassumption.
  - intros k data -> Hc Hu es data'.
    destruct data as [|id|p r t errs|b m j| |]; try discriminate Hc.
    cbn [completes] in Hc.
    destruct (sockets s !! k) as [ws|] eqn:Hk; [|discriminate Hc].
    destruct (readyState ws) eqn:Hr; try discriminate Hc.
    assert (Hstep : step s (WsMessage k (FComplete b m j))
                    = handleUploadComplete b m j s).
    { simpl. rewrite Hk, Hr. reflexivity. }
    rewrite Hstep.
    destruct (handleUploadComplete_shuts k ws b m j s Hu Hk)
      as (ws1 & Hk1 & Hs1).
    destruct (proj1 (run_grows _ es) k ws1 Hk1) as (ws2 & Hk2 & Hs2).
    eapply step_shut_socket; eauto.
Qed.

Lemma completes_once_per_terminal_event_witness :
  let s := run init overlapping_trace in
  let e := PollAnswer 0 (PollOk (completed 500)) in
  completions (step s e) = 1%nat /\
  in_flight 0 (step s e) = 1%nat /\
  forall es,
    let t := run (step s e) es in
    step t (PollFire 0) = t /\
    (forall resp, step t (PollTick 0 resp) = t) /\
    (entries 0 (step s e) es <= 1)%nat.
Proof.
  split; [|split].
  - apply (proj1 (completes_once_per_terminal_event
                    (run init overlapping_trace)
                    (PollAnswer 0 (PollOk (completed 500))))).
  - reflexivity.
  - apply (proj1 (proj2 (completes_once_per_terminal_event
                           (run init overlapping_trace)
                           (PollAnswer 0 (PollOk (completed 500)))))
             0%nat eq_refl eq_refl).
Defined.

(** C1 as stated fails: when the connection of task T1 fails, the [error]
    and the [close] handler each start an interval; both fetch the completed
    status, and [handleUploadComplete] runs twice for the one task. *)
Lemma completes_twice :
  let s := run init double_completion_trace in
  completions s = 2%nat /\
  List.filter is_completed (log s)
  = [Completed true (JStr "Successfully processed 500 products");
     Completed true (JStr "Successfully processed 500 products")] /\
  intervals (run init failed_socket_trace)
  = [mkInterval "T1" true; mkInterval "T1" true].
Proof. vm_compute. repeat split. Qed.

(** The same with one interval: two of its fetches are in flight, both are
    answered with the completed status, and the second answer enters
    [handleUploadComplete] again although the first one cleared the
    interval. *)
Lemma pending_answer_completes_again :
  let s := run init (overlapping_trace
                     ++ [PollAnswer 0 (PollOk (completed 500))]) in
  intervals s = [mkInterval "T1" false] /\
  completions s = 1%nat /\
  completions (step s (PollAnswer 0 (PollOk (completed 500)))) = 2%nat.
Proof. vm_compute. repeat split. Qed.

Lemma sockets_handleUploadComplete_eq success message message_json s :
  sockets (handleUploadComplete success message message_json s)
  = match uploadWebSocket s with
    | Some k => sockets (ws_close k (close_with 1000 "Upload completed") s)
    | None => sockets s
    end.
Proof.
  unfold handleUploadComplete, ws_close. fields.
  destruct success; [|destruct (failure_panel message message_json)];
    branches; fields; congruence.
Qed.

(** *** Polling starts from a closed socket *)

Lemma keeps_closed_refl l : keeps_closed l l.
Proof. intros k ws H _. exact H. Qed.

Lemma keeps_closed_trans l1 l2 l3 :
  keeps_closed l1 l2 -> keeps_closed l2 l3 -> keeps_closed l1 l3.
Proof. intros H12 H23 k ws H Hc. apply H23; [apply H12|]; assumption. Qed.

Lemma keeps_closed_app l k : keeps_closed l (l ++ k).
Proof.
  intros j ws H _. rewrite lookup_app_l; [exact H|]. eapply lookup_lt_Some, H.
Qed.

Lemma keeps_closed_insert l j y y' :
  l !! j = Some y -> (readyState y = CLOSED -> y' = y) ->
  keeps_closed l (<[j := y']> l).
Proof.
  intros Hj Hy k ws H Hc. destruct (decide (j = k)) as [->|Hne].
  - rewrite list_lookup_insert_eq by (eapply lookup_lt_Some, H).
    rewrite Hj in H. injection H as <-. rewrite (Hy Hc). reflexivity.
  - rewrite list_lookup_insert_ne by exact Hne. exact H.
Qed.

Lemma keeps_closed_ws_close k call s :
  keeps_closed (sockets s) (sockets (ws_close k call s)).
Proof.
  unfold ws_close. destruct (sockets s !! k) as [ws|] eqn:Hk;
    [|apply keeps_closed_refl].
  fields. eapply keeps_closed_insert; [exact Hk|].
  unfold close_socket. intros ->. reflexivity.
Qed.

Lemma keeps_closed_handleUploadComplete success message message_json s :
  keeps_closed (sockets s)
    (sockets (handleUploadComplete success message message_json s)).
Proof.
  rewrite sockets_handleUploadComplete_eq.
  destruct (uploadWebSocket s);
    [apply keeps_closed_ws_close | apply keeps_closed_refl].
Qed.

Lemma keeps_closed_poll_stopped i s :
  keeps_closed (sockets s) (sockets (poll_stopped i s)).
Proof.
  unfold poll_stopped.
  destruct (clearInterval_frame i s) as (_ & _ & Hs & _).
  destruct (uploadWebSocket (clearInterval i s)) as [k|].
  - rewrite <- Hs. apply keeps_closed_ws_close.
  - rewrite Hs. apply keeps_closed_refl.
Qed.

Lemma keeps_closed_poll_answer i resp s :
  keeps_closed (sockets s) (sockets (poll_answer i resp s)).
Proof.
  destruct resp as [| |task]; try apply keeps_closed_refl.
  destruct (answer_seen_frame task s) as (Hs & _).
  destruct (terminal task) eqn:Ht.
  - destruct (poll_answer_terminal i task s Ht) as (b & m & j & ->).
    eapply keeps_closed_trans; [|apply keeps_closed_handleUploadComplete].
    rewrite <- Hs. apply keeps_closed_poll_stopped.
  - rewrite (poll_answer_continues i task s Ht), Hs. apply keeps_closed_refl.
Qed.

Lemma keeps_closed_onmessage data s :
  keeps_closed (sockets s) (sockets (onmessage data s)).
Proof.
  destruct data as [|id|p r t errs|b m j| |]; cbn [onmessage];
    try apply keeps_closed_refl.
  - destruct (truthy errs && length_positive errs);
      [|apply keeps_closed_refl].
    destruct (displayErrors_frame errs (updateProgress p r t s))
      as (_ & _ & -> & _). apply keeps_closed_refl.
  - apply keeps_closed_handleUploadComplete.
Qed.

Lemma step_keeps_closed s e :
  keeps_closed (sockets s) (sockets (step s e)).
Proof.
  destruct e as [resp|k|k data|k failed code|i resp|i|i resp]; cbn [step].
  - destruct resp; unfold handleFileUpload; fields;
      try apply keeps_closed_refl. apply keeps_closed_app.
  - destruct (sockets s !! k) as [ws|] eqn:Hk; [|apply keeps_closed_refl].
    destruct (readyState ws) eqn:Hr; try apply keeps_closed_refl.
    fields. eapply keeps_closed_insert; [exact Hk|]. congruence.
  - destruct (sockets s !! k) as [ws|]; [|apply keeps_closed_refl].
    destruct (readyState ws); try apply keeps_closed_refl.
    apply keeps_closed_onmessage.
  - destruct (sockets s !! k) as [ws|] eqn:Hk; [|apply keeps_closed_refl].
    unfold onclose, onerror.
    destruct (readyState ws) eqn:Hr; try apply keeps_closed_refl;
      destruct failed; destruct (negb (code =? 1000)%Z); fields;
      (eapply keeps_closed_insert; [exact Hk | congruence]).
  - destruct (intervals s !! i) as [iv|]; [|apply keeps_closed_refl].
    destruct (iv_active iv); [|apply keeps_closed_refl].
    apply (keeps_closed_poll_answer i resp (poll_request (iv_task iv) s)).
  - destruct (intervals s !! i) as [iv|]; [|apply keeps_closed_refl].
    destruct (iv_active iv); apply keeps_closed_refl.
  - destruct (awaited i s); [|apply keeps_closed_refl].
    apply (keeps_closed_poll_answer i resp
             (set_pending (settle i (pending s)) s)).
Qed.

Lemma closed_socket_step taskId s e :
  closed_socket taskId s -> closed_socket taskId (step s e).
Proof.
  intros (k & ws & Hk & Ht & Hc). exists k, ws.
  split; [|split; assumption]. apply step_keeps_closed; assumption.
Qed.

(** The answer of a fetch leaves every interval with its task. *)
Lemma intervals_poll_answer_tasks i resp s j iv' :
  intervals (poll_answer i resp s) !! j = Some iv' ->
  exists iv, intervals s !! j = Some iv /\ iv_task iv = iv_task iv'.
Proof.
  destruct resp as [| |task];
    try (intros H; exists iv'; split; [exact H | reflexivity]).
  destruct (terminal task) eqn:Ht.
  - destruct (intervals s !! i) as [iv|] eqn:Hi.
    + rewrite (intervals_poll_answer_terminal i task iv s Hi Ht).
      destruct (decide (i = j)) as [->|Hne].
      * rewrite list_lookup_insert_eq by (eapply lookup_lt_Some, Hi).
        intros H. injection H as <-. exists iv. split; [exact Hi | reflexivity].
      * rewrite list_lookup_insert_ne by exact Hne.
        intros H. exists iv'. split; [exact H | reflexivity].
    + destruct (poll_answer_terminal i task s Ht) as (b & m & x & ->).
      destruct (handleUploadComplete_frame b m x
                  (poll_stopped i (answer_seen task s))) as (-> & _).
      destruct (poll_stopped_frame i (answer_seen task s)) as (_ & _ & ->).
      destruct (answer_seen_frame task s) as (_ & Hiv & _).
      unfold clearInterval. rewrite Hiv, Hi, Hiv.
      intros H. exists iv'. split; [exact H | reflexivity].
  - rewrite (poll_answer_continues i task s Ht).
    destruct (answer_seen_frame task s) as (_ & -> & _).
    intros H. exists iv'. split; [exact H | reflexivity].
Qed.

(** The close of a socket that was not yet closed: the socket is closed,
    and the intervals it starts are for its task. *)
Lemma intervals_after_close s k ws failed code :
  sockets s !! k = Some ws -> readyState ws <> CLOSED ->
  intervals (step s (WsClosed k failed code))
  = intervals s
    ++ (if failed then [mkInterval (ws_task ws) true] else [])
    ++ (if (code =? 1000)%Z then [] else [mkInterval (ws_task ws) true]) /\
  sockets (step s (WsClosed k failed code))
  = <[k := set_ready CLOSED ws]> (sockets s).
Proof.
  intros Hk Hopen. unfold step. rewrite Hk.
  unfold onclose, onerror.
  destruct (readyState ws); try congruence;
    destruct failed; destruct (code =? 1000)%Z; cbn [negb]; fields;
    rewrite <- ?app_assoc, ?app_nil_r; split; reflexivity.
Qed.

Lemma polled_after_close_step s e :
  polled_after_close s -> polled_after_close (step s e).
Proof.
  intros Inv j iv' Hj.
  assert (Hold : forall iv, intervals s !! j = Some iv ->
                            iv_task iv = iv_task iv' ->
                            closed_socket (iv_task iv') (step s e)).
  { intros iv Hiv <-. apply closed_socket_step, (Inv j iv Hiv). }
  destruct e as [resp|k|k data|k failed code|i resp|i|i resp].
  - apply (Hold iv'); [|reflexivity].
    cbn [step] in Hj. destruct resp; exact Hj.
  - apply (Hold iv'); [|reflexivity].
    cbn [step] in Hj. destruct (sockets s !! k) as [ws|]; [|exact Hj].
    destruct (readyState ws); exact Hj.
  - apply (Hold iv'); [|reflexivity].
    cbn [step] in Hj. destruct (sockets s !! k) as [ws|]; [|exact Hj].
    destruct (readyState ws); try exact Hj.
    destruct (onmessage_frame data s) as (Hi & _). rewrite Hi in Hj. exact Hj.
  - destruct (sockets s !! k) as [ws|] eqn:Hk.
    + assert (Hdec : readyState ws = CLOSED \/ readyState ws <> CLOSED)
        by (destruct (readyState ws); auto; right; discriminate).
      destruct Hdec as [Hc|Hopen].
      * apply (Hold iv'); [|reflexivity].
        cbn [step] in Hj. rewrite Hk, Hc in Hj. exact Hj.
      * destruct (intervals_after_close s k ws failed code Hk Hopen)
          as (Hi & Hs).
        rewrite Hi in Hj. apply lookup_app_Some in Hj as [Hj|[_ Hj]].
        { apply (Hold iv'); [exact Hj | reflexivity]. }
        assert (Htask : iv_task iv' = ws_task ws).
        { destruct (j - length (intervals s))%nat as [|[|n]];
            destruct failed; destruct (code =? 1000)%Z; cbn in Hj;
            try discriminate Hj; injection Hj as <-; reflexivity. }
        exists k, (set_ready CLOSED ws). rewrite Hs, Htask.
        split; [|split; reflexivity].
        apply list_lookup_insert_eq. eapply lookup_lt_Some, Hk.
    + apply (Hold iv'); [|reflexivity].
      cbn [step] in Hj. rewrite Hk in Hj. exact Hj.
  - cbn [step] in Hj. destruct (intervals s !! i) as [iv|];
      [|apply (Hold iv'); [exact Hj | reflexivity]].
    destruct (iv_active iv); [|apply (Hold iv'); [exact Hj | reflexivity]].
    apply intervals_poll_answer_tasks in Hj as (iv0 & Hiv0 & Ht0).
    apply (Hold iv0); assumption.
  - apply (Hold iv'); [|reflexivity].
    cbn [step] in Hj. destruct (intervals s !! i) as [iv|]; [|exact Hj].
    destruct (iv_active iv); exact Hj.
  - cbn [step] in Hj. destruct (awaited i s);
      [|apply (Hold iv'); [exact Hj | reflexivity]].
    apply intervals_poll_answer_tasks in Hj as (iv0 & Hiv0 & Ht0).
    apply (Hold iv0); assumption.
Qed.

Lemma polled_after_close_run es : forall s,
  polled_after_close s -> polled_after_close (run s es).
Proof.
  induction es as [|e es IH]; intros s Inv; [exact Inv|].
  apply (IH (step s e)), polled_after_close_step, Inv.
Qed.

Lemma polled_after_close_init : polled_after_close init.
Proof. intros i iv H. discriminate H. Qed.

(** When no two sockets were opened for one task, the sockets of a task
    with a closed socket are that one socket. *)
Lemma only_socket_closed taskId s k ws :
  NoDup (map ws_task (sockets s)) ->
  closed_socket taskId s ->
  sockets s !! k = Some ws -> ws_task ws = taskId ->
  readyState ws = CLOSED.
Proof.
  intros Hnd (k0 & ws0 & Hk0 & Ht0 & Hc0) Hk Ht.
  assert (k = k0).
  { apply (NoDup_lookup (map ws_task (sockets s)) k k0 taskId Hnd).
    - change (map ws_task (sockets s)) with (ws_task <$> sockets s).
      rewrite list_lookup_fmap, Hk. cbn. rewrite Ht. reflexivity.
    - change (map ws_task (sockets s)) with (ws_task <$> sockets s).
      rewrite list_lookup_fmap, Hk0. cbn. rewrite Ht0. reflexivity. }
  subst k0. congruence.
Qed.

(** C5, as the code has it.  When a fetch of a polling loop is answered with
    a terminal status, [handleUploadComplete] is entered once for that
    answer and the interval of the loop is cleared and nothing else is done
    to the intervals: the loop sends no further request, and no other loop
    is started.  No socket needs closing for it: the socket whose [error] or
    [close] event started the loop is closed by then, and when no second
    socket was opened for the same task identifier, no socket of the task is
    open and none is touched. *)
Theorem terminal_poll_stops_its_loop (es : list Event) (i : nat) (e : Event) :
  let s := run init es in
  answers i e = true ->
  completes s e = true ->
  exists iv,
    intervals s !! i = Some iv /\
    completions (step s e) = S (completions s) /\
    intervals (step s e) = <[i := clear iv]> (intervals s) /\
    (forall es',
       let t := run (step s e) es' in
       step t (PollFire i) = t /\ forall resp, step t (PollTick i resp) = t) /\
    closed_socket (iv_task iv) s /\
    (NoDup (map ws_task (sockets s)) ->
     forall k ws, sockets s !! k = Some ws -> ws_task ws = iv_task iv ->
       readyState ws = CLOSED /\ sockets (step s e) !! k = Some ws).
Proof.
  intros s Ha Hc.
  assert (Inv : polled_after_close s)
    by apply polled_after_close_run, polled_after_close_init.
  assert (Hiv : exists iv, intervals s !! i = Some iv /\
                           intervals (step s e) = <[i := clear iv]> (intervals s)).
  { destruct e as [resp|k|k data|k failed code|j resp|j|j resp];
      try discriminate Ha; cbn [answers] in Ha;
      apply Nat.eqb_eq in Ha; subst j;
      destruct resp as [| |task]; try discriminate Hc;
      cbn [completes] in Hc.
    - destruct (intervals s !! i) as [iv|] eqn:Hi; [|discriminate Hc].
      apply andb_true_iff in Hc as [Hact Ht].
      exists iv. split; [reflexivity|].
      cbn [step]. rewrite Hi, Hact. unfold poll_tick.
      apply (intervals_poll_answer_terminal i task iv
               (poll_request (iv_task iv) s)); assumption.
    - apply andb_true_iff in Hc as [Hw Ht].
      cbn [step]. rewrite Hw. unfold awaited in Hw.
      destruct (intervals s !! i) as [iv|] eqn:Hi; [|discriminate Hw].
      exists iv. split; [reflexivity|].
      apply (intervals_poll_answer_terminal i task iv
               (set_pending (settle i (pending s)) s)); assumption. }
  destruct Hiv as (iv & Hi & Hstep). exists iv.
  split; [exact Hi|].
  split; [rewrite completions_step, Hc; reflexivity|].
  split; [exact Hstep|].
  assert (Hcl : intervals (step s e) !! i = Some (clear iv)).
  { rewrite Hstep. apply list_lookup_insert_eq. eapply lookup_lt_Some, Hi. }
  split.
  { intros es' t.
    destruct (proj2 (run_grows (step s e) es') i (clear iv) Hcl)
      as (iv' & Hi' & Hc').
    split; [eapply step_dead_fire; eauto|].
    intros resp. eapply step_dead_interval; eauto. }
  split; [apply (Inv i iv Hi)|].
  intros Hnd k ws Hk Ht.
  assert (Hclosed : readyState ws = CLOSED)
    by (eapply only_socket_closed; eauto).
  split; [exact Hclosed|]. apply step_keeps_closed; assumption.
Qed.

Lemma terminal_poll_stops_its_loop_witness :
  let s := run init failed_socket_trace in
  let e := PollTick 0 (PollOk (completed 500)) in
  exists iv,
    intervals s !! 0%nat = Some iv /\
    completions (step s e) = S (completions s) /\
    intervals (step s e) = <[0%nat := clear iv]> (intervals s) /\
    (forall es',
       let t := run (step s e) es' in
       step t (PollFire 0) = t /\ forall resp, step t (PollTick 0 resp) = t) /\
    closed_socket (iv_task iv) s /\
    (NoDup (map ws_task (sockets s)) ->
     forall k ws, sockets s !! k = Some ws -> ws_task ws = iv_task iv ->
       readyState ws = CLOSED /\ sockets (step s e) !! k = Some ws).
Proof.
  apply (terminal_poll_stops_its_loop failed_socket_trace 0
           (PollTick 0 (PollOk (completed 500)))); reflexivity.
Defined.

(** C5 as stated fails: when the connection of task T1 fails, two loops poll
    it.  The first to fetch the completed status enters
    [handleUploadComplete] and clears its own interval; the other one is
    still live, sends the next request for T1 and, on the same status,
    enters [handleUploadComplete] again. *)
Lemma polling_goes_on_after_completion :
  let s := run init failed_socket_trace in
  let s1 := step s (PollTick 0 (PollOk (completed 500))) in
  completions s1 = 1%nat /\
  intervals s1 = [mkInterval "T1" false; mkInterval "T1" true] /\
  polling "T1" s1 = 1%nat /\
  log (step s1 (PollFire 1))
  = log s1 ++ [Fetch "GET" "http://localhost:8000/api/upload/task/T1"] /\
  completions (step s1 (PollTick 1 (PollOk (completed 500)))) = 2%nat.
Proof. vm_compute. repeat split. Qed.

End UploadFacts.

(** ** Properties of the delete-all confirmation *)

Module ProductsFacts.
Import Js Products.

Ltac fields :=
  cbn [confirm_input confirm_disabled confirm_label modal_shown select_all
       currentPage log emit showToast set_input set_button set_modal
       closeDeleteAllModal openDeleteAllModal delete_failed] in *.

Lemma delete_requests_emit e s :
  delete_requests (emit e s)
  = (delete_requests s + if is_delete_all e then 1 else 0)%nat.
Proof.
  unfold delete_requests. fields. rewrite List.filter_app, length_app. simpl.
  destruct (is_delete_all e); reflexivity.
Qed.

(** C10.  Typing leaves the confirm button enabled exactly when the trimmed
    input is [DELETE]; [performDeleteAll] called with any other input
    returns at once, changing nothing; and a call sends one delete-all
    request when the trimmed input is [DELETE], none otherwise. *)
Theorem delete_all_needs_typed_confirmation (s : State) (typed : string)
    (resp : DeleteResponse) :
  confirm_disabled (step s (Typed typed))
  = negb (String.eqb (trim typed) "DELETE") /\
  (trim (confirm_input s) <> "DELETE" -> performDeleteAll resp s = s) /\
  delete_requests (performDeleteAll resp s)
  = (delete_requests s
     + if String.eqb (trim (confirm_input s)) "DELETE" then 1 else 0)%nat.
Proof.
  split; [reflexivity|]. split.
  - intros H. unfold performDeleteAll.
    apply String.eqb_neq in H. rewrite H. reflexivity.
  - unfold performDeleteAll.
    destruct (String.eqb (trim (confirm_input s)) "DELETE"); cbn [negb].
    + destruct resp; fields; unfold delete_requests; fields;
        rewrite !List.filter_app, !length_app; simpl; lia.
    + lia.
Qed.

Lemma delete_all_needs_typed_confirmation_witness :
  let s := mkState "delete" false "Delete All" true false 1 [] in
  confirm_disabled (step s (Typed "  DELETE ")) = false /\
  performDeleteAll (DeleteOk (JNum 3)) s = s /\
  delete_requests (performDeleteAll (DeleteOk (JNum 3)) s) = 0%nat.
Proof.
  destruct (delete_all_needs_typed_confirmation
              (mkState "delete" false "Delete All" true false 1 [])
              "  DELETE " (DeleteOk (JNum 3))) as (H1 & H2 & H3).
  split; [exact H1|]. split; [|exact H3].
  apply H2. vm_compute. discriminate.
Defined.

(** Along any sequence of user actions the confirm button is enabled only
    while the trimmed input is [DELETE]. *)
Lemma enabled_only_when_confirmed (s : State) (e : Event) :
  (confirm_disabled s = false -> trim (confirm_input s) = "DELETE") ->
  confirm_disabled (step s e) = false ->
  trim (confirm_input (step s e)) = "DELETE".
Proof.
  intros Inv. destruct e as [| |typed|resp]; cbn [step].
  - unfold openDeleteAllModal. fields. discriminate.
  - exact Inv.
  - unfold onDeleteAllInput. fields. intros H.
    apply negb_false_iff, String.eqb_eq in H. exact H.
  - destruct (confirm_disabled s) eqn:Hd; [congruence|].
    unfold performDeleteAll.
    destruct (String.eqb (trim (confirm_input s)) "DELETE") eqn:Ht; cbn [negb].
    + apply String.eqb_eq in Ht. intros _. destruct resp; fields; exact Ht.
    + intros _. apply Inv. reflexivity.
Qed.

End ProductsFacts.

(** ** Properties of the rest of the upload page *)

Module PageFacts.
Import Js Upload Page UploadFacts.

(** *** After completion *)

Lemma displayErrors_idle errors s :
  currentUploadTaskId s = None -> displayErrors errors s = s.
Proof.
  intros H. unfold displayErrors, task_in_flight. rewrite H.
  destruct errors; reflexivity.
Qed.

Lemma idle_handleUploadComplete success message message_json s :
  idle (handleUploadComplete success message message_json s).
Proof.
  unfold idle, handleUploadComplete. fields.
  destruct success; [|destruct (failure_panel message message_json)];
    branches; repeat split; solve [reflexivity | assumption].
Qed.

Lemma idle_answer_seen task s : idle s -> idle (answer_seen task s).
Proof.
  intros (Ht & Hu & He). unfold answer_seen.
  destruct (truthy (errors task)); [destruct (errors_json task)|];
    rewrite ?displayErrors_idle by exact Ht; unfold idle; fields;
    repeat split; assumption.
Qed.

Lemma idle_poll_answer i resp s : idle s -> idle (poll_answer i resp s).
Proof.
  intros Hidle. destruct resp as [| |task]; try exact Hidle.
  destruct (terminal task) eqn:Hterm.
  - destruct (poll_answer_terminal i task s Hterm) as (b & m & j & ->).
    apply idle_handleUploadComplete.
  - rewrite (poll_answer_continues i task s Hterm).
    apply idle_answer_seen, Hidle.
Qed.

Lemma idle_step s e : idle s -> starts_no_upload e = true -> idle (step s e).
Proof.
  intros Hidle He. pose proof Hidle as (Ht & Hu & Herr).
  destruct e as [resp|k|k data|k failed code|i resp|i|i resp]; cbn [step].
  - destruct resp; try discriminate He; unfold handleFileUpload, idle; fields;
      repeat split; assumption || reflexivity.
  - destruct (sockets s !! k) as [ws|]; [|exact Hidle].
    destruct (readyState ws); exact Hidle.
  - destruct (sockets s !! k) as [ws|]; [|exact Hidle].
    destruct (readyState ws); try exact Hidle.
    destruct data as [|tid|p r t errs|b m j| |]; cbn [onmessage];
      try exact Hidle; [|apply idle_handleUploadComplete].
    destruct (truthy errs && length_positive errs);
      rewrite ?displayErrors_idle by exact Ht; unfold idle; fields;
      repeat split; assumption.
  - destruct (sockets s !! k) as [ws|]; [|exact Hidle].
    unfold onclose, onerror.
    destruct (readyState ws); try exact Hidle;
      destruct failed; destruct (negb (code =? 1000)%Z); unfold idle; fields;
      repeat split; assumption.
  - destruct (intervals s !! i) as [iv|]; [|exact Hidle].
    destruct (iv_active iv); [|exact Hidle].
    apply idle_poll_answer. unfold idle. fields. repeat split; assumption.
  - destruct (intervals s !! i) as [iv|]; [|exact Hidle].
    destruct (iv_active iv); [|exact Hidle].
    unfold idle. fields. repeat split; assumption.
  - destruct (awaited i s); [|exact Hidle].
    apply idle_poll_answer. unfold idle. fields. repeat split; assumption.
Qed.

Lemma idle_run s es :
  idle s -> forallb starts_no_upload es = true -> idle (run s es).
Proof.
  revert s. induction es as [|e es IH]; intros s Hs Hes; [exact Hs|].
  cbn [forallb] in Hes. apply andb_true_iff in Hes as [He Hes].
  cbn [run fold_left]. apply IH; [apply idle_step; assumption | exact Hes].
Qed.

(** X1.  Once [handleUploadComplete] has run, the error display stays empty
    and no task is current, whatever arrives afterwards (progress frames and
    fetched statuses that carry errors, late terminal events), until another
    upload is accepted. *)
Theorem errors_stay_cleared_after_completion (s : State) (success : bool)
    (message : JsVal) (message_json : option JsVal) (es : list Event) :
  forallb starts_no_upload es = true ->
  let s' := run (handleUploadComplete success message message_json s) es in
  upload_errors s' = EmptyString /\
  currentUploadTaskId s' = None /\
  uploadWebSocket s' = None.
Proof.
  intros Hes s'.
  destruct (idle_run _ es
              (idle_handleUploadComplete success message message_json s) Hes)
    as (Ht & Hu & He).
  repeat split; assumption.
Qed.

Lemma errors_stay_cleared_after_completion_witness :
  let s' := run (handleUploadComplete true (JStr "done") None
                   (run init failed_socket_trace))
              [PollTick 1 (PollOk with_row_error)] in
  upload_errors s' = EmptyString /\
  currentUploadTaskId s' = None /\
  uploadWebSocket s' = None.
Proof.
  apply (errors_stay_cleared_after_completion (run init failed_socket_trace)
           true (JStr "done") None [PollTick 1 (PollOk with_row_error)]).
  reflexivity.
Defined.

(** *** Keepalive *)

Lemma open_socket_idle s : idle s -> open_socket s = None.
Proof. intros (_ & Hu & _). unfold open_socket. rewrite Hu. reflexivity. Qed.

Lemma tick_idle b t :
  idle (page b) -> starts_no_upload_tick t = true ->
  idle (page (tick b t)) /\ sent (tick b t) = sent b.
Proof.
  intros Hidle Ht. destruct t as [e|j]; cbn [tick page sent].
  - split; [apply idle_step; assumption | reflexivity].
  - destruct (pings b !! j) as [[|]|]; try (split; [exact Hidle | reflexivity]).
    unfold ping_tick. rewrite (open_socket_idle _ Hidle).
    split; [exact Hidle | reflexivity].
Qed.

Lemma pings_tick_idle b t j :
  idle (page b) -> starts_no_upload_tick t = true ->
  pings b !! j <> Some true -> pings (tick b t) !! j <> Some true.
Proof.
  intros Hidle Ht Hj. destruct t as [e|j']; cbn [tick pings].
  - destruct e as [[| |]| | | | | |]; try discriminate Ht; exact Hj.
  - destruct (pings b !! j') as [[|]|] eqn:Hj'; try exact Hj.
    unfold ping_tick. rewrite (open_socket_idle _ Hidle). cbn [pings].
    destruct (decide (j' = j)) as [->|Hne].
    + congruence.
    + rewrite list_lookup_insert_ne by exact Hne. exact Hj.
Qed.

Lemma ping_tick_clears b j :
  idle (page b) -> pings (tick b (PingTick j)) !! j <> Some true.
Proof.
  intros Hidle. cbn [tick].
  destruct (pings b !! j) as [[|]|] eqn:Hj; try congruence.
  unfold ping_tick. rewrite (open_socket_idle _ Hidle). cbn [pings].
  rewrite list_lookup_insert_eq by (eapply lookup_lt_Some, Hj). discriminate.
Qed.

(** X2.  While nothing is in flight (as after [handleUploadComplete]) no
    keepalive [ping] is sent, whatever happens short of a new accepted
    upload, and every timer that ticks in that time is cleared by its tick
    and stays so. *)
Theorem no_ping_while_idle (b : Browser) (ts : list Tick) :
  idle (page b) ->
  forallb starts_no_upload_tick ts = true ->
  sent (play b ts) = sent b /\
  idle (page (play b ts)) /\
  forall j, In (PingTick j) ts -> pings (play b ts) !! j <> Some true.
Proof.
  intros Hidle. induction ts as [|t ts IH] using rev_ind; intros Hts.
  - split; [reflexivity|]. split; [exact Hidle | intros j []].
  - rewrite forallb_app in Hts. apply andb_true_iff in Hts as [Hts Ht].
    cbn [forallb] in Ht. rewrite andb_true_r in Ht.
    destruct (IH Hts) as (Hsent & Hidle' & Hpings).
    unfold play in *. rewrite fold_left_app. cbn [fold_left].
    destruct (tick_idle _ t Hidle' Ht) as [Hidle'' Hsent''].
    split; [congruence|]. split; [exact Hidle''|].
    intros j Hin. apply in_app_iff in Hin as [Hin|[->|[]]].
    + apply pings_tick_idle; auto.
    + apply ping_tick_clears. exact Hidle'.
Qed.

Lemma no_ping_while_idle_witness :
  let b := mkBrowser (handleUploadComplete true (JStr "done") None
                        (page connected))
             (pings connected) (sent connected) in
  let ts := [PingTick 0; PageEvent (WsClosed 0 false 1000); PingTick 0] in
  sent (play b ts) = [] /\
  idle (page (play b ts)) /\
  forall j, In (PingTick j) ts -> pings (play b ts) !! j <> Some true.
Proof.
  apply (no_ping_while_idle
           (mkBrowser (handleUploadComplete true (JStr "done") None
                         (page connected))
              (pings connected) (sent connected))
           [PingTick 0; PageEvent (WsClosed 0 false 1000); PingTick 0]).
  - vm_compute. repeat split.
  - reflexivity.
Defined.

Lemma accepted_upload_frame taskId s :
  let s1 := step s (Upload (UploadAccepted taskId)) in
  sockets s1 = sockets s ++ [mkWebSocket taskId CONNECTING None] /\
  uploadWebSocket s1 = Some (length (sockets s)) /\
  currentUploadTaskId s1 = Some taskId /\
  intervals s1 = intervals s /\
  completions s1 = completions s.
Proof.
  cbn [step]. unfold handleFileUpload, completions. fields.
  repeat split. rewrite List.filter_app. cbn. rewrite app_nil_r. reflexivity.
Qed.

(** X3.  A keepalive timer is not tied to the socket it was started for: once
    another upload is accepted and its socket opens, every timer still live,
    old or new, sends its [ping] on that latest socket. *)
Theorem keepalive_follows_latest_socket (b : Browser) (j : nat)
    (taskId : string) :
  pings b !! j = Some true ->
  let k := length (sockets (page b)) in
  let b' := play b [PageEvent (Upload (UploadAccepted taskId));
                    PageEvent (WsOpen k)] in
  sockets (page b') !! k = Some (mkWebSocket taskId OPEN None) /\
  sent (tick b' (PingTick j)) = sent b ++ [k] /\
  sent (tick b' (PingTick (length (pings b)))) = sent b ++ [k].
Proof.
  intros Hj k b'.
  destruct (accepted_upload_frame taskId (page b)) as (Hs1 & Hu1 & _).
  set (s1 := step (page b) (Upload (UploadAccepted taskId))) in *.
  assert (Hk1 : sockets s1 !! k = Some (mkWebSocket taskId CONNECTING None)).
  { rewrite Hs1. apply list_lookup_middle. reflexivity. }
  assert (Hpage : page b'
                  = set_sockets (<[k := mkWebSocket taskId OPEN None]> (sockets s1))
                      s1).
  { subst b'. cbn [play fold_left tick page]. fold s1. cbn [step].
    rewrite Hk1. reflexivity. }
  assert (Hk : sockets (page b') !! k = Some (mkWebSocket taskId OPEN None)).
  { rewrite Hpage. fields. apply list_lookup_insert_eq.
    eapply lookup_lt_Some, Hk1. }
  assert (Hopen : open_socket (page b') = Some k).
  { unfold open_socket. rewrite Hpage at 1. fields. rewrite Hu1. fold k.
    rewrite Hk. reflexivity. }
  assert (Hpings : pings b' = pings b ++ [true]) by reflexivity.
  assert (Hsent : sent b' = sent b) by reflexivity.
  split; [exact Hk|]. split.
  - cbn [tick]. rewrite Hpings, lookup_app_l by (eapply lookup_lt_Some, Hj).
    rewrite Hj. unfold ping_tick. rewrite Hopen. cbn [sent]. congruence.
  - cbn [tick]. rewrite Hpings, list_lookup_middle by reflexivity.
    unfold ping_tick. rewrite Hopen. cbn [sent]. congruence.
Qed.

Lemma keepalive_follows_latest_socket_witness :
  let b' := play connected [PageEvent (Upload (UploadAccepted "T2"));
                            PageEvent (WsOpen 1)] in
  sockets (page b') !! 1%nat = Some (mkWebSocket "T2" OPEN None) /\
  sent (tick b' (PingTick 0)) = [1%nat] /\
  sent (tick b' (PingTick 1)) = [1%nat].
Proof.
  apply (keepalive_follows_latest_socket connected 0 "T2"). reflexivity.
Defined.

(** X9.  [handleUploadComplete] closes the socket held in [uploadWebSocket],
    not the one whose frame it handles: when an upload is accepted while an
    earlier socket is still open, a [complete] frame on the earlier socket
    closes the new socket with code 1000 and clears the new task, and the
    earlier socket stays open. *)
Theorem completion_closes_the_latest_socket (s : State) (k : nat)
    (ws : WebSocket) (taskId : string) (success : bool) (message : JsVal)
    (message_json : option JsVal) :
  sockets s !! k = Some ws ->
  readyState ws = OPEN ->
  let n := length (sockets s) in
  let s1 := step s (Upload (UploadAccepted taskId)) in
  let s2 := step s1 (WsMessage k (FComplete success message message_json)) in
  currentUploadTaskId s1 = Some taskId /\
  uploadWebSocket s1 = Some n /\
  sockets s2 !! k = Some ws /\
  sockets s2 !! n
  = Some (mkWebSocket taskId CLOSING (Some (close_with 1000 "Upload completed"))) /\
  currentUploadTaskId s2 = None /\
  uploadWebSocket s2 = None /\
  completions s2 = S (completions s).
Proof.
  intros Hk Hopen n s1 s2.
  destruct (accepted_upload_frame taskId s) as (Hs1 & Hu1 & Ht1 & _ & Hc1).
  fold s1 in Hs1, Hu1, Ht1, Hc1. fold n in Hu1.
  assert (Hlt : (k < n)%nat) by (eapply lookup_lt_Some, Hk).
  assert (Hk1 : sockets s1 !! k = Some ws).
  { rewrite Hs1, lookup_app_l by exact Hlt. exact Hk. }
  assert (Hn1 : sockets s1 !! n = Some (mkWebSocket taskId CONNECTING None)).
  { rewrite Hs1. apply list_lookup_middle. reflexivity. }
  assert (Hstep : s2 = handleUploadComplete success message message_json s1).
  { subst s2. cbn [step]. rewrite Hk1, Hopen. reflexivity. }
  assert (Hsock : sockets s2
                  = <[n := mkWebSocket taskId CLOSING
                             (Some (close_with 1000 "Upload completed"))]>
                      (sockets s1)).
  { rewrite Hstep, sockets_handleUploadComplete_eq, Hu1.
    unfold ws_close. rewrite Hn1. reflexivity. }
  split; [exact Ht1|]. split; [exact Hu1|].
  split; [rewrite Hsock, list_lookup_insert_ne by lia; exact Hk1|].
  split; [rewrite Hsock; apply list_lookup_insert_eq;
          eapply lookup_lt_Some, Hn1|].
  rewrite Hstep.
  destruct (idle_handleUploadComplete success message message_json s1)
    as (-> & -> & _).
  rewrite completions_handleUploadComplete, Hc1. repeat split.
Qed.

Lemma completion_closes_the_latest_socket_witness :
  let s := run init progress_trace in
  let s1 := step s (Upload (UploadAccepted "T2")) in
  let s2 := step s1 (WsMessage 0 (FComplete true (JStr "done") None)) in
  currentUploadTaskId s1 = Some "T2" /\
  uploadWebSocket s1 = Some 1%nat /\
  sockets s2 !! 0%nat = Some (mkWebSocket "T1" OPEN None) /\
  sockets s2 !! 1%nat
  = Some (mkWebSocket "T2" CLOSING (Some (close_with 1000 "Upload completed"))) /\
  currentUploadTaskId s2 = None /\
  uploadWebSocket s2 = None /\
  completions s2 = 1%nat.
Proof.
  apply (completion_closes_the_latest_socket (run init progress_trace) 0
           (mkWebSocket "T1" OPEN None) "T2" true (JStr "done") None);
    reflexivity.
Defined.

(** *** The drop zone *)

Lemma endsWith_spec (suffix s : string) :
  endsWith suffix s = true <-> exists stem, s = stem +:+ suffix.
Proof.
  split.
  - induction s as [|c s IH]; cbn [endsWith]; intros H;
      apply orb_true_iff in H as [H|H].
    + apply String.eqb_eq in H. exists EmptyString. exact H.
    + discriminate H.
    + apply String.eqb_eq in H. exists EmptyString. exact H.
    + destruct (IH H) as [stem ->]. exists (String c stem). reflexivity.
  - intros [stem ->]. induction stem as [|c stem IH].
    + change (EmptyString +:+ suffix) with suffix.
      destruct suffix; cbn [endsWith]; rewrite String.eqb_refl; reflexivity.
    + rewrite append_cons. cbn [endsWith]. rewrite IH. apply orb_true_r.
Qed.

Lemma posts_handleFileUpload resp s :
  posts (handleFileUpload resp s) = S (posts s).
Proof.
  unfold posts, handleFileUpload.
  destruct resp; fields; rewrite !List.filter_app, !length_app;
    cbn [List.filter is_post length]; rewrite !String.eqb_refl; cbn; lia.
Qed.

(** X7.  A dropped file is submitted exactly when its name is some stem
    followed by [.csv] (in lower case): any other drop sends nothing and
    only asks for a CSV file.  The file chooser submits whatever file is
    chosen. *)
Theorem drop_requires_csv_suffix (name : string) (resp : UploadResponse)
    (s : State) :
  ((exists stem, name = stem +:+ ".csv") ->
     posts (onDrop (Some name) resp s) = S (posts s)) /\
  ((forall stem, name <> stem +:+ ".csv") ->
     onDrop (Some name) resp s = showToast "Please upload a CSV file" "error" s) /\
  posts (onChange (Some name) resp s) = S (posts s).
Proof.
  unfold onDrop, onChange. split; [|split].
  - intros H. apply endsWith_spec in H. rewrite H.
    rewrite posts_handleFileUpload. reflexivity.
  - intros H. destruct (endsWith ".csv" name) eqn:E; [|reflexivity].
    apply endsWith_spec in E as [stem ->]. destruct (H stem eq_refl).
  - rewrite posts_handleFileUpload. reflexivity.
Qed.

Lemma drop_requires_csv_suffix_witness :
  posts (onDrop (Some "products.csv") (UploadAccepted "T1") init) = 1%nat /\
  onDrop (Some "PRODUCTS.CSV") (UploadAccepted "T1") init
  = showToast "Please upload a CSV file" "error" init.
Proof.
  split.
  - apply (proj1 (drop_requires_csv_suffix "products.csv"
                    (UploadAccepted "T1") init)).
    exists "products". reflexivity.
  - apply (proj1 (proj2 (drop_requires_csv_suffix "PRODUCTS.CSV"
                           (UploadAccepted "T1") init))).
    intros stem H. apply (f_equal (endsWith ".csv")) in H.
    rewrite (proj2 (endsWith_spec ".csv" (stem +:+ ".csv"))) in H
      by (exists stem; reflexivity).
    vm_compute in H. discriminate H.
Defined.

(** *** The products tab *)

Lemma loads_emit e s :
  loads (emit e s) = (loads s + if is_load e then 1 else 0)%nat.
Proof.
  unfold loads. fields. rewrite List.filter_app, length_app.
  destruct e; reflexivity.
Qed.

Lemma success_completion s tab message message_json :
  products_tab s = Some tab ->
  let s1 := handleUploadComplete true message message_json s in
  recentUpload s1 = true /\
  products_tab s1
  = Some (if tab_active tab then tab
          else mkTab false true "New products available - click to view") /\
  log s1 = log s ++ [Completed true message;
                     Toast "Upload completed successfully!" "success";
                     LoadProducts].
Proof.
  intros Htab. unfold handleUploadComplete, ws_close. fields.
  destruct (uploadWebSocket s) as [k|]; [destruct (sockets s !! k)|];
    fields; rewrite Htab; destruct (tab_active tab) eqn:Ha; fields;
    rewrite <- ?app_assoc, ?Htab, ?Ha; repeat split; reflexivity.
Qed.

Lemma clickTab_products s tab :
  products_tab s = Some tab ->
  recentUpload (clickTab "products" s) = false /\
  products_tab (clickTab "products" s) = Some (mkTab true false EmptyString) /\
  loads (clickTab "products" s) = S (loads s).
Proof.
  intros Htab. unfold clickTab. rewrite Htab.
  change (String.eqb "products" "products") with true. cbv iota.
  split; [reflexivity|]. split; [reflexivity|].
  unfold loads. fields. rewrite List.filter_app, length_app. cbn. lia.
Qed.

Lemma clickTab_other s tab other :
  products_tab s = Some tab ->
  String.eqb other "products" = false ->
  recentUpload (clickTab other s) = recentUpload s /\
  products_tab (clickTab other s)
  = Some (mkTab false (tab_has_updates tab) (tab_title tab)).
Proof.
  intros Htab Hother. unfold clickTab. rewrite Htab, Hother.
  split; reflexivity.
Qed.

(** X8.  A successful completion raises [recentUpload] and, unless the
    products tab is the active one, marks its button as having updates; a
    click on any other tab leaves both as they are, and the click on the
    products tab takes both away; [loadProducts] is called once by the
    completion and once by that click. *)
Theorem products_tab_click_clears_update_mark (s : State) (tab : Tab)
    (message : JsVal) (message_json : option JsVal) (other : string) :
  products_tab s = Some tab ->
  String.eqb other "products" = false ->
  let s1 := handleUploadComplete true message message_json s in
  let s2 := clickTab "products" s1 in
  recentUpload s1 = true /\
  products_tab s1
  = Some (if tab_active tab then tab
          else mkTab false true "New products available - click to view") /\
  loads s1 = S (loads s) /\
  recentUpload (clickTab other s1) = true /\
  (tab_active tab = false ->
     products_tab (clickTab other s1) = products_tab s1) /\
  recentUpload s2 = false /\
  products_tab s2 = Some (mkTab true false EmptyString) /\
  loads s2 = S (S (loads s)).
Proof.
  intros Htab Hother s1 s2.
  destruct (success_completion s tab message message_json Htab)
    as (Hr1 & Ht1 & Hlog1).
  fold s1 in Hr1, Ht1, Hlog1.
  assert (Hl1 : loads s1 = S (loads s)).
  { unfold loads. rewrite Hlog1, List.filter_app, length_app. cbn. lia. }
  destruct (clickTab_other s1 _ other Ht1 Hother) as (Hro & Hto).
  destruct (clickTab_products s1 _ Ht1) as (Hrp & Htp & Hlp).
  fold s2 in Hrp, Htp, Hlp. clearbody s2 s1.
  split; [exact Hr1|]. split; [exact Ht1|]. split; [exact Hl1|].
  split; [congruence|]. split.
  { intros Ha. rewrite Hto, Ht1, Ha. reflexivity. }
  split; [exact Hrp|]. split; [exact Htp|]. congruence.
Qed.

Lemma products_tab_click_clears_update_mark_witness :
  let s1 := handleUploadComplete true (JStr "done") None
              (run init progress_trace) in
  let s2 := clickTab "products" s1 in
  recentUpload s1 = true /\
  products_tab s1
  = Some (mkTab false true "New products available - click to view") /\
  loads s1 = 1%nat /\
  recentUpload (clickTab "webhooks" s1) = true /\
  (false = false -> products_tab (clickTab "webhooks" s1) = products_tab s1) /\
  recentUpload s2 = false /\
  products_tab s2 = Some (mkTab true false EmptyString) /\
  loads s2 = 2%nat.
Proof.
  apply (products_tab_click_clears_update_mark (run init progress_trace)
           (mkTab false false EmptyString) (JStr "done") None "webhooks");
    reflexivity.
Defined.

(** *** The result of a failed upload *)

Lemma failure_completion s message message_json panel errorMessage :
  failure_panel message message_json = (panel, errorMessage) ->
  let s' := handleUploadComplete false message message_json s in
  upload_result s' = panel /\
  log s' = log s ++ [Completed false message;
                     Toast ("Upload failed: " +:+ errorMessage) "error"] /\
  recentUpload s' = recentUpload s /\
  products_tab s' = products_tab s.
Proof.
  intros Hp. unfold handleUploadComplete, ws_close. rewrite Hp. fields.
  destruct (uploadWebSocket s) as [k|]; [destruct (sockets s !! k)|];
    fields; rewrite <- ?app_assoc; repeat split; reflexivity.
Qed.



(** X5.  A failed completion never reloads the products and never touches
    [recentUpload] or the products tab; when its message does not decode,
    the panel and the toast show the message itself, or [Upload failed] in
    place of an absent or empty one. *)
Theorem failure_shows_message (s : State) (message : JsVal)
    (message_json : option JsVal) :
  let s' := handleUploadComplete false message message_json s in
  let shown := to_string (or_else message (JStr "Upload failed")) in
  loads s' = loads s /\
  recentUpload s' = recentUpload s /\
  products_tab s' = products_tab s /\
  (message_json = None ->
     upload_result s' = PanelError shown /\
     log s' = log s ++ [Completed false message;
                        Toast ("Upload failed: " +:+ shown) "error"]).
Proof.
  intros s' shown.
  destruct (failure_panel message message_json) as [panel em] eqn:Hp.
  destruct (failure_completion s _ _ _ _ Hp) as (Hres & Hlog & Hr & Ht).
  fold s' in Hres, Hlog, Hr, Ht. clearbody s'.
  split. { unfold loads. rewrite Hlog, List.filter_app, length_app. cbn. lia. }
  split; [exact Hr|]. split; [exact Ht|].
  intros ->.
  assert (Hp' : failure_panel message None = (PanelError shown, shown)).
  { unfold failure_panel. fold shown.
    destruct message; try reflexivity.
    destruct (startsWith "[{" s0); reflexivity. }
  rewrite Hp in Hp'. injection Hp' as -> ->.
  split; assumption.
Qed.

(** *** Fetches that bring no status *)

Lemma failed_tick s i iv resp :
  intervals s !! i = Some iv -> iv_active iv = true ->
  brings_no_status resp = true ->
  step s (PollTick i resp)
  = emit (Fetch "GET" (API_BASE +:+ "/upload/task/" +:+ iv_task iv)) s.
Proof.
  intros Hi Ha Hr. cbn [step]. rewrite Hi, Ha.
  destruct resp; try discriminate Hr; reflexivity.
Qed.

(** X6.  Fetches of the status that reject or come back not ok are swallowed
    one after the other: however many of them follow each other, the
    interval stays live, the page and the error display stay as they were
    and [handleUploadComplete] is not entered; each tick leaves only its
    fetch behind. *)
Theorem failed_polls_keep_polling (s : State) (i : nat) (iv : Interval)
    (resps : list PollResponse) :
  intervals s !! i = Some iv ->
  iv_active iv = true ->
  forallb brings_no_status resps = true ->
  let s' := run s (map (PollTick i) resps) in
  intervals s' = intervals s /\
  sockets s' = sockets s /\
  displayed s' = displayed s /\
  upload_errors s' = upload_errors s /\
  upload_result s' = upload_result s /\
  completions s' = completions s /\
  log s' = log s
           ++ repeat (Fetch "GET" (API_BASE +:+ "/upload/task/" +:+ iv_task iv))
                (length resps).
Proof.
  revert s. induction resps as [|resp resps IH]; intros s Hi Ha Hall.
  - cbn. rewrite app_nil_r. repeat split.
  - cbn [forallb] in Hall. apply andb_true_iff in Hall as [Hr Hall].
    cbn [map run fold_left]. rewrite (failed_tick s i iv resp Hi Ha Hr).
    set (s1 := emit _ s).
    destruct (IH s1 Hi Ha Hall) as (H1 & H2 & H3 & H4 & H5 & H6 & H7).
    unfold run in *. rewrite H1, H2, H3, H4, H5, H6, H7.
    repeat split.
    + unfold completions, s1. fields. rewrite List.filter_app, length_app.
      cbn. lia.
    + unfold s1. fields. rewrite <- app_assoc. reflexivity.
Qed.

Lemma failed_polls_keep_polling_witness :
  let s := run init polling_trace in
  let s' := run s (map (PollTick 0) [PollThrew; PollNotOk; PollThrew]) in
  intervals s' = intervals s /\
  sockets s' = sockets s /\
  displayed s' = displayed s /\
  upload_errors s' = upload_errors s /\
  upload_result s' = upload_result s /\
  completions s' = completions s /\
  log s' = log s
           ++ repeat (Fetch "GET" "http://localhost:8000/api/upload/task/T1") 3.
Proof.
  apply (failed_polls_keep_polling (run init polling_trace) 0
           (mkInterval "T1" true) [PollThrew; PollNotOk; PollThrew]);
    reflexivity.
Defined.


Lemma failure_shows_message_witness :
  let s := run init progress_trace in
  let s' := handleUploadComplete false (JStr "disk full") None s in
  upload_result s' = PanelError "disk full" /\
  log s' = log s ++ [Completed false (JStr "disk full");
                     Toast "Upload failed: disk full" "error"].
Proof.
  apply (proj2 (proj2 (proj2
           (failure_shows_message (run init progress_trace)
              (JStr "disk full") None)))).
  reflexivity.
Defined.

(** *** One upload from start to end *)

Lemma interim_completes s e : interim e = true -> completes s e = false.
Proof.
  destruct e as [resp|k|k data|k failed code|i resp|i|i resp];
    try discriminate; cbn [interim completes]; intros He.
  - destruct data; try discriminate He;
      destruct (sockets s !! k) as [ws|]; reflexivity.
  - destruct resp as [| |task]; try reflexivity.
    apply negb_true_iff in He. rewrite He.
    destruct (intervals s !! i) as [iv|]; [apply andb_false_r | reflexivity].
  - reflexivity.
  - destruct resp as [| |task]; try reflexivity.
    apply negb_true_iff in He. rewrite He. apply andb_false_r.
Qed.

Lemma interim_poll_answer i resp s :
  interim (PollAnswer i resp) = true ->
  sockets (poll_answer i resp s) = sockets s /\
  intervals (poll_answer i resp s) = intervals s /\
  uploadWebSocket (poll_answer i resp s) = uploadWebSocket s /\
  currentUploadTaskId (poll_answer i resp s) = currentUploadTaskId s.
Proof.
  intros He. destruct resp as [| |task]; try (repeat split; reflexivity).
  cbn [interim] in He. apply negb_true_iff in He.
  rewrite (poll_answer_continues i task s He).
  destruct (answer_seen_frame task s) as (-> & -> & -> & -> & _).
  repeat split; reflexivity.
Qed.

Lemma interim_step s e :
  interim e = true ->
  sockets (step s e) = sockets s /\
  intervals (step s e) = intervals s /\
  uploadWebSocket (step s e) = uploadWebSocket s /\
  currentUploadTaskId (step s e) = currentUploadTaskId s /\
  completions (step s e) = completions s.
Proof.
  intros He.
  assert (Hc : completions (step s e) = completions s)
    by (rewrite completions_step, (interim_completes s e He); reflexivity).
  revert Hc.
  destruct e as [resp|k|k data|k failed code|i resp|i|i resp];
    try discriminate He; cbn [step]; intros Hc.
  - destruct (sockets s !! k) as [ws|]; [|repeat split].
    destruct (readyState ws); try (repeat split; reflexivity).
    destruct data as [|tid|p r t errs|b m j| |]; try discriminate He;
      cbn [onmessage] in *; try (repeat split; reflexivity).
    destruct (truthy errs && length_positive errs);
      [|repeat split; reflexivity].
    destruct (displayErrors_frame errs (updateProgress p r t s))
      as (Ht & Hu & Hs & Hi & _ & Hl).
    rewrite Ht, Hu, Hs, Hi. repeat split. exact Hc.
  - destruct (intervals s !! i) as [iv|]; [|repeat split].
    destruct (iv_active iv); [|repeat split].
    unfold poll_tick in *.
    destruct (interim_poll_answer i resp (poll_request (iv_task iv) s))
      as (-> & -> & -> & ->); [destruct resp; exact He|].
    repeat split. exact Hc.
  - destruct (intervals s !! i) as [iv|]; [|repeat split].
    destruct (iv_active iv); repeat split. exact Hc.
  - destruct (awaited i s); [|repeat split].
    destruct (interim_poll_answer i resp (set_pending (settle i (pending s)) s))
      as (-> & -> & -> & ->); [exact He|].
    repeat split. exact Hc.
Qed.

Lemma interim_run s es :
  forallb interim es = true ->
  sockets (run s es) = sockets s /\
  intervals (run s es) = intervals s /\
  uploadWebSocket (run s es) = uploadWebSocket s /\
  currentUploadTaskId (run s es) = currentUploadTaskId s /\
  completions (run s es) = completions s.
Proof.
  revert s. induction es as [|e es IH]; intros s Hes; [repeat split|].
  cbn [forallb] in Hes. apply andb_true_iff in Hes as [He Hes].
  cbn [run fold_left]. fold (run (step s e) es).
  destruct (IH (step s e) Hes) as (-> & -> & -> & -> & ->).
  apply interim_step, He.
Qed.

Lemma interim_frames k frames :
  forallb not_complete frames = true ->
  forallb interim (map (WsMessage k) frames) = true.
Proof.
  induction frames as [|f frames IH]; [reflexivity|].
  cbn [forallb map interim]. intros H.
  apply andb_true_iff in H as [-> H]. exact (IH H).
Qed.

Lemma interim_polls i polls :
  forallb (interim_poll i) polls = true -> forallb interim polls = true.
Proof.
  induction polls as [|e polls IH]; [reflexivity|].
  cbn [forallb]. intros H. apply andb_true_iff in H as [He H].
  unfold interim_poll in He. apply andb_true_iff in He as [-> _].
  exact (IH H).
Qed.

(** The state when the socket of the one upload closes: after the frames,
    the socket is closed and holds its place, and the intervals are those
    the close started. *)
Lemma streamed_state taskId frames failed code :
  forallb not_complete frames = true ->
  let s := run init (streamed taskId frames failed code) in
  sockets s = [mkWebSocket taskId CLOSED None] /\
  uploadWebSocket s = Some 0%nat /\
  currentUploadTaskId s = Some taskId /\
  completions s = 0%nat /\
  intervals s
  = (if failed then [mkInterval taskId true] else [])
    ++ (if (code =? 1000)%Z then [] else [mkInterval taskId true]).
Proof.
  intros Hframes s. subst s. unfold streamed, run.
  rewrite !fold_left_app.
  set (s1 := fold_left step [Upload (UploadAccepted taskId); WsOpen 0] init).
  destruct (interim_run s1 _ (interim_frames 0 frames Hframes))
    as (Hs & Hi & Hu & Ht & Hc).
  unfold run in *. set (s2 := fold_left step (map (WsMessage 0) frames) s1) in *.
  change (sockets s1) with [mkWebSocket taskId OPEN None] in Hs.
  change (intervals s1) with (@nil Interval) in Hi.
  change (uploadWebSocket s1) with (Some 0%nat) in Hu.
  change (currentUploadTaskId s1) with (Some taskId) in Ht.
  change (completions s1) with 0%nat in Hc.
  clearbody s2. cbn [fold_left step]. rewrite Hs. cbn [lookup list_lookup].
  cbn [readyState ws_task]. unfold onclose, onerror.
  destruct failed; destruct (code =? 1000)%Z; cbn [negb]; fields;
    unfold completions; fields; rewrite ?Hi, ?Hu, ?Ht;
    rewrite ?List.filter_app, ?length_app; fold (completions s2);
    rewrite ?Hc; repeat split.
Qed.

Lemma poll_answer_completed i task s :
  status task = "completed" ->
  poll_answer i (PollOk task) s
  = handleUploadComplete true
      (JStr ("Successfully processed "
             +:+ number_to_string (processed_rows task) +:+ " products"))
      None (poll_stopped i (answer_seen task s)).
Proof.
  intros Hst. unfold poll_answer, poll_stopped, answer_seen, terminal.
  rewrite Hst. reflexivity.
Qed.

Lemma success_panel message message_json s :
  upload_result (handleUploadComplete true message message_json s)
  = PanelSuccess (to_string message).
Proof. unfold handleUploadComplete, ws_close. fields. branches; reflexivity. Qed.

(** What the answer [completed] leaves, for one live interval and no
    completion so far. *)
Lemma first_completion taskId final s :
  status final = "completed" ->
  intervals s = [mkInterval taskId true] ->
  completions s = 0%nat ->
  let s' := poll_answer 0 (PollOk final) s in
  completions s' = 1%nat /\
  upload_result s'
  = PanelSuccess ("Successfully processed "
                  +:+ number_to_string (processed_rows final) +:+ " products") /\
  progress_text s' = toFixed 1 (progress final) +:+ "%" /\
  progress_details s'
  = number_to_string (processed_rows final) +:+ " / "
    +:+ number_to_string (total_rows final) +:+ " rows processed" /\
  upload_errors s' = EmptyString /\
  currentUploadTaskId s' = None /\
  intervals s' = [mkInterval taskId false].
Proof.
  intros Hst Hi Hc s'.
  assert (Ht : terminal final = true)
    by (unfold terminal; rewrite Hst; reflexivity).
  pose proof (displayed_poll_answer 0 final s) as Hd.
  fold s' in Hd. unfold displayed, rendered in Hd. injection Hd as _ Htext Hdet.
  split.
  { unfold s'. rewrite completions_poll_answer, Ht, Hc. reflexivity. }
  split.
  { unfold s'. rewrite (poll_answer_completed 0 final s Hst).
    apply success_panel. }
  split; [exact Htext|]. split; [exact Hdet|].
  split.
  { unfold s'. rewrite (poll_answer_completed 0 final s Hst).
    apply handleUploadComplete_frame. }
  split.
  { unfold s'. rewrite (poll_answer_completed 0 final s Hst).
    apply handleUploadComplete_frame. }
  unfold s'.
  rewrite (intervals_poll_answer_terminal 0 final (mkInterval taskId true) s);
    [rewrite Hi; reflexivity | rewrite Hi; reflexivity | exact Ht].
Qed.

(** X19.  One upload whose socket closes abnormally without a transport
    error is polled by one interval.  Whatever frames other than [complete]
    came before the close, and however the requests of the interval and
    their answers without a terminal status follow each other after it, the
    first answer with the status [completed] enters [handleUploadComplete]
    for the first time: the panel reports the processed rows of that status,
    text and row counts hold its values, the error display is empty and the
    interval is cleared.  The answer may come at once with its request or
    for a fetch that was in flight. *)
Theorem fallback_run_completes_once (taskId : string) (frames : list Frame)
    (code : Z) (polls : list Event) (final : TaskStatus) (e : Event) :
  forallb not_complete frames = true ->
  code <> 1000%Z ->
  forallb (interim_poll 0) polls = true ->
  status final = "completed" ->
  e = PollTick 0 (PollOk final) \/ e = PollAnswer 0 (PollOk final) ->
  let s0 := run init (streamed taskId frames false code ++ polls) in
  completes s0 e = true ->
  let s := step s0 e in
  completions s0 = 0%nat /\
  completions s = 1%nat /\
  upload_result s
  = PanelSuccess ("Successfully processed "
                  +:+ number_to_string (processed_rows final) +:+ " products") /\
  progress_text s = toFixed 1 (progress final) +:+ "%" /\
  progress_details s
  = number_to_string (processed_rows final) +:+ " / "
    +:+ number_to_string (total_rows final) +:+ " rows processed" /\
  upload_errors s = EmptyString /\
  currentUploadTaskId s = None /\
  intervals s = [mkInterval taskId false].
Proof.
  intros Hframes Hcode Hpolls Hfinal He s0 Hreach s.
  assert (H0 : intervals s0 = [mkInterval taskId true] /\
               completions s0 = 0%nat).
  { unfold s0, run. rewrite fold_left_app.
    destruct (streamed_state taskId frames false code Hframes)
      as (_ & _ & _ & Hc & Hi).
    apply Z.eqb_neq in Hcode. rewrite Hcode in Hi. cbn [app] in Hi.
    destruct (interim_run (run init (streamed taskId frames false code)) polls
                (interim_polls 0 polls Hpolls)) as (_ & Hi' & _ & _ & Hc').
    unfold run in *. rewrite Hi', Hc'. split; assumption. }
  destruct H0 as (Hi0 & Hc0). split; [exact Hc0|].
  clearbody s0. subst s.
  destruct He as [-> | ->]; cbn [completes step] in *.
  - rewrite Hi0 in *. cbn [lookup list_lookup iv_active iv_task] in *.
    unfold poll_tick.
    apply (first_completion taskId final (poll_request taskId s0) Hfinal).
    + exact Hi0.
    + unfold poll_request. rewrite completions_emit, Hc0. reflexivity.
  - apply andb_true_iff in Hreach as [Hw _]. rewrite Hw.
    apply (first_completion taskId final
             (set_pending (settle 0 (pending s0)) s0) Hfinal).
    + exact Hi0.
    + exact Hc0.
Qed.

Lemma fallback_run_completes_once_witness :
  let s0 := run init (streamed "T1" [FProgress 40 200 500 JUndefined] false 1006
                      ++ [PollFire 0; PollFire 0;
                          PollAnswer 0 (PollOk (processing 50.5 250 500))]) in
  let s := step s0 (PollAnswer 0 (PollOk (completed 500))) in
  completions s0 = 0%nat /\
  completions s = 1%nat /\
  upload_result s = PanelSuccess "Successfully processed 500 products" /\
  progress_text s = "100.0%" /\
  progress_details s = "500 / 500 rows processed" /\
  upload_errors s = EmptyString /\
  currentUploadTaskId s = None /\
  intervals s = [mkInterval "T1" false].
Proof.
  apply (fallback_run_completes_once "T1" [FProgress 40 200 500 JUndefined]
           1006 [PollFire 0; PollFire 0;
                 PollAnswer 0 (PollOk (processing 50.5 250 500))]
           (completed 500) (PollAnswer 0 (PollOk (completed 500))));
    [reflexivity | discriminate | reflexivity | reflexivity
    | right; reflexivity | reflexivity].
Defined.

(** X20.  One upload that the socket completes and then closes with code
    1000, whatever frames other than [complete] came before, is completed
    exactly once and never polled: no interval is started, the socket ends
    closed by the script's own [close(1000, ..)], and any frame that still
    arrives on it is dropped. *)
Theorem streamed_run_never_polls (taskId : string) (frames : list Frame)
    (success : bool) (message : JsVal) (message_json : option JsVal)
    (late : Frame) :
  forallb not_complete frames = true ->
  let s := run init (streamed taskId
                       (frames ++ [FComplete success message message_json])
                       false 1000) in
  completions s = 1%nat /\
  intervals s = [] /\
  sockets s
  = [mkWebSocket taskId CLOSED (Some (close_with 1000 "Upload completed"))] /\
  uploadWebSocket s = None /\
  currentUploadTaskId s = None /\
  step s (WsMessage 0 late) = s.
Proof.
  intros Hframes s. subst s. unfold streamed, run.
  rewrite map_app, !fold_left_app.
  set (s1 := fold_left step [Upload (UploadAccepted taskId); WsOpen 0] init).
  destruct (interim_run s1 _ (interim_frames 0 frames Hframes))
    as (Hs & Hi & Hu & Ht & Hc).
  unfold run in *. set (s2 := fold_left step (map (WsMessage 0) frames) s1) in *.
  change (sockets s1) with [mkWebSocket taskId OPEN None] in Hs.
  change (intervals s1) with (@nil Interval) in Hi.
  change (uploadWebSocket s1) with (Some 0%nat) in Hu.
  change (completions s1) with 0%nat in Hc.
  clearbody s2. clear s1 Ht.
  cbn [map fold_left].
  assert (Hstep : step s2 (WsMessage 0 (FComplete success message message_json))
                  = onmessage (FComplete success message message_json) s2)
    by (cbn [step]; rewrite Hs; reflexivity).
  rewrite Hstep. clear Hstep.
  set (s3 := onmessage (FComplete success message message_json) s2).
  assert (H3 : sockets s3
               = [mkWebSocket taskId CLOSING
                    (Some (close_with 1000 "Upload completed"))] /\
               intervals s3 = [] /\ completions s3 = 1%nat /\
               uploadWebSocket s3 = None /\ currentUploadTaskId s3 = None).
  { unfold s3. cbn [onmessage].
    rewrite sockets_handleUploadComplete_eq, Hu, completions_handleUploadComplete.
    unfold ws_close. rewrite Hs. cbn [lookup list_lookup].
    destruct (handleUploadComplete_frame success message message_json s2)
      as (-> & _ & _ & ->).
    destruct (idle_handleUploadComplete success message message_json s2)
      as (_ & -> & _).
    rewrite Hi, Hc. repeat split. }
  destruct H3 as (Hs3 & Hi3 & Hc3 & Hu3 & Ht3). clearbody s3.
  cbn [step]. rewrite Hs3. cbn [lookup list_lookup readyState ws_task].
  unfold onclose. change (negb (1000 =? 1000)%Z) with false. cbv iota.
  unfold completions in *. fields.
  cbn [lookup list_lookup list_insert insert set_ready readyState ws_task
       closing].
  fields. rewrite ?Hi3, ?Hc3, ?Hu3, ?Ht3.
  repeat split.
Qed.

Lemma streamed_run_never_polls_witness :
  let s := run init (streamed "T1"
                       ([FProgress 40 200 500 JUndefined]
                        ++ [FComplete true (JStr "done") None])
                       false 1000) in
  completions s = 1%nat /\
  intervals s = [] /\
  sockets s
  = [mkWebSocket "T1" CLOSED (Some (close_with 1000 "Upload completed"))] /\
  uploadWebSocket s = None /\
  currentUploadTaskId s = None /\
  step s (WsMessage 0 (FProgress 90 450 500 JUndefined)) = s.
Proof.
  apply (streamed_run_never_polls "T1" [FProgress 40 200 500 JUndefined]
           true (JStr "done") None (FProgress 90 450 500 JUndefined)).
  reflexivity.
Defined.

End PageFacts.

(** ** More on the delete-all confirmation *)

Module ConfirmationFacts.
Import Js Products Confirmation.

Lemma step_without_delete (s : State) (e : Event) :
  String.eqb (trim (confirm_input s)) "DELETE" = false ->
  types_delete e = false ->
  String.eqb (trim (confirm_input (step s e))) "DELETE" = false /\
  log (step s e) = log s.
Proof.
  intros Hs He. destruct e as [| |value|resp]; cbn [step].
  - split; reflexivity.
  - split; [exact Hs | reflexivity].
  - split; [exact He | reflexivity].
  - destruct (confirm_disabled s); [split; [exact Hs | reflexivity]|].
    unfold performDeleteAll. rewrite Hs. split; [exact Hs | reflexivity].
Qed.

(** X10.  Opening the modal empties the confirmation input, so a [DELETE]
    typed before does not carry over: from there on, as long as the user
    types no text that trims to [DELETE], nothing the user does (clicking
    the confirm button, closing and reopening, typing other words) sends a
    request or shows a toast. *)
Theorem no_delete_without_typing (s : State) (es : list Event) :
  never_types_delete es = true ->
  log (run (openDeleteAllModal s) es) = log s /\
  delete_requests (run (openDeleteAllModal s) es) = delete_requests s.
Proof.
  intros Hes.
  assert (H : forall s0, String.eqb (trim (confirm_input s0)) "DELETE" = false ->
                         log (run s0 es) = log s0).
  { clear s. induction es as [|e es IH]; intros s0 Hs0; [reflexivity|].
    unfold never_types_delete in Hes. cbn [forallb] in Hes.
    apply andb_true_iff in Hes as [He Hes]. apply negb_true_iff in He.
    destruct (step_without_delete s0 e Hs0 He) as [Hs1 Hl1].
    cbn [run fold_left]. fold (run (step s0 e) es).
    rewrite (IH Hes (step s0 e) Hs1). exact Hl1. }
  assert (Hlog : log (run (openDeleteAllModal s) es) = log s).
  { rewrite H; reflexivity. }
  split; [exact Hlog|]. unfold delete_requests. rewrite Hlog. reflexivity.
Qed.

Lemma no_delete_without_typing_witness :
  let s := mkState "DELETE" false "Delete All" false false 1 [] in
  let es := [Confirm (DeleteOk (JNum 3)); Typed "delete";
             Confirm (DeleteOk (JNum 3)); CloseModal; OpenModal;
             Confirm (DeleteOk (JNum 3))] in
  log (run (openDeleteAllModal s) es) = [] /\
  delete_requests (run (openDeleteAllModal s) es) = 0%nat.
Proof.
  apply (no_delete_without_typing
           (mkState "DELETE" false "Delete All" false false 1 [])
           [Confirm (DeleteOk (JNum 3)); Typed "delete";
            Confirm (DeleteOk (JNum 3)); CloseModal; OpenModal;
            Confirm (DeleteOk (JNum 3))]).
  reflexivity.
Defined.

End ConfirmationFacts.

(** ** Properties of [trim] *)

Module JsFacts.
Import Js.

Lemma strip_ws_sheds s r :
  strip_ws s = Some r -> exists pre, pre <> [] /\ s = pre ++ r.
Proof.
  unfold strip_ws. intros H.
  destruct s as [|a [|b [|c s]]]; repeat case_match; try discriminate H;
    injection H as <-;
    first [ exists [a]; split; [discriminate | reflexivity]
          | exists [a; b]; split; [discriminate | reflexivity]
          | exists [a; b; c]; split; [discriminate | reflexivity] ].
Qed.

Lemma strip_ws_rev_sheds s r :
  strip_ws_rev s = Some r -> exists pre, pre <> [] /\ s = pre ++ r.
Proof.
  unfold strip_ws_rev. intros H.
  destruct s as [|a [|b [|c s]]]; repeat case_match; try discriminate H;
    injection H as <-;
    first [ exists [a]; split; [discriminate | reflexivity]
          | exists [a; b]; split; [discriminate | reflexivity]
          | exists [a; b; c]; split; [discriminate | reflexivity] ].
Qed.

Section Strip.
Context (strip : list nat -> option (list nat)).
Hypothesis sheds :
  forall s r, strip s = Some r -> exists pre, pre <> [] /\ s = pre ++ r.
Hypothesis strip_nil : strip [] = None.

Lemma strip_all_settles fuel s :
  (length s <= fuel)%nat -> strip (strip_all strip fuel s) = None.
Proof.
  revert s. induction fuel as [|fuel IH]; intros s Hlen; cbn [strip_all].
  - destruct s; [exact strip_nil | cbn in Hlen; lia].
  - destruct (strip s) as [r|] eqn:Hs; [|exact Hs].
    apply IH. destruct (sheds s r Hs) as (pre & Hpre & ->).
    rewrite length_app in Hlen. destruct pre; [congruence|].
    cbn in Hlen. lia.
Qed.

Lemma strip_all_suffix fuel s :
  exists pre, s = pre ++ strip_all strip fuel s.
Proof.
  revert s. induction fuel as [|fuel IH]; intros s; cbn [strip_all].
  - exists []. reflexivity.
  - destruct (strip s) as [r|] eqn:Hs; [|exists []; reflexivity].
    destruct (sheds s r Hs) as (pre & _ & ->).
    destruct (IH r) as [pre' Hr]. exists (pre ++ pre').
    rewrite <- app_assoc, <- Hr. reflexivity.
Qed.

Lemma strip_all_fixed fuel s :
  strip s = None -> strip_all strip fuel s = s.
Proof. intros H. destruct fuel; cbn [strip_all]; rewrite ?H; reflexivity. Qed.
End Strip.

Lemma strip_ws_prefix p q : strip_ws (p ++ q) = None -> strip_ws p = None.
Proof.
  unfold strip_ws.
  destruct p as [|a [|b [|c p]]]; cbn [app]; intros H;
    repeat case_match; try discriminate H; reflexivity.
Qed.

Lemma bytes_bounded s : Forall (fun n => (n < 256)%nat) (bytes s).
Proof.
  unfold bytes. induction (list_ascii_of_string s) as [|a l IH]; cbn [map].
  - constructor.
  - constructor; [apply nat_ascii_bounded | exact IH].
Qed.

Lemma bytes_of_bytes l :
  Forall (fun n => (n < 256)%nat) l -> bytes (of_bytes l) = l.
Proof.
  unfold bytes, of_bytes. rewrite list_ascii_of_string_of_list_ascii.
  induction 1 as [|n l Hn _ IH]; cbn [map]; [reflexivity|].
  rewrite nat_ascii_embedding by exact Hn. rewrite IH. reflexivity.
Qed.

Lemma length_of_bytes l : String.length (of_bytes l) = length l.
Proof.
  unfold of_bytes. induction l as [|n l IH]; cbn; [reflexivity|].
  rewrite IH. reflexivity.
Qed.

Lemma length_bytes s : length (bytes s) = String.length s.
Proof.
  unfold bytes. rewrite length_map.
  induction s as [|c s IH]; cbn; [reflexivity | rewrite IH; reflexivity].
Qed.

(** Trimming a trimmed text changes nothing. *)
Lemma trim_idempotent (s : string) : trim (trim s) = trim s.
Proof.
  unfold trim at 2.
  set (front := strip_all strip_ws (String.length s) (bytes s)).
  set (back := strip_all strip_ws_rev (length front) (rev front)).
  assert (Hfront : strip_ws front = None).
  { apply (strip_all_settles strip_ws strip_ws_sheds eq_refl).
    rewrite length_bytes. lia. }
  assert (Hback : strip_ws_rev back = None).
  { apply (strip_all_settles strip_ws_rev strip_ws_rev_sheds eq_refl).
    rewrite length_rev. lia. }
  destruct (strip_all_suffix strip_ws strip_ws_sheds (String.length s) (bytes s))
    as [pre Hpre]. fold front in Hpre.
  destruct (strip_all_suffix strip_ws_rev strip_ws_rev_sheds (length front)
              (rev front)) as [pre' Hpre']. fold back in Hpre'.
  assert (Hsplit : front = rev back ++ rev pre').
  { rewrite <- (rev_involutive front), Hpre', rev_app_distr. reflexivity. }
  assert (Hbound : Forall (fun n => (n < 256)%nat) (rev back)).
  { pose proof (bytes_bounded s) as Hb. rewrite Hpre in Hb.
    apply Forall_app in Hb as [_ Hb]. rewrite Hsplit in Hb.
    apply Forall_app in Hb as [Hb _]. exact Hb. }
  assert (Hhead : strip_ws (rev back) = None).
  { apply (strip_ws_prefix _ (rev pre')). rewrite <- Hsplit. exact Hfront. }
  unfold trim.
  rewrite (bytes_of_bytes _ Hbound), length_of_bytes.
  rewrite (strip_all_fixed strip_ws _ _ Hhead), rev_involutive.
  rewrite (strip_all_fixed strip_ws_rev _ _ Hback). reflexivity.
Qed.

End JsFacts.

(** ** Properties of the products script *)

Module CatalogFacts.
Import Js Catalog.

Ltac fields :=
  cbn [currentPage pageSize totalPages filters filter_sku filter_name
       filter_description filter_active rows select_all bulk_display
       selected_count page_info prev_disabled next_disabled log
       emit showToast set_paging set_filters set_inputs set_rows
       set_select_all set_bulk set_pagination loadProducts
       items page total_pages total] in *.

Lemma updateBulkActions_frame s :
  currentPage (updateBulkActions s) = currentPage s /\
  totalPages (updateBulkActions s) = totalPages s /\
  rows (updateBulkActions s) = rows s /\
  select_all (updateBulkActions s) = select_all s /\
  log (updateBulkActions s) = log s.
Proof. unfold updateBulkActions. case_match; repeat split; reflexivity. Qed.

(** *** Paging *)

Lemma loadProducts_asks s :
  (1 <= currentPage s)%Z -> Forall asks_from_one (log s) ->
  Forall asks_from_one (log (loadProducts s)).
Proof.
  intros Hp Hl. fields. apply Forall_app. split; [exact Hl|].
  constructor; [|constructor]. exists (currentPage s). split; [exact Hp|].
  reflexivity.
Qed.

Lemma emit_asks e s :
  (forall url q, e <> Get url q) -> Forall asks_from_one (log s) ->
  Forall asks_from_one (log (emit e s)).
Proof.
  intros He Hl. fields. apply Forall_app. split; [exact Hl|].
  constructor; [|constructor]. destruct e; try exact I.
  destruct (He url query0 eq_refl).
Qed.

Lemma step_asks s e :
  (1 <= currentPage s)%Z /\ Forall asks_from_one (log s) ->
  (1 <= currentPage (step s e))%Z /\ Forall asks_from_one (log (step s e)).
Proof.
  intros [Hp Hl].
  destruct e as [resp|delta|size|a b c d| | |b|i|confirmed resp|pid confirmed resp];
    cbn [step].
  - destruct resp as [m| |data]; cbn [onProductsLoaded].
    + split; [exact Hp | apply emit_asks; [discriminate | exact Hl]].
    + split; [exact Hp | apply emit_asks; [discriminate | exact Hl]].
    + unfold updatePagination, displayProducts. fields.
      match goal with |- context [updateBulkActions ?x] =>
        destruct (updateBulkActions_frame x) as (-> & _ & _ & _ & ->) end.
      fields. split; assumption.
  - unfold changePage.
    destruct ((1 <=? currentPage s + delta)%Z
              && (currentPage s + delta <=? totalPages s)%Z) eqn:Hg;
      [|split; assumption].
    apply andb_true_iff in Hg as [Hg _]. apply Z.leb_le in Hg.
    split; [exact Hg|]. apply loadProducts_asks; [exact Hg | exact Hl].
  - unfold onPageSize. split; [fields; lia|].
    apply loadProducts_asks; [fields; lia | exact Hl].
  - split; assumption.
  - unfold applyFilters. split; [fields; lia|].
    apply loadProducts_asks; [fields; lia | exact Hl].
  - unfold clearFilters. split; [fields; lia|].
    apply loadProducts_asks; [fields; lia | exact Hl].
  - unfold toggleSelectAll.
    match goal with |- context [updateBulkActions ?x] =>
      destruct (updateBulkActions_frame x) as (-> & _ & _ & _ & ->) end.
    split; assumption.
  - unfold toggleRow. destruct (rows s !! i); [|split; assumption].
    match goal with |- context [updateBulkActions ?x] =>
      destruct (updateBulkActions_frame x) as (-> & _ & _ & _ & ->) end.
    split; assumption.
  - unfold handleBulkDelete.
    destruct (selected s); [split; assumption|].
    destruct confirmed; cbn [negb]; [|split; assumption].
    assert (H0 : Forall asks_from_one
                   (log (emit (PostBulkDelete (z :: l)) s))).
    { apply emit_asks; [discriminate | exact Hl]. }
    destruct resp as [m|detail|result].
    + split; [exact Hp | apply emit_asks; [discriminate | exact H0]].
    + split; [exact Hp | apply emit_asks; [discriminate | exact H0]].
    + cbv zeta. split; [destruct (_ && _); exact Hp|].
      apply loadProducts_asks; [destruct (_ && _); exact Hp|].
      fields. apply Forall_app. split; [|repeat constructor].
      destruct (_ && _); [apply emit_asks; [discriminate|]|]; exact H0.
  - unfold deleteProduct. destruct confirmed; cbn [negb]; [|split; assumption].
    assert (H0 : Forall asks_from_one
                   (log (emit (Delete (API_BASE +:+ "/products/" +:+ pretty pid)) s))).
    { apply emit_asks; [discriminate | exact Hl]. }
    destruct resp.
    + split; [exact Hp | apply emit_asks; [discriminate | exact H0]].
    + split; [exact Hp | apply emit_asks; [discriminate | exact H0]].
    + split; [exact Hp|]. apply emit_asks; [discriminate|].
      apply loadProducts_asks; [exact Hp | exact H0].
Qed.

(** X11.  Starting from the first page, whatever the user does and the
    server answers, the current page never falls below 1 and every listing
    request asks for a page from 1 up. *)
Theorem never_asks_below_first_page (es : list Event) :
  (1 <= currentPage (run init es))%Z /\
  forall url q, In (Get url q) (log (run init es)) ->
    exists p, (1 <= p)%Z /\ q !! 0%nat = Some ("page", pretty p).
Proof.
  assert (H : (1 <= currentPage (run init es))%Z
              /\ Forall asks_from_one (log (run init es))).
  { unfold run. induction es as [|e es IH] using rev_ind.
    - split; [cbn; lia | constructor].
    - rewrite fold_left_app. apply step_asks, IH. }
  destruct H as [Hp Hl]. split; [exact Hp|].
  intros url q Hin. rewrite List.Forall_forall in Hl. exact (Hl _ Hin).
Qed.

Lemma loaded_frame data s :
  let s1 := onProductsLoaded (LoadOk data) s in
  currentPage s1 = currentPage s /\
  totalPages s1 = total_pages data /\
  prev_disabled s1 = (page data <=? 1)%Z /\
  next_disabled s1 = (total_pages data <=? page data)%Z /\
  rows s1 = map (fun p => mkRow p false) (items data) /\
  select_all s1 = select_all s /\
  log s1 = log s.
Proof.
  cbn [onProductsLoaded]. unfold updatePagination, displayProducts. fields.
  match goal with |- context [updateBulkActions ?x] =>
    destruct (updateBulkActions_frame x) as (-> & -> & -> & -> & ->) end.
  repeat split.
Qed.

Lemma changePage_moves delta s :
  (1 <= currentPage s + delta <= totalPages s)%Z ->
  currentPage (changePage delta s) = (currentPage s + delta)%Z /\
  log (changePage delta s)
  = log s ++ [Get (API_BASE +:+ "/products") (query (changePage delta s))].
Proof.
  intros [H1 H2]. unfold changePage.
  apply Z.leb_le in H1. apply Z.leb_le in H2. rewrite H1, H2.
  split; reflexivity.
Qed.

Lemma changePage_stays delta s :
  (currentPage s + delta < 1 \/ totalPages s < currentPage s + delta)%Z ->
  changePage delta s = s.
Proof.
  intros H. unfold changePage.
  destruct (1 <=? currentPage s + delta)%Z eqn:H1;
    destruct (currentPage s + delta <=? totalPages s)%Z eqn:H2;
    try reflexivity.
  apply Z.leb_le in H1. apply Z.leb_le in H2. lia.
Qed.

Lemma never_asks_below_first_page_witness :
  (1 <= currentPage (run init [ChangePage (-1); ApplyFilters]))%Z /\
  exists p, (1 <= p)%Z /\
    [("page", "1"); ("page_size", "20")] !! 0%nat = Some ("page", pretty p).
Proof.
  split; [exact (proj1 (never_asks_below_first_page [ChangePage (-1); ApplyFilters]))|].
  apply (proj2 (never_asks_below_first_page [ChangePage (-1); ApplyFilters])
           (API_BASE +:+ "/products")).
  vm_compute. left. reflexivity.
Defined.

(** X12.  When a listing answers for the current page and that page lies
    within the pages it reports, the two paging buttons agree with
    [changePage]: a button left enabled moves by exactly one page and sends
    one listing request for the new page, a button left disabled would
    change nothing. *)
Theorem paging_buttons_agree (s : State) (data : Listing) :
  page data = currentPage s ->
  (1 <= currentPage s <= total_pages data)%Z ->
  let s1 := onProductsLoaded (LoadOk data) s in
  (if prev_disabled s1 then changePage (-1) s1 = s1
   else currentPage (changePage (-1) s1) = (currentPage s - 1)%Z
        /\ log (changePage (-1) s1)
           = log s1 ++ [Get (API_BASE +:+ "/products")
                          (query (changePage (-1) s1))]) /\
  (if next_disabled s1 then changePage 1 s1 = s1
   else currentPage (changePage 1 s1) = (currentPage s + 1)%Z
        /\ log (changePage 1 s1)
           = log s1 ++ [Get (API_BASE +:+ "/products")
                          (query (changePage 1 s1))]).
Proof.
  intros Hpage Hrange s1.
  destruct (loaded_frame data s) as (Hc & Ht & Hprev & Hnext & _).
  fold s1 in Hc, Ht, Hprev, Hnext. clearbody s1.
  rewrite Hprev, Hnext, Hpage. split.
  - destruct (currentPage s <=? 1)%Z eqn:E.
    + apply Z.leb_le in E. apply changePage_stays. lia.
    + apply Z.leb_gt in E.
      destruct (changePage_moves (-1) s1) as [H1 H2]; [lia|].
      split; [rewrite H1; lia | exact H2].
  - destruct (total_pages data <=? currentPage s)%Z eqn:E.
    + apply Z.leb_le in E. apply changePage_stays. lia.
    + apply Z.leb_gt in E.
      destruct (changePage_moves 1 s1) as [H1 H2]; [lia|].
      split; [rewrite H1; lia | exact H2].
Qed.

Lemma paging_buttons_agree_witness :
  let s := set_paging 2 20 1 init in
  let s1 := onProductsLoaded (LoadOk (mkListing [widget 21] 2 2 21)) s in
  (currentPage (changePage (-1) s1) = 1%Z
   /\ log (changePage (-1) s1)
      = log s1 ++ [Get (API_BASE +:+ "/products") (query (changePage (-1) s1))]) /\
  changePage 1 s1 = s1.
Proof.
  apply (paging_buttons_agree (set_paging 2 20 1 init)
           (mkListing [widget 21] 2 2 21)); [reflexivity | cbn; lia].
Defined.

(** X13.  [loadProducts] takes the page count from the answer without
    bringing the current page back into range.  When the count has fallen
    two or more below the current page, the answer (for the current page)
    leaves the previous button enabled, yet neither button moves: both
    [changePage(-1)] and [changePage(1)] change nothing and send nothing. *)
Theorem page_beyond_count_is_stuck (s : State) (data : Listing) :
  page data = currentPage s ->
  (0 <= total_pages data)%Z ->
  (total_pages data + 1 < currentPage s)%Z ->
  let s1 := onProductsLoaded (LoadOk data) s in
  prev_disabled s1 = false /\
  changePage (-1) s1 = s1 /\
  changePage 1 s1 = s1.
Proof.
  intros Hpage H0 Hbeyond s1.
  destruct (loaded_frame data s) as (Hc & Ht & Hprev & _).
  fold s1 in Hc, Ht, Hprev. clearbody s1.
  split; [rewrite Hprev, Hpage; apply Z.leb_gt; lia|].
  split; apply changePage_stays; lia.
Qed.

Lemma page_beyond_count_is_stuck_witness :
  let s := set_paging 5 20 5 init in
  let s1 := onProductsLoaded (LoadOk (mkListing [] 5 2 40)) s in
  prev_disabled s1 = false /\
  changePage (-1) s1 = s1 /\
  changePage 1 s1 = s1.
Proof.
  apply (page_beyond_count_is_stuck (set_paging 5 20 5 init)
           (mkListing [] 5 2 40)); [reflexivity | cbn; lia | cbn; lia].
Defined.

(** *** Filters *)

(** X14.  [applyFilters] goes back to page 1 and sends exactly one listing
    request, whose query is this and nothing else: the page 1, the page
    size, then for [sku], [name] and [description], in this order, the input
    with the white space at both ends removed if that leaves anything, then
    [active] as [true] or [false] if one is chosen, [true] only for the
    choice [true].  A text filter that is sent is therefore never empty and
    carries no white space at either end. *)
Theorem applied_filters_are_trimmed (s : State) :
  let s' := applyFilters s in
  let text key input :=
    if String.eqb (trim input) EmptyString then [] else [(key, trim input)] in
  let flag :=
    if String.eqb (filter_active s) EmptyString then []
    else [("active",
           if String.eqb (filter_active s) "true" then "true" else "false")] in
  currentPage s' = 1%Z /\
  log s'
  = log s ++ [Get (API_BASE +:+ "/products")
                ([("page", "1"); ("page_size", pretty (pageSize s))]
                 ++ text "sku" (filter_sku s)
                 ++ text "name" (filter_name s)
                 ++ text "description" (filter_description s)
                 ++ flag)] /\
  (forall key input kv, In kv (text key input) ->
     fst kv = key /\ snd kv <> EmptyString /\ trim (snd kv) = snd kv).
Proof.
  intros s' text flag. split; [reflexivity|]. split.
  - unfold s', applyFilters, loadProducts, query, text, flag, text_filter.
    fields.
    destruct (String.eqb (trim (filter_sku s)) EmptyString);
      destruct (String.eqb (trim (filter_name s)) EmptyString);
      destruct (String.eqb (trim (filter_description s)) EmptyString);
      destruct (String.eqb (filter_active s) EmptyString);
      destruct (String.eqb (filter_active s) "true"); reflexivity.
  - intros key input kv Hin. unfold text in Hin.
    destruct (String.eqb (trim input) EmptyString) eqn:E; [destruct Hin|].
    destruct Hin as [<-|[]]. cbn [fst snd].
    split; [reflexivity|]. split.
    + apply String.eqb_neq. exact E.
    + apply JsFacts.trim_idempotent.
Qed.

Lemma applied_filters_are_trimmed_witness :
  let s := set_inputs "   " " widget " EmptyString "false" init in
  log (applyFilters s)
  = [Get "http://localhost:8000/api/products"
       [("page", "1"); ("page_size", "20"); ("name", "widget");
        ("active", "false")]] /\
  trim "widget" = "widget".
Proof.
  destruct (applied_filters_are_trimmed
              (set_inputs "   " " widget " EmptyString "false" init))
    as (_ & Hlog & Htext).
  split; [exact Hlog|].
  apply (Htext "name" " widget " ("name", "widget")). left. reflexivity.
Defined.

(** *** Selection and bulk deletion *)

Lemma selected_check_all b r :
  map (fun row => id (product row)) (List.filter checked (check_all b r))
  = if b then map (fun row => id (product row)) r else [].
Proof.
  unfold check_all. induction r as [|row r IH]; [destruct b; reflexivity|].
  cbn [map List.filter checked]. destruct b; cbn [map product];
    rewrite IH; reflexivity.
Qed.

Lemma count_check_all b r :
  length (List.filter checked (check_all b r)) = if b then length r else 0%nat.
Proof.
  unfold check_all. induction r as [|row r IH]; [destruct b; reflexivity|].
  cbn [map List.filter checked]. destruct b; cbn [length]; rewrite IH;
    reflexivity.
Qed.

Lemma bulk_after_post ids resp s :
  exists tail,
    log (match resp with
         | BulkThrew message =>
             showToast ("Bulk delete failed: " +:+ message) "error"
               (emit (PostBulkDelete ids) s)
         | BulkNotOk detail =>
             showToast ("Bulk delete failed: "
                        +:+ to_string (or_else detail (JStr "Bulk delete failed")))
               "error" (emit (PostBulkDelete ids) s)
         | BulkOk result =>
             let message := "Successfully deleted "
                            +:+ pretty (success_count result) +:+ " products" in
             let failed := (0 <? failure_count result)%Z in
             let message :=
               if failed
               then message +:+ ". " +:+ pretty (failure_count result) +:+ " failed."
               else message in
             let s := if failed && (0 <? length (errors result))%nat
                      then emit LogError (emit (PostBulkDelete ids) s)
                      else emit (PostBulkDelete ids) s in
             let s := showToast message (if failed then "error" else "success") s in
             loadProducts (set_select_all false s)
         end)
    = log s ++ PostBulkDelete ids :: tail /\
    List.filter is_bulk_delete tail = [].
Proof.
  destruct resp as [m|detail|result]; fields.
  - eexists. rewrite <- app_assoc. split; reflexivity.
  - eexists. rewrite <- app_assoc. split; reflexivity.
  - destruct (_ && _); fields; rewrite <- ?app_assoc; eexists;
      split; reflexivity.
Qed.

(** X15.  Ticking the select-all box selects every row of the page: the
    bulk bar shows with the count of the rows, and a confirmed bulk delete
    then sends the ids of all of them, in order of display.  Unticking it
    selects none and hides the bar. *)
Theorem select_all_selects_page (s : State) :
  rows s <> [] ->
  let on := toggleSelectAll true s in
  let off := toggleSelectAll false s in
  selected on = map (fun row => id (product row)) (rows s) /\
  bulk_display on = "flex" /\
  selected_count on = pretty (length (rows s)) +:+ " selected" /\
  (forall resp, exists tail,
     log (handleBulkDelete true resp on)
     = log s ++ PostBulkDelete (map (fun row => id (product row)) (rows s))
                :: tail) /\
  selected off = [] /\
  bulk_display off = "none".
Proof.
  intros Hrows on off.
  assert (Hon : selected on = map (fun row => id (product row)) (rows s)).
  { unfold selected, on, toggleSelectAll.
    match goal with |- context [updateBulkActions ?x] =>
      destruct (updateBulkActions_frame x) as (_ & _ & -> & _) end.
    fields. apply (selected_check_all true). }
  assert (Hlog : log on = log s).
  { unfold on, toggleSelectAll.
    match goal with |- context [updateBulkActions ?x] =>
      destruct (updateBulkActions_frame x) as (_ & _ & _ & _ & ->) end.
    reflexivity. }
  split; [exact Hon|].
  assert (Hbar : bulk_display on = "flex" /\
                 selected_count on = pretty (length (rows s)) +:+ " selected").
  { unfold on, toggleSelectAll, updateBulkActions. fields.
    rewrite (count_check_all true).
    destruct (rows s) as [|row r]; [congruence|]. split; reflexivity. }
  destruct Hbar as [Hb Hc]. split; [exact Hb|]. split; [exact Hc|].
  split.
  - intros resp. unfold handleBulkDelete. rewrite Hon.
    destruct (rows s) as [|row r] eqn:Hr; [congruence|].
    cbn [map negb]. clearbody on.
    destruct (bulk_after_post (id (product row)
                               :: map (fun row => id (product row)) r) resp on)
      as (tail & Hl & _).
    exists tail. cbv zeta in Hl. rewrite Hl, Hlog. reflexivity.
  - split.
    + unfold selected, off, toggleSelectAll.
      match goal with |- context [updateBulkActions ?x] =>
        destruct (updateBulkActions_frame x) as (_ & _ & -> & _) end.
      fields. apply (selected_check_all false).
    + unfold off, toggleSelectAll, updateBulkActions. fields.
      rewrite (count_check_all false). reflexivity.
Qed.

Lemma select_all_selects_page_witness :
  let on := toggleSelectAll true three_rows in
  let off := toggleSelectAll false three_rows in
  selected on = [11; 12; 13]%Z /\
  bulk_display on = "flex" /\
  selected_count on = "3 selected" /\
  (forall resp, exists tail,
     log (handleBulkDelete true resp on)
     = log three_rows ++ PostBulkDelete [11; 12; 13]%Z :: tail) /\
  selected off = [] /\
  bulk_display off = "none".
Proof.
  apply (select_all_selects_page three_rows). discriminate.
Defined.

(** X16.  [handleBulkDelete] sends nothing and changes nothing when no row
    is ticked or when the confirmation is declined; otherwise it sends
    exactly one bulk-delete request, carrying the ids of the ticked rows in
    order of display, which is never an empty list. *)
Theorem bulk_delete_sends_selection (s : State) (confirmed : bool)
    (resp : BulkResponse) :
  let s' := handleBulkDelete confirmed resp s in
  (selected s = [] -> s' = s) /\
  (confirmed = false -> s' = s) /\
  (selected s <> [] -> confirmed = true ->
     exists tail,
       log s' = log s ++ PostBulkDelete (selected s) :: tail /\
       List.filter is_bulk_delete tail = []) /\
  (forall ids, In (PostBulkDelete ids) (log s') ->
     In (PostBulkDelete ids) (log s) \/ (ids = selected s /\ ids <> [])).
Proof.
  intros s'. unfold s', handleBulkDelete.
  destruct (selected s) as [|z l] eqn:Hsel.
  - split; [reflexivity|]. split; [reflexivity|].
    split; [congruence|]. intros ids Hin. left. exact Hin.
  - split; [discriminate|]. destruct confirmed; cbn [negb].
    + split; [discriminate|].
      destruct (bulk_after_post (z :: l) resp s) as (tail & Hlog & Hnone).
      split; [intros _ _; exists tail; split; assumption|].
      intros ids Hin. cbv zeta in Hlog. rewrite Hlog in Hin.
      apply in_app_iff in Hin as [Hin|[Hin|Hin]].
      * left. exact Hin.
      * injection Hin as <-. right. split; [reflexivity | discriminate].
      * exfalso. assert (Hf : In (PostBulkDelete ids) (List.filter is_bulk_delete tail)).
        { apply List.filter_In. split; [exact Hin | reflexivity]. }
        rewrite Hnone in Hf. destruct Hf.
    + split; [reflexivity|]. split; [discriminate|].
      intros ids Hin. left. exact Hin.
Qed.

Lemma bulk_delete_sends_selection_witness :
  let s' := handleBulkDelete true (BulkOk (mkBulkResult 1 0 [])) three_rows in
  (exists tail,
     log s' = log three_rows ++ PostBulkDelete [12%Z] :: tail /\
     List.filter is_bulk_delete tail = []) /\
  handleBulkDelete false (BulkOk (mkBulkResult 1 0 [])) three_rows = three_rows.
Proof.
  split.
  - apply (proj1 (proj2 (proj2
             (bulk_delete_sends_selection three_rows true
                (BulkOk (mkBulkResult 1 0 [])))))).
    + discriminate.
    + reflexivity.
  - apply (proj1 (proj2
             (bulk_delete_sends_selection three_rows false
                (BulkOk (mkBulkResult 1 0 []))))).
    reflexivity.
Defined.

Lemma fresh_rows_unchecked (products : list Product) :
  List.filter checked (map (fun p => mkRow p false) products) = [].
Proof. induction products as [|p l IH]; [reflexivity | exact IH]. Qed.

(** X17.  Every listing answer renders fresh rows, none ticked: the bar is
    hidden and a bulk delete right after changes nothing, whatever was
    ticked before, while the select-all box keeps the state it had. *)
Theorem reload_clears_selection (s : State) (data : Listing)
    (confirmed : bool) (resp : BulkResponse) :
  let s1 := onProductsLoaded (LoadOk data) s in
  map product (rows s1) = items data /\
  selected s1 = [] /\
  bulk_display s1 = "none" /\
  select_all s1 = select_all s /\
  handleBulkDelete confirmed resp s1 = s1.
Proof.
  intros s1.
  destruct (loaded_frame data s) as (_ & _ & _ & _ & Hrows & Hall & _).
  fold s1 in Hrows, Hall.
  assert (Hsel : selected s1 = []).
  { unfold selected. rewrite Hrows, fresh_rows_unchecked. reflexivity. }
  assert (Hbar : bulk_display s1 = "none").
  { unfold s1. cbn [onProductsLoaded].
    unfold updatePagination, displayProducts, updateBulkActions. fields.
    rewrite fresh_rows_unchecked. reflexivity. }
  clearbody s1.
  split. { rewrite Hrows, map_map. apply map_id. }
  split; [exact Hsel|]. split; [exact Hbar|]. split; [exact Hall|].
  unfold handleBulkDelete. rewrite Hsel. reflexivity.
Qed.

End CatalogFacts.

(** ** Properties of the webhook form *)

Module WebhooksFacts.
Import Js Webhooks.

Lemma check_first_attributes type boxes :
  map box_value (check_first type boxes) = map box_value boxes.
Proof.
  induction boxes as [|box boxes IH]; [reflexivity|].
  cbn [check_first]. destruct (has_value type box); cbn [map box_value];
    [reflexivity | rewrite IH; reflexivity].
Qed.

Lemma omap_attributes (boxes boxes' : list Box) :
  map box_value boxes' = map box_value boxes ->
  omap box_value boxes' = omap box_value boxes.
Proof.
  revert boxes'. induction boxes as [|b boxes IH]; intros [|b' boxes'] H;
    try discriminate H; [reflexivity|].
  cbn [map] in H. injection H as Hb H. cbn [omap list_omap].
  rewrite Hb, (IH _ H). reflexivity.
Qed.

(** No other box has the value of a box whose attribute is not repeated. *)
Lemma has_value_absent type boxes :
  type ∉ omap box_value boxes ->
  map (fun box => mkBox (box_value box) (box_checked box || has_value type box))
      boxes
  = boxes.
Proof.
  induction boxes as [|[v st] boxes IH]; intros Hn; [reflexivity|].
  cbn [map box_value box_checked]. unfold has_value at 1. cbn [box_value].
  destruct v as [v|].
  - cbn [omap list_omap box_value] in Hn.
    apply not_elem_of_cons in Hn as [Hne Hn].
    assert (E : String.eqb v type = false)
      by (apply String.eqb_neq; congruence).
    rewrite E, orb_false_r, (IH Hn). reflexivity.
  - cbn [omap list_omap box_value] in Hn.
    rewrite orb_false_r, (IH Hn). reflexivity.
Qed.

Lemma check_first_distinct type boxes :
  NoDup (omap box_value boxes) ->
  check_first type boxes
  = map (fun box => mkBox (box_value box) (box_checked box || has_value type box))
      boxes.
Proof.
  induction boxes as [|[v st] boxes IH]; intros Hnd; [reflexivity|].
  assert (Htail : NoDup (omap box_value boxes)).
  { destruct v; cbn [omap list_omap box_value] in Hnd;
      [apply NoDup_cons in Hnd as [_ Hnd]|]; exact Hnd. }
  cbn [check_first map box_value box_checked].
  destruct (has_value type (mkBox v st)) eqn:E.
  - rewrite orb_true_r. f_equal. symmetry. apply has_value_absent.
    unfold has_value in E. cbn [box_value] in E.
    destruct v as [v|]; [|discriminate E].
    apply String.eqb_eq in E. subst v.
    cbn [omap list_omap box_value] in Hnd.
    apply NoDup_cons in Hnd as [Hv _]. exact Hv.
  - rewrite orb_false_r, (IH Htail). reflexivity.
Qed.

Lemma checked_after_open types boxes :
  NoDup (omap box_value boxes) ->
  fold_left (fun bs type => check_first type bs) types boxes
  = map (fun box => mkBox (box_value box)
                      (box_checked box
                       || existsb (fun type => has_value type box) types))
      boxes.
Proof.
  revert boxes. induction types as [|type types IH]; intros boxes Hnd.
  - cbn [fold_left existsb].
    induction boxes as [|[v st] boxes IHb]; [reflexivity|].
    cbn [map box_value box_checked]. rewrite orb_false_r. f_equal.
    apply IHb. destruct v; cbn [omap list_omap box_value] in Hnd;
      [apply NoDup_cons in Hnd as [_ Hnd]|]; exact Hnd.
  - cbn [fold_left].
    rewrite IH
      by (rewrite (omap_attributes boxes _ (check_first_attributes type boxes));
          exact Hnd).
    rewrite check_first_distinct by exact Hnd. rewrite map_map.
    apply map_ext. intros [v st]. cbn [box_value box_checked existsb].
    unfold has_value. cbn [box_value].
    rewrite <- orb_assoc. reflexivity.
Qed.

Lemma selected_by types v st :
  existsb (fun type => has_value type (mkBox v st)) types
  = match v with
    | Some value => among types value
    | None => false
    end.
Proof.
  unfold has_value, among. cbn [box_value].
  destruct v as [v|]; [reflexivity|].
  induction types; [reflexivity | assumption].
Qed.

Lemma eventTypes_after_open (w : Webhook) (f f1 : Form) :
  NoDup (attributes f) ->
  openWebhookModal w f = Some f1 ->
  eventTypes f1 = List.filter (among (event_types w)) (attributes f).
Proof.
  unfold openWebhookModal, attributes. intros Hnd Hopen.
  destruct (forallb plain (event_types w)); [|discriminate Hopen].
  injection Hopen as <-. unfold eventTypes, uncheck_all. cbn [event_boxes].
  rewrite checked_after_open
    by (rewrite (omap_attributes (event_boxes f));
        [exact Hnd | rewrite map_map; reflexivity]).
  rewrite map_map. cbn [box_value box_checked orb]. clear Hnd.
  induction (event_boxes f) as [|[v st] boxes IH]; [reflexivity|].
  cbn [map List.filter box_checked box_value omap list_omap].
  rewrite selected_by. destruct v as [v|]; cbv beta iota.
  - destruct (among (event_types w) v) eqn:E;
      cbn [map List.filter value_of box_value box_checked];
      rewrite ?E, IH; reflexivity.
  - exact IH.
Qed.

Lemma nonempty_length (a : string) :
  (0 < String.length a)%nat -> a <> EmptyString.
Proof. destruct a; cbn; [lia | discriminate]. Qed.

Lemma pretty_N_go_nonempty (x : N) (s : string) :
  s <> EmptyString -> pretty_N_go x s <> EmptyString.
Proof.
  revert s. induction (N.lt_wf_0 x) as [x _ IH]. intros s Hs.
  destruct (decide (x = 0)%N) as [->|Hx].
  - rewrite pretty_N_go_0. exact Hs.
  - rewrite pretty_N_go_step by lia. apply IH; [apply N.div_lt; lia|].
    discriminate.
Qed.

Lemma pretty_nonempty (z : Z) : (0 < String.length (pretty z))%nat.
Proof.
  assert (HN : forall p, pretty (N.pos p) <> EmptyString).
  { intros p. unfold pretty, pretty_N. case_decide; [discriminate|].
    rewrite pretty_N_go_step by lia. apply pretty_N_go_nonempty. discriminate. }
  destruct z as [|p|p]; [cbn; lia | |].
  - specialize (HN p). change (pretty (Z.pos p)) with (pretty (N.pos p)).
    destruct (pretty (N.pos p)); [contradiction | cbn; lia].
  - change (pretty (Z.neg p)) with (String "-" (pretty (N.pos p))). cbn. lia.
Qed.

(** A number never prints as the empty string. *)
Lemma finite_to_string_nonempty m e :
  (0 < String.length (finite_to_string m e))%nat.
Proof.
  unfold finite_to_string.
  destruct (shortest 20 m e (magnitude m e - 1)) as [c p].
  pose proof (pretty_nonempty c) as Hc. cbv zeta.
  match goal with
  | |- context [if ?b then "1" else pretty c] =>
      set (ds := if b then "1" else pretty c);
      assert (Hds : (0 < String.length ds)%nat)
        by (unfold ds; destruct b; [cbn; lia | exact Hc])
  end.
  clearbody ds.
  repeat match goal with
         | |- context [if ?b then _ else _] => destruct b
         end;
    rewrite !UploadFacts.length_append; cbn [String.length]; lia.
Qed.

Lemma number_to_string_nonempty x : number_to_string x <> EmptyString.
Proof.
  apply nonempty_length. unfold number_to_string.
  destruct (Prim2SF x) as [[|]|[|]| |[|] m e]; cbn [String.length]; try lia;
    rewrite UploadFacts.length_append;
    pose proof (finite_to_string_nonempty (Z.pos m) e); lia.
Qed.

(** X18.  The form is opened on a webhook whose event types are plain words
    (no quote, backslash or line break), over checkboxes whose [value]
    attributes are all different, and saved unchanged.  This sends the
    webhook back to its own address with its url and its enabled flag, and
    with those of its event types that a checkbox carries as its value, in
    the order of the checkboxes; event types without a checkbox are
    dropped.  When no checkbox carries any of them, nothing is sent and the
    user is asked to select an event type. *)
Theorem edit_then_save_round_trip (f : Form) (w : Webhook)
    (resp : SubmitResponse) :
  forallb plain (event_types w) = true ->
  NoDup (attributes f) ->
  let kept := List.filter (among (event_types w)) (attributes f) in
  exists f1,
    openWebhookModal w f = Some f1 /\
    modal_shown f1 = true /\
    (kept = [] ->
       log (handleWebhookSubmit resp f1)
       = log f ++ [Toast "Please select at least one event type" "error"]) /\
    (kept <> [] ->
       exists tail,
         log (handleWebhookSubmit resp f1)
         = log f
           ++ Send "PUT" (API_BASE +:+ "/webhooks/" +:+ number_to_string (id w))
                (mkWebhookData (url w) kept (enabled w))
              :: tail /\
         List.filter is_send tail = []).
Proof.
  intros Hplain Hnd kept.
  destruct (openWebhookModal w f) as [f1|] eqn:Hopen;
    [|unfold openWebhookModal in Hopen; rewrite Hplain in Hopen;
      discriminate Hopen].
  exists f1. split; [reflexivity|].
  pose proof (eventTypes_after_open w f f1 Hnd Hopen) as Hev. fold kept in Hev.
  unfold openWebhookModal in Hopen. rewrite Hplain in Hopen.
  injection Hopen as Hf1.
  assert (Hfields : webhook_id f1 = number_to_string (id w) /\
                    webhook_url f1 = url w /\ webhook_enabled f1 = enabled w /\
                    log f1 = log f /\ modal_shown f1 = true)
    by (rewrite <- Hf1; repeat split; reflexivity).
  destruct Hfields as (Hid & Hurl & Hen & Hlog & Hshown).
  clear Hf1. split; [exact Hshown|].
  unfold handleWebhookSubmit. rewrite Hev.
  destruct kept as [|v kept'] eqn:Hk.
  - split; [intros _; cbn [showToast emit log]; rewrite Hlog; reflexivity
           | congruence].
  - split; [discriminate|]. intros _.
    assert (Hne : String.eqb (webhook_id f1) EmptyString = false)
      by (apply String.eqb_neq; rewrite Hid; apply number_to_string_nonempty).
    rewrite Hne. cbn [negb].
    destruct resp; eexists;
      cbn [log emit showToast closeWebhookModal webhook_url webhook_enabled
           webhook_id];
      rewrite Hlog, Hid, Hurl, Hen, <- ?app_assoc; split; reflexivity.
Qed.

Lemma sample_form_distinct : NoDup (attributes sample_form).
Proof. apply (bool_decide_unpack _). vm_compute. exact I. Qed.

Lemma edit_then_save_round_trip_witness :
  exists f1,
    openWebhookModal sample_webhook sample_form = Some f1 /\
    modal_shown f1 = true /\
    exists tail,
      log (handleWebhookSubmit SubmitOk f1)
      = log sample_form
        ++ Send "PUT" "http://localhost:8000/api/webhooks/7"
             (mkWebhookData "https://example.test/hook"
                ["product.created"; "product.deleted"] true)
           :: tail /\
      List.filter is_send tail = [].
Proof.
  destruct (edit_then_save_round_trip sample_form sample_webhook SubmitOk
              eq_refl sample_form_distinct) as (f1 & Hopen & Hshown & _ & Hsend).
  exists f1. split; [exact Hopen|]. split; [exact Hshown|].
  apply Hsend. vm_compute. discriminate.
Defined.

End WebhooksFacts.
